(** * BDF.js: the font parser [_populate], the text compositor [writeText],
      [toString], [load] and [loadSync]

    A shallow embedding of [src/BDF.js].  JavaScript values are modelled as
    the code uses them:
    - a Number is [NaN] or an integer [Int z] (metrics of a BDF file are
      decimal integers; fractional, exponent and radix-prefixed numerals,
      infinities and magnitudes above 2^53 are outside the embedding);
    - a property that may be missing is an [option] ([None] is [undefined]);
    - a thrown exception is a [Throw] result, the state reached so far is
      passed along explicitly. *)

From Stdlib Require Import ZArith String Ascii List Bool Lia.
From stdpp Require Import base option list gmap.
From Stdlib Require Import Sorted.
Import ListNotations.
Open Scope string_scope.
Open Scope list_scope.
Open Scope Z_scope.

(** ** Numbers *)

Inductive num := NaN | Int (z : Z).

#[global] Instance num_eq_dec : EqDecision num.
Proof. solve_decision. Defined.

#[global] Instance num_countable : Countable num.
Proof.
  refine (inj_countable' (fun n => match n with NaN => None | Int z => Some z end)
                         (fun o => match o with None => NaN | Some z => Int z end) _).
  now intros [|z].
Defined.

(** [ToNumber] of a property read: [undefined] converts to [NaN]. *)
Definition ToNumber (v : option num) : num :=
  match v with Some n => n | None => NaN end.

Definition num_add (a b : num) : num :=
  match a, b with Int x, Int y => Int (x + y) | _, _ => NaN end.

Definition num_sub (a b : num) : num :=
  match a, b with Int x, Int y => Int (x - y) | _, _ => NaN end.

Definition num_neg (a : num) : num :=
  match a with Int x => Int (- x) | NaN => NaN end.

(** [a < b]: any comparison with [NaN] is false. *)
Definition num_lt (a b : num) : bool :=
  match a, b with Int x, Int y => x <? y | _, _ => false end.

(** [Math.max(a, b)]: [NaN] if either argument is. *)
Definition Math_max (a b : num) : num :=
  match a, b with Int x, Int y => Int (Z.max x y) | _, _ => NaN end.

(** [Math.ceil(w / 8)] *)
Definition Math_ceil_div8 (w : num) : num :=
  match w with Int x => Int ((x + 7) / 8) | NaN => NaN end.

(** [v || 0] on a numeric property: [undefined], [NaN] and [0] are falsy. *)
Definition or_zero (v : option num) : num :=
  match v with Some (Int z) => Int z | _ => Int 0 end.

(** Number of iterations of [for (var v = 0; v < n; v++)]. *)
Definition iterations (n : num) : nat :=
  match n with Int z => Z.to_nat z | NaN => 0%nat end.

(** ** Exceptions *)

Inductive exn :=
  | ThrowString (msg : string)   (* [throw "..."] *)
  | TypeError.                   (* property access on [undefined] or [null] *)

Inductive result (A : Type) :=
  | Normal (a : A)
  | Throw (e : exn).
Arguments Normal {A} a.
Arguments Throw {A} e.

(** Sequencing: an exception ends the computation. *)
#[global] Instance result_bind : MBind result := fun A B k r =>
  match r with Normal a => k a | Throw e => Throw e end.

(** [for (var v = 0; v < n; v++) body], the body being run for
    [v = i, i+1, ...], [count] times. *)
Fixpoint for_from {St : Type} (count : nat) (i : Z)
    (body : Z -> St -> result St) (s : St) : result St :=
  match count with
  | O => Normal s
  | S c => s' ← body i s; for_from c (i + 1) body s'
  end.

Definition for_lt {St : Type} (n : num) (body : Z -> St -> result St) (s : St)
    : result St :=
  for_from (iterations n) 0 body s.

(** ** Strings *)

Definition code_of (c : ascii) : Z := Z.of_N (N_of_ascii c).

(** The characters matched by [\s] (and skipped by [parseInt]) among the
    code units below 256: TAB, LF, VT, FF, CR, space, NBSP. *)
Definition is_space (c : ascii) : bool :=
  let n := code_of c in
  ((9 <=? n) && (n <=? 13)) || (n =? 32) || (n =? 160).

(** [s.split(sep)] for a one-character separator. *)
Fixpoint split_on (sep : ascii) (s : string) : list string :=
  match s with
  | EmptyString => [EmptyString]
  | String c r =>
      if Ascii.eqb c sep then EmptyString :: split_on sep r
      else match split_on sep r with
           | h :: t => String c h :: t
           | [] => [String c EmptyString]
           end
  end.

(** [s.split(/\s+/)]: [in_sep] tells that the previous character belonged
    to a separator run. *)
Fixpoint split_ws_from (in_sep : bool) (s : string) : list string :=
  match s with
  | EmptyString => [EmptyString]
  | String c r =>
      if is_space c then
        if in_sep then split_ws_from true r
        else EmptyString :: split_ws_from true r
      else match split_ws_from false r with
           | h :: t => String c h :: t
           | [] => [String c EmptyString]
           end
  end.

Definition split_ws (s : string) : list string := split_ws_from false s.

Definition digit_of (c : ascii) : option Z :=
  let n := code_of c in
  if (48 <=? n) && (n <=? 57) then Some (n - 48) else None.

Definition hex_digit_of (c : ascii) : option Z :=
  let n := code_of c in
  if (48 <=? n) && (n <=? 57) then Some (n - 48)
  else if (65 <=? n) && (n <=? 70) then Some (n - 55)
  else if (97 <=? n) && (n <=? 102) then Some (n - 87)
  else None.

(** All of [s] as decimal digits, [acc] being the value read so far. *)
Fixpoint dec_digits (acc : Z) (s : string) : option Z :=
  match s with
  | EmptyString => Some acc
  | String c r =>
      match digit_of c with
      | Some d => dec_digits (10 * acc + d) r
      | None => None
      end
  end.

Definition dec_numeral (s : string) : num :=
  match s with
  | EmptyString => NaN
  | _ => match dec_digits 0 s with Some z => Int z | None => NaN end
  end.

(** Unary plus on a whitespace-free token: the empty string is 0, a signed
    decimal integer numeral is its value, other text is [NaN].  (The
    numerals with a fraction, an exponent or a radix prefix, which font
    files do not use, are not told apart from other text.) *)
Definition string_to_number (s : string) : num :=
  match s with
  | EmptyString => Int 0
  | String c r =>
      if Ascii.eqb c "-" then num_neg (dec_numeral r)
      else if Ascii.eqb c "+" then dec_numeral r
      else dec_numeral s
  end.

(** [+data[k]] *)
Definition unary_plus (v : option string) : num :=
  match v with Some s => string_to_number s | None => NaN end.

Fixpoint skip_ws (s : string) : string :=
  match s with
  | EmptyString => EmptyString
  | String c r => if is_space c then skip_ws r else s
  end.

(** The value of the longest prefix of hexadecimal digits, [None] when the
    prefix is empty and nothing was read before. *)
Fixpoint hex_prefix (acc : option Z) (s : string) : option Z :=
  match s with
  | EmptyString => acc
  | String c r =>
      match hex_digit_of c with
      | Some d => hex_prefix (Some (16 * default 0 acc + d)) r
      | None => acc
      end
  end.

Definition strip_0x (s : string) : string :=
  match s with
  | String c1 (String c2 r) =>
      if Ascii.eqb c1 "0" && (Ascii.eqb c2 "x" || Ascii.eqb c2 "X") then r else s
  | _ => s
  end.

(** [parseInt(s, 16)] *)
Definition parseInt16 (s : string) : num :=
  let s1 := skip_ws s in
  let '(sign, s2) :=
    match s1 with
    | String c r =>
        if Ascii.eqb c "-" then (-1, r)
        else if Ascii.eqb c "+" then (1, r)
        else (1, s1)
    | EmptyString => (1, s1)
    end in
  match hex_prefix None (strip_0x s2) with
  | Some v => Int (sign * v)
  | None => NaN
  end.

(** [s.substr(start, len)] for [start >= 0] *)
Definition substr (s : string) (start len : Z) : string :=
  substring (Z.to_nat start) (Z.to_nat len) s.

(** ** Arrays and objects *)

(** [a[i] = v] on a dense array when [i] is at most its length, which is
    how [_populate] fills [bytes] and [bitmap]: in increasing index order. *)
Definition array_set {A : Type} (a : list A) (i : Z) (v : A) : list A :=
  if i <? Z.of_nat (length a) then <[Z.to_nat i := v]> a else a ++ [v].

(** The property keys that arise: the decimal numeral of an integer,
    ["NaN"] and ["undefined"]. *)
Inductive pkey := KNum (z : Z) | KNaN | KUndefined.

#[global] Instance pkey_eq_dec : EqDecision pkey.
Proof. solve_decision. Defined.

(** [ToString] of the value used as a property name. *)
Definition ToPropertyKey (v : option num) : pkey :=
  match v with
  | None => KUndefined
  | Some NaN => KNaN
  | Some (Int z) => KNum z
  end.

(** A canonical numeric string in the range of array indices. *)
Definition is_array_index (k : pkey) : bool :=
  match k with
  | KNum z => (0 <=? z) && (z <? 4294967295)
  | _ => false
  end.

(** An object used as a dictionary: its own properties in creation order. *)
Fixpoint obj_get {V : Type} (k : pkey) (o : list (pkey * V)) : option V :=
  match o with
  | [] => None
  | (k', v) :: o' => if decide (k = k') then Some v else obj_get k o'
  end.

(** [o[k] = v]: an existing property keeps its place. *)
Fixpoint obj_set {V : Type} (k : pkey) (v : V) (o : list (pkey * V)) : list (pkey * V) :=
  match o with
  | [] => [(k, v)]
  | (k', v') :: o' =>
      if decide (k = k') then (k, v) :: o' else (k', v') :: obj_set k v o'
  end.

Fixpoint insert_sorted (z : Z) (l : list Z) : list Z :=
  match l with
  | [] => [z]
  | y :: l' => if z <=? y then z :: l else y :: insert_sorted z l'
  end.

Definition index_of (k : pkey) : Z := match k with KNum z => z | _ => 0 end.

(** [Object.keys(o)]: array indices in ascending order, then the other
    keys in creation order. *)
Definition Object_keys {V : Type} (o : list (pkey * V)) : list pkey :=
  let ks := map fst o in
  map KNum (fold_right insert_sorted [] (map index_of (filter (fun k => is_array_index k = true) ks)))
  ++ filter (fun k => is_array_index k = false) ks.

(** ** The font model *)

Module BoundingBox.
Record t := mk { x : num; y : num; width : num; height : num }.
End BoundingBox.

Module Glyph.
Record t := mk {
  name : option string;
  bytes : list num;
  bitmap : list (list Z);
  code : option num;
  char : option Z;            (* the one UTF-16 code unit of the string *)
  scalableWidthX : option num;
  scalableWidthY : option num;
  deviceWidthX : option num;
  deviceWidthY : option num;
  boundingBox : option BoundingBox.t }.

Definition set_bytes (v : list num) (g : t) : t :=
  mk (name g) v (bitmap g) (code g) (char g) (scalableWidthX g) (scalableWidthY g)
     (deviceWidthX g) (deviceWidthY g) (boundingBox g).
Definition set_bitmap (v : list (list Z)) (g : t) : t :=
  mk (name g) (bytes g) v (code g) (char g) (scalableWidthX g) (scalableWidthY g)
     (deviceWidthX g) (deviceWidthY g) (boundingBox g).
Definition set_encoding (c : num) (ch : Z) (g : t) : t :=
  mk (name g) (bytes g) (bitmap g) (Some c) (Some ch) (scalableWidthX g) (scalableWidthY g)
     (deviceWidthX g) (deviceWidthY g) (boundingBox g).
Definition set_scalableWidth (wx wy : num) (g : t) : t :=
  mk (name g) (bytes g) (bitmap g) (code g) (char g) (Some wx) (Some wy)
     (deviceWidthX g) (deviceWidthY g) (boundingBox g).
Definition set_deviceWidth (wx wy : num) (g : t) : t :=
  mk (name g) (bytes g) (bitmap g) (code g) (char g) (scalableWidthX g) (scalableWidthY g)
     (Some wx) (Some wy) (boundingBox g).
Definition set_boundingBox (b : BoundingBox.t) (g : t) : t :=
  mk (name g) (bytes g) (bitmap g) (code g) (char g) (scalableWidthX g) (scalableWidthY g)
     (deviceWidthX g) (deviceWidthY g) (Some b).
End Glyph.

Module Size.
Record t := mk { points : num; resolutionX : num; resolutionY : num }.
End Size.

Module Properties.
Record t := mk {
  fontDescent : option num;
  fontAscent : option num;
  defaultChar : option num }.
Definition empty : t := mk None None None.
End Properties.

Module Meta.
Record t := mk {
  version : option string;
  name : option string;
  size : option Size.t;
  boundingBox : option BoundingBox.t;
  properties : option Properties.t;
  totalChars : option num }.
Definition empty : t := mk None None None None None None.

Definition set_version (v : option string) (m : t) : t :=
  mk v (name m) (size m) (boundingBox m) (properties m) (totalChars m).
Definition set_name (v : option string) (m : t) : t :=
  mk (version m) v (size m) (boundingBox m) (properties m) (totalChars m).
Definition set_size (v : Size.t) (m : t) : t :=
  mk (version m) (name m) (Some v) (boundingBox m) (properties m) (totalChars m).
Definition set_boundingBox (v : BoundingBox.t) (m : t) : t :=
  mk (version m) (name m) (size m) (Some v) (properties m) (totalChars m).
Definition set_properties (v : Properties.t) (m : t) : t :=
  mk (version m) (name m) (size m) (boundingBox m) (Some v) (totalChars m).
Definition set_totalChars (v : num) (m : t) : t :=
  mk (version m) (name m) (size m) (boundingBox m) (properties m) (Some v).
End Meta.

(** The [BDF] instance: [meta] and [glyphs] are [null] until a font is
    loaded. *)
Record BDF := mkBDF {
  meta : option Meta.t;
  glyphs : option (list (pkey * Glyph.t)) }.

(** [new BDF()] *)
Definition new_BDF : BDF := mkBDF None None.

(** ** [_populate] *)

Inductive keyword :=
  | STARTFONT | FONT | SIZE | FONTBOUNDINGBOX | STARTPROPERTIES
  | FONT_DESCENT | FONT_ASCENT | DEFAULT_CHAR | ENDPROPERTIES | CHARS
  | STARTCHAR | ENCODING | SWIDTH | DWIDTH | BBX | BITMAP | ENDCHAR | ENDFONT.

(** The [case] labels of the [switch]. *)
Definition keywords : list (string * keyword) :=
  [ ("STARTFONT", STARTFONT); ("FONT", FONT); ("SIZE", SIZE);
    ("FONTBOUNDINGBOX", FONTBOUNDINGBOX); ("STARTPROPERTIES", STARTPROPERTIES);
    ("FONT_DESCENT", FONT_DESCENT); ("FONT_ASCENT", FONT_ASCENT);
    ("DEFAULT_CHAR", DEFAULT_CHAR); ("ENDPROPERTIES", ENDPROPERTIES);
    ("CHARS", CHARS); ("STARTCHAR", STARTCHAR); ("ENCODING", ENCODING);
    ("SWIDTH", SWIDTH); ("DWIDTH", DWIDTH); ("BBX", BBX); ("BITMAP", BITMAP);
    ("ENDCHAR", ENDCHAR); ("ENDFONT", ENDFONT) ].

Fixpoint assoc_string {V : Type} (s : string) (l : list (string * V)) : option V :=
  match l with
  | [] => None
  | (k, v) :: l' => if String.eqb s k then Some v else assoc_string s l'
  end.

Definition keyword_of (declaration : string) : option keyword :=
  assoc_string declaration keywords.

(** The parser's view of the font while the lines are read: the [meta] and
    [glyphs] objects of [this], and the local variables of the loop. *)
Record pstate := mkP {
  this_meta : Meta.t;
  this_glyphs : list (pkey * Glyph.t);
  declarationStack : list keyword;     (* top first *)
  currentChar : option Glyph.t }.

Definition set_meta (f : Meta.t -> Meta.t) (st : pstate) : pstate :=
  mkP (f (this_meta st)) (this_glyphs st) (declarationStack st) (currentChar st).
Definition push (k : keyword) (st : pstate) : pstate :=
  mkP (this_meta st) (this_glyphs st) (k :: declarationStack st) (currentChar st).
(** [declarationStack.pop()]: nothing happens on an empty array. *)
Definition pop (st : pstate) : pstate :=
  mkP (this_meta st) (this_glyphs st) (tail (declarationStack st)) (currentChar st).
Definition set_currentChar (c : option Glyph.t) (st : pstate) : pstate :=
  mkP (this_meta st) (this_glyphs st) (declarationStack st) c.
Definition set_glyphs (g : list (pkey * Glyph.t)) (st : pstate) : pstate :=
  mkP (this_meta st) g (declarationStack st) (currentChar st).

(** [this.meta.properties.<field> = v] *)
Definition with_properties (f : Properties.t -> Properties.t) (st : pstate) : result pstate :=
  match Meta.properties (this_meta st) with
  | Some p => Normal (set_meta (Meta.set_properties (f p)) st)
  | None => Throw TypeError
  end.

(** [currentChar.<field> = v] *)
Definition with_currentChar (f : Glyph.t -> Glyph.t) (st : pstate) : result pstate :=
  match currentChar st with
  | Some c => Normal (set_currentChar (Some (f c)) st)
  | None => Throw TypeError
  end.

(** [String.fromCharCode(n)], as the code unit [ToUint16(n)]. *)
Definition fromCharCode (n : num) : Z :=
  match n with Int z => z mod 65536 | NaN => 0 end.

(** [byte & (1 << bit) ? 1 : 0] *)
Definition bit_of (byte : num) (bit : Z) : Z :=
  match byte with
  | Int b => if Z.land b (Z.shiftl 1 bit) =? 0 then 0 else 1
  | NaN => 0
  end.

(** [currentChar.bitmap[row][index] = v] *)
Definition set_bitmap_cell (row index v : Z) (c : Glyph.t) : result Glyph.t :=
  match Glyph.bitmap c !! Z.to_nat row with
  | Some r => Normal (Glyph.set_bitmap (array_set (Glyph.bitmap c) row (array_set r index v)) c)
  | None => Throw TypeError
  end.

(** The body of the [byteIndex] loop; [bytesLine] is [fontLines[i + 1]]. *)
Definition decode_byte (bytesLine : option string) (row byteIndex : Z)
    (c : Glyph.t) : result Glyph.t :=
  match bytesLine with
  | None => Throw TypeError
  | Some l =>
      let byteString := substr l (byteIndex * 2) 2 in
      let byte := parseInt16 byteString in
      let c := Glyph.set_bytes (Glyph.bytes c ++ [byte]) c in
      foldl (fun r bit => c ← r; set_bitmap_cell row (byteIndex * 8 + (7 - bit)) (bit_of byte bit) c)
            (Normal c) [7; 6; 5; 4; 3; 2; 1; 0]
  end.

(** The body of the [row] loop; [rest] holds the lines after the [BITMAP]
    line, so that [fontLines[i + 1]] is [rest !! row]. *)
Definition decode_row (rest : list string) (bytesPerLine : num) (row : Z)
    (c : Glyph.t) : result Glyph.t :=
  let bytesLine := rest !! Z.to_nat row in
  let c := Glyph.set_bitmap (array_set (Glyph.bitmap c) row []) c in
  for_lt bytesPerLine (decode_byte bytesLine row) c.

(** The [BITMAP] case. *)
Definition decode_bitmap (rest : list string) (c : Glyph.t) : result Glyph.t :=
  match Glyph.boundingBox c with
  | None => Throw TypeError
  | Some b =>
      let bytesPerLine := Math_ceil_div8 (BoundingBox.width b) in
      for_lt (BoundingBox.height b) (decode_row rest bytesPerLine) c
  end.

(** One turn of the loop on a line that is a declaration: the new state and
    the number of following lines that the [BITMAP] case has consumed by
    advancing [i]. *)
Definition declare (rest : list string) (line : string) (st : pstate)
    : result (pstate * nat) :=
  let data := split_ws line in
  let arg (k : nat) := unary_plus (data !! k) in
  match data !! 0%nat ≫= keyword_of with
  | Some STARTFONT =>
      Normal (set_meta (Meta.set_version (data !! 1%nat)) (push STARTFONT st), 0%nat)
  | Some FONT =>
      Normal (set_meta (Meta.set_name (data !! 1%nat)) st, 0%nat)
  | Some SIZE =>
      Normal (set_meta (Meta.set_size (Size.mk (arg 1%nat) (arg 2%nat) (arg 3%nat))) st, 0%nat)
  | Some FONTBOUNDINGBOX =>
      Normal (set_meta (Meta.set_boundingBox
                (BoundingBox.mk (arg 3%nat) (arg 4%nat) (arg 1%nat) (arg 2%nat))) st, 0%nat)
  | Some STARTPROPERTIES =>
      Normal (set_meta (Meta.set_properties Properties.empty) (push STARTPROPERTIES st), 0%nat)
  | Some FONT_DESCENT =>
      st ← with_properties (fun p => Properties.mk (Some (arg 1%nat))
              (Properties.fontAscent p) (Properties.defaultChar p)) st;
      Normal (st, 0%nat)
  | Some FONT_ASCENT =>
      st ← with_properties (fun p => Properties.mk (Properties.fontDescent p)
              (Some (arg 1%nat)) (Properties.defaultChar p)) st;
      Normal (st, 0%nat)
  | Some DEFAULT_CHAR =>
      st ← with_properties (fun p => Properties.mk (Properties.fontDescent p)
              (Properties.fontAscent p) (Some (arg 1%nat))) st;
      Normal (st, 0%nat)
  | Some ENDPROPERTIES => Normal (pop st, 0%nat)
  | Some CHARS => Normal (set_meta (Meta.set_totalChars (arg 1%nat)) st, 0%nat)
  | Some STARTCHAR =>
      Normal (set_currentChar
                (Some (Glyph.mk (data !! 1%nat) [] [] None None None None None None None))
                (push STARTCHAR st), 0%nat)
  | Some ENCODING =>
      st ← with_currentChar (Glyph.set_encoding (arg 1%nat) (fromCharCode (arg 1%nat))) st;
      Normal (st, 0%nat)
  | Some SWIDTH =>
      st ← with_currentChar (Glyph.set_scalableWidth (arg 1%nat) (arg 2%nat)) st;
      Normal (st, 0%nat)
  | Some DWIDTH =>
      st ← with_currentChar (Glyph.set_deviceWidth (arg 1%nat) (arg 2%nat)) st;
      Normal (st, 0%nat)
  | Some BBX =>
      st ← with_currentChar (Glyph.set_boundingBox
              (BoundingBox.mk (arg 3%nat) (arg 4%nat) (arg 1%nat) (arg 2%nat))) st;
      Normal (st, 0%nat)
  | Some BITMAP =>
      match currentChar st with
      | None => Throw TypeError
      | Some c =>
          c' ← decode_bitmap rest c;
          Normal (set_currentChar (Some c') st,
                  iterations (ToNumber (BoundingBox.height <$> Glyph.boundingBox c)))
      end
  | Some ENDCHAR =>
      let st := pop st in
      match currentChar st with
      | None => Throw TypeError
      | Some c =>
          Normal (set_currentChar None
                    (set_glyphs (obj_set (ToPropertyKey (Glyph.code c)) c (this_glyphs st)) st),
                  0%nat)
      end
  | Some ENDFONT => Normal (pop st, 0%nat)
  | None => Normal (st, 0%nat)
  end.

(** The loop over [fontLines], from the line at index [i] on: [skip] lines
    are passed over first, those that the [BITMAP] case has read.  The
    result is the exception raised, if any, and the state reached. *)
Fixpoint read_lines (fontLines : list string) (skip : nat) (st : pstate)
    : option exn * pstate :=
  match fontLines with
  | [] => (None, st)
  | line :: rest =>
      match skip with
      | S k => read_lines rest k st
      | O =>
          match declare rest line st with
          | Normal (st', k) => read_lines rest k st'
          | Throw e => (Some e, st)
          end
      end
  end.

Definition LF : ascii := ascii_of_nat 10.

(** [!data] on the file contents: a missing or empty string. *)
Definition falsy (data : option string) : bool :=
  match data with
  | None | Some EmptyString => true
  | Some _ => false
  end.

(** The pass over all lines of a non-empty [data], started on the fresh
    [meta] and [glyphs] objects, an empty stack and no current glyph. *)
Definition populate_pass (data : string) : option exn * pstate :=
  let fontLines := split_on LF data in
  read_lines fontLines 0 (mkP Meta.empty [] [] None).

(** [_populate(path, data)] run on the instance [this]: how the call ends
    and the instance after it. *)
Definition _populate (this : BDF) (path : string) (data : option string)
    : result unit * BDF :=
  if falsy data then
    (Throw (ThrowString ("Couldn't understand this font: " ++ path)), this)
  else
    let '(e, st) := populate_pass (default EmptyString data) in
    let this' := mkBDF (Some (this_meta st)) (Some (this_glyphs st)) in
    match e with
    | Some e => (Throw e, this')
    | None =>
        match declarationStack st with
        | [] => (Normal tt, this')
        | _ :: _ =>
            (Throw (ThrowString ("Couldn't correctly parse font at: " ++ path)), this')
        end
    end.

(** ** [writeText] *)

(** A row of the destination bitmap: a JavaScript array of numbers.  A
    write at an array index at or past [length] extends the array (leaving
    holes); a write at any other key ([-1], [NaN]) only adds a property. *)
Module JSArray.
Record t := mk { length : Z; slots : gmap num Z }.

Definition empty : t := mk 0 ∅.

Definition get (k : num) (a : t) : option Z := slots a !! k.

Definition set (k : num) (v : Z) (a : t) : t :=
  mk (match k with
      | Int c => if (0 <=? c) && (c <? 4294967295) then Z.max (length a) (c + 1) else length a
      | NaN => length a
      end)
     (<[k := v]> (slots a)).

(** The elements at the indices [0 .. length - 1]. *)
Definition to_list (a : t) : list (option Z) :=
  map (fun i => get (Int (Z.of_nat i)) a) (seq 0 (Z.to_nat (length a))).
End JSArray.

(** The object returned by [writeText]: [width], [height], and the rows
    under the keys [0 .. height - 1]. *)
Module Bitmap.
Record t := mk { width : num; height : num; rows : gmap Z JSArray.t }.

(** [_bitmap[row]] *)
Definition row (r : num) (b : t) : option JSArray.t :=
  match r with Int z => rows b !! z | NaN => None end.

Definition set_width (w : num) (b : t) : t := mk w (height b) (rows b).
Definition set_row (r : Z) (a : JSArray.t) (b : t) : t :=
  mk (width b) (height b) (<[r := a]> (rows b)).
End Bitmap.

Record options := mkOptions {
  textRepeat : option num;
  kerningBias : option num }.

(** [this.glyphs[charCode]] *)
Definition glyph_at (this : BDF) (charCode : option num) : result (option Glyph.t) :=
  match glyphs this with
  | Some g => Normal (obj_get (ToPropertyKey charCode) g)
  | None => Throw TypeError
  end.

(** [this.meta.properties.defaultChar] *)
Definition get_defaultChar (this : BDF) : result (option num) :=
  match meta this with
  | None => Throw TypeError
  | Some m =>
      match Meta.properties m with
      | None => Throw TypeError
      | Some p => Normal (Properties.defaultChar p)
      end
  end.

(** [this.glyphs[Object.keys(this.glyphs)[0]]] *)
Definition first_glyph (this : BDF) : result (option Glyph.t) :=
  match glyphs this with
  | Some g => Normal (obj_get (default KUndefined (Object_keys g !! 0%nat)) g)
  | None => Throw TypeError
  end.

(** The glyph for a character, with the replacements for a missing one:
    the default character, ['?'], the first glyph of the font. *)
Definition resolve_glyph (this : BDF) (charCode : Z) : result (option Glyph.t) :=
  glyphData ← glyph_at this (Some (Int charCode));
  glyphData ← match glyphData with
              | Some _ => Normal glyphData
              | None => charCode ← get_defaultChar this; glyph_at this charCode
              end;
  glyphData ← match glyphData with
              | Some _ => Normal glyphData
              | None => glyph_at this (Some (Int (code_of "?")))
              end;
  match glyphData with
  | Some _ => Normal glyphData
  | None => first_glyph this
  end.

(** [_bitmap[row][column] = 0] *)
Definition clear_cell (row column : num) (b : Bitmap.t) : result Bitmap.t :=
  match row, Bitmap.row row b with
  | Int r, Some a => Normal (Bitmap.set_row r (JSArray.set column 0 a) b)
  | _, _ => Throw TypeError
  end.

(** [_bitmap[row][column] |= v] *)
Definition or_cell (row column : num) (v : option Z) (b : Bitmap.t) : result Bitmap.t :=
  match row, Bitmap.row row b with
  | Int r, Some a =>
      Normal (Bitmap.set_row r
                (JSArray.set column (Z.lor (default 0 (JSArray.get column a)) (default 0 v)) a) b)
  | _, _ => Throw TypeError
  end.

(** [glyphData.bitmap[y][x]] *)
Definition glyph_bit (g : Glyph.t) (y x : Z) : result (option Z) :=
  match Glyph.bitmap g !! Z.to_nat y with
  | Some r => Normal (r !! Z.to_nat x)
  | None => Throw TypeError
  end.

(** Extend the bitmap to the right with zeros. *)
Definition extend (height columnsToAdd : num) (b : Bitmap.t) : result Bitmap.t :=
  for_lt height (fun row b =>
    for_lt columnsToAdd (fun glyphColumn b =>
      let column := num_add (Int glyphColumn) (Bitmap.width b) in
      clear_cell (Int row) column b) b) b.

(** Draw the glyph. *)
Definition draw (g : Glyph.t) (box : BoundingBox.t) (rowStart xpos : num)
    (b : Bitmap.t) : result Bitmap.t :=
  for_lt (BoundingBox.height box) (fun y b =>
    for_lt (BoundingBox.width box) (fun x b =>
      let row := num_add rowStart (Int y) in
      let column := num_add (num_add xpos (BoundingBox.x box)) (Int x) in
      v ← glyph_bit g y x;
      or_cell row column v b) b) b.

(** The body of the loop over the characters of [text]; the state is the
    bitmap and [xpos]. *)
Definition write_char (this : BDF) (height baseline kerningBias : num) (charCode : Z)
    (s : Bitmap.t * num) : result (Bitmap.t * num) :=
  let '(_bitmap, xpos) := s in
  glyphData ← resolve_glyph this charCode;
  match glyphData ≫= (fun g => pair g <$> Glyph.boundingBox g) with
  | None => Throw TypeError
  | Some (g, box) =>
      let rowStart := num_sub (num_sub baseline (BoundingBox.y box)) (BoundingBox.height box) in
      let columnsToAdd := Math_max (ToNumber (Glyph.deviceWidthX g)) (BoundingBox.width box) in
      let '(xpos, columnsToAdd) :=
        if num_lt (Bitmap.width _bitmap) (num_neg (BoundingBox.x box))
        then (num_neg (BoundingBox.x box), num_add columnsToAdd (num_neg (BoundingBox.x box)))
        else (xpos, columnsToAdd) in
      _bitmap ← extend height columnsToAdd _bitmap;
      let _bitmap := Bitmap.set_width (num_add (Bitmap.width _bitmap) columnsToAdd) _bitmap in
      _bitmap ← draw g box rowStart xpos _bitmap;
      Normal (_bitmap, num_add xpos (num_add (ToNumber (Glyph.deviceWidthX g)) kerningBias))
  end.

Fixpoint write_chars (this : BDF) (height baseline kerningBias : num) (text : string)
    (s : Bitmap.t * num) : result (Bitmap.t * num) :=
  match text with
  | EmptyString => Normal s
  | String c text' =>
      s' ← write_char this height baseline kerningBias (code_of c) s;
      write_chars this height baseline kerningBias text' s'
  end.

(** The bitmap created when none is passed in. *)
Definition new_bitmap (height : num) : Bitmap.t :=
  foldl (fun b row => Bitmap.set_row (Z.of_nat row) JSArray.empty b)
        (Bitmap.mk (Int 0) height ∅) (seq 0 (iterations height)).

(** [this.meta.boundingBox] *)
Definition font_boundingBox (this : BDF) : result BoundingBox.t :=
  match meta this ≫= Meta.boundingBox with
  | Some box => Normal box
  | None => Throw TypeError
  end.

(** One call of [writeText] up to its recursive call: the bitmap after the
    loop over the text. *)
Definition write_pass (this : BDF) (text : string) (opts : options)
    (_bitmap : option Bitmap.t) : result Bitmap.t :=
  let kerningBias := or_zero (kerningBias opts) in
  box ← font_boundingBox this;
  let height := BoundingBox.height box in
  let yoffset := BoundingBox.y box in
  let baseline := num_add height yoffset in
  let xpos := Int 0 in
  let _bitmap := match _bitmap with Some b => b | None => new_bitmap height end in
  s ← write_chars this height baseline kerningBias text (_bitmap, xpos);
  Normal (fst s).

(** [options.textRepeat--] *)
Definition decrement_textRepeat (opts : options) : options :=
  mkOptions (Some (num_sub (ToNumber (textRepeat opts)) (Int 1))) (kerningBias opts).

(** [writeText] on an options object, with the number of recursive calls
    still allowed; the result is the outcome and the options object
    afterwards.  [writeText_on] allows as many calls as the recursion
    makes, so that the case of no call left is not reached. *)
Fixpoint writeText_calls (calls : nat) (this : BDF) (text : string) (opts : options)
    (_bitmap : option Bitmap.t) : result Bitmap.t * options :=
  let textRepeat := or_zero (textRepeat opts) in
  match write_pass this text opts _bitmap with
  | Throw e => (Throw e, opts)
  | Normal b =>
      if num_lt (Int 0) textRepeat then
        match calls with
        | S calls' => writeText_calls calls' this text (decrement_textRepeat opts) (Some b)
        | O => (Throw TypeError, opts)
        end
      else (Normal b, opts)
  end.

(** [writeText(text, options, _bitmap)] on an options object: the recursion
    goes [textRepeat] calls deep. *)
Definition writeText_on (this : BDF) (text : string) (opts : options)
    (_bitmap : option Bitmap.t) : result Bitmap.t * options :=
  writeText_calls (iterations (or_zero (textRepeat opts))) this text opts _bitmap.

(** [writeText(text, options, _bitmap)], [options] and [_bitmap] being
    optional: the outcome, and the options object after the call. *)
Definition writeText (this : BDF) (text : string) (opts : option options)
    (_bitmap : option Bitmap.t) : result Bitmap.t * options :=
  writeText_on this text (default (mkOptions None None) opts) _bitmap.

(** ** The vocabulary of the specification *)

(** The specification calls MalformedFont what [_populate] throws: one of
    its two strings. *)
Inductive MalformedFont : exn -> Prop :=
  | not_understood (path : string) :
      MalformedFont (ThrowString ("Couldn't understand this font: " ++ path))
  | not_parsed (path : string) :
      MalformedFont (ThrowString ("Couldn't correctly parse font at: " ++ path)).

(** Parsing as an atomic operation: a call that fails with MalformedFont
    leaves the instance as it was. *)
Definition atomic_on_failure (this : BDF) (path : string) (data : option string) : Prop :=
  forall e, fst (_populate this path data) = Throw e -> MalformedFont e ->
            snd (_populate this path data) = this.

(** Every glyph of a table is stored under the key of its own code. *)
Definition keyed_by_code (g : list (pkey * Glyph.t)) : Prop :=
  Forall (fun kv => fst kv = ToPropertyKey (Glyph.code (snd kv))) g.

(** The decoded representation of a glyph as the specification has it:
    [ceil(width / 8) * height] bytes, [height] rows of bits, each of
    [width] entries. *)
Definition matches_bounding_box (g : Glyph.t) : Prop :=
  exists box w h,
    Glyph.boundingBox g = Some box /\
    BoundingBox.width box = Int w /\ BoundingBox.height box = Int h /\
    Z.of_nat (length (Glyph.bytes g)) = (w + 7) / 8 * h /\
    Z.of_nat (length (Glyph.bitmap g)) = h /\
    Forall (fun row => Z.of_nat (length row) = w) (Glyph.bitmap g).

(** The first [n] bytes of a row of hexadecimal digits. *)
Definition row_bytes (n : nat) (line : string) : list num :=
  map (fun byteIndex => parseInt16 (substr line (Z.of_nat byteIndex * 2) 2)) (seq 0 n).

(** A byte unpacked most significant bit first. *)
Definition byte_bits (byte : num) : list Z :=
  map (bit_of byte) [7; 6; 5; 4; 3; 2; 1; 0].

(** The bits of the first [n] bytes of a row, none dropped. *)
Definition row_bits (n : nat) (line : string) : list Z :=
  concat (map byte_bits (row_bytes n line)).

(** The element of a bitmap at a row and a column key. *)
Definition cell (b : Bitmap.t) (r : Z) (c : num) : option Z :=
  Bitmap.rows b !! r ≫= JSArray.get c.

(** Two bitmaps of the same [width] and [height] with rows under the same
    keys. *)
Definition same_frame (b b' : Bitmap.t) : Prop :=
  Bitmap.width b' = Bitmap.width b /\
  Bitmap.height b' = Bitmap.height b /\
  forall r, is_Some (Bitmap.rows b' !! r) <-> is_Some (Bitmap.rows b !! r).

(** The cells already written when two nested loops over the rows
    [R0 ..] and, in each row, the columns [C0 .. C0 + w - 1] have reached
    row [R0 + y], column [C0 + x]. *)
Definition written (R0 C0 w y x r : Z) (c : num) : bool :=
  match c with
  | Int cc =>
      (R0 <=? r) && (C0 <=? cc) && (cc <? C0 + w) &&
      ((r <? R0 + y) || ((r =? R0 + y) && (cc <? C0 + x)))
  | NaN => false
  end.

(** A row index that lies in a bitmap of the given height. *)
Definition row_in_canvas (height row : num) : bool :=
  match row with
  | Int r => (0 <=? r) && num_lt (Int r) height
  | NaN => false
  end.

(** A bitmap that starts with exactly [n] columns of zeros: the first
    column that holds a set bit is column [n]. *)
Definition starts_with_blank_columns (n : Z) (b : Bitmap.t) : Prop :=
  (forall r cc, is_Some (Bitmap.rows b !! r) -> 0 <= cc < n -> cell b r (Int cc) = Some 0) /\
  (exists r v, cell b r (Int n) = Some v /\ v <> 0).

(** Bit [(y, x)] of a glyph, 0 where the glyph has none. *)
Definition glyph_pixel (g : Glyph.t) (y x : Z) : Z :=
  default 0 (Glyph.bitmap g !! Z.to_nat y ≫= fun row => row !! Z.to_nat x).

(** [rowStart], the row of the bitmap for the top row of a glyph:
    [baseline - box.y - box.height] with [baseline = height + yoffset]. *)
Definition rowStart_of (fbox box : BoundingBox.t) : num :=
  num_sub (num_sub (num_add (BoundingBox.height fbox) (BoundingBox.y fbox))
                   (BoundingBox.y box))
          (BoundingBox.height box).

(** A glyph whose rows, when it has columns to draw, fall on rows of a
    canvas of the height of the font, and whose [bitmap] has these rows. *)
Definition fits (fbox : BoundingBox.t) (g : Glyph.t) : Prop :=
  exists box,
    Glyph.boundingBox g = Some box /\
    forall y, (0 < iterations (BoundingBox.width box))%nat ->
              0 <= y < Z.of_nat (iterations (BoundingBox.height box)) ->
              row_in_canvas (BoundingBox.height fbox)
                (num_add (rowStart_of fbox box) (Int y)) = true /\
              is_Some (Glyph.bitmap g !! Z.to_nat y).

(** The replacement of missing characters as the specification has it: on
    a font with at least one glyph [writeText] returns a bitmap. *)
Definition replacement_never_fails (this : BDF) (text : string) : Prop :=
  (exists table, glyphs this = Some table /\ table <> []) ->
  exists b, fst (writeText this text None None) = Normal b.

(** The rows of [copies] renderings set end to end. *)
Definition repeated (copies : nat) (rows : list (option (list (option Z))))
    : list (option (list (option Z))) :=
  map (fmap (fun row => concat (replicate copies row))) rows.

(** The cells of the box of a glyph drawn with its top left corner at row
    [rs], column [bx]. *)
Definition in_glyph_box (rs bx w h r c : Z) : bool :=
  (rs <=? r) && (r <? rs + h) && (bx <=? c) && (c <? bx + w).

(** A canvas of [H] rows and [K] columns that shows the glyph once, at row
    [rs], column [bx], and zeros elsewhere. *)
Definition shows_once (g : Glyph.t) (H rs bx w h K : Z) (b : Bitmap.t) : Prop :=
  Bitmap.width b = Int K /\
  (forall r, 0 <= r < H -> is_Some (Bitmap.rows b !! r)) /\
  forall r c, 0 <= r < H -> 0 <= c < K ->
    cell b r (Int c) =
      Some (if in_glyph_box rs bx w h r c then glyph_pixel g (r - rs) (c - bx) else 0).

(** An error of the program's own, raised by a [throw] statement. *)
Definition raises_own_error {A : Type} (r : result A) : Prop :=
  exists msg, r = Throw (ThrowString msg).

(** ** Sample fonts *)

Definition unlines (l : list string) : string :=
  String.concat (String LF EmptyString) l.

(** The instance after [loadSync] has read [data]. *)
Definition loaded (data : string) : BDF :=
  snd (_populate new_BDF "font.bdf" (Some data)).

(** [this.glyphs[code]] of a loaded font. *)
Definition glyph_of (this : BDF) (code : Z) : option Glyph.t :=
  glyphs this ≫= obj_get (KNum code).

(** A font whose sections are left open. *)
Definition open_font : string := unlines ["STARTFONT 2.1"; "FONT open"].

(** A font file with one glyph: the header for a font bounding box, an
    optional properties section, and the glyph. *)
Definition font_file (fontBox : string) (properties : list string)
    (name encoding dwidth bbx : string) (bitmapRows : list string) : string :=
  unlines (["STARTFONT 2.1"; "FONT sample"; "SIZE 1 75 75";
            String.append "FONTBOUNDINGBOX " fontBox]
           ++ properties
           ++ ["CHARS 1"; String.append "STARTCHAR " name;
               String.append "ENCODING " encoding; "SWIDTH 1000 0";
               String.append "DWIDTH " dwidth; String.append "BBX " bbx; "BITMAP"]
           ++ bitmapRows ++ ["ENDCHAR"; "ENDFONT"; ""]).

Definition default_is_A : list string :=
  ["STARTPROPERTIES 1"; "DEFAULT_CHAR 65"; "ENDPROPERTIES"].

(** One pixel: the glyph of 'A' is the single bit 1. *)
Definition pixel_font : string :=
  font_file "1 1 0 0" default_is_A "A" "65" "1 0" "1 1 0 0" ["80"].

(** The glyph that [_populate] makes of it. *)
Definition pixel_glyph : Glyph.t :=
  Glyph.mk (Some "A") [Int 128] [[1; 0; 0; 0; 0; 0; 0; 0]] (Some (Int 65)) (Some 65)
           (Some (Int 1000)) (Some (Int 0)) (Some (Int 1)) (Some (Int 0))
           (Some (BoundingBox.mk (Int 0) (Int 0) (Int 1) (Int 1))).

(** A glyph of width 4 whose only row is the byte 0x40. *)
Definition narrow_font : string :=
  font_file "4 1 0 0" default_is_A "A" "65" "4 0" "4 1 0 0" ["40"].

(** A glyph whose section declares a second bounding box after its
    bitmap. *)
Definition reboxed_font : string :=
  font_file "8 2 0 0" default_is_A "A" "65" "8 0" "8 1 0 0" ["80"; "BBX 8 2 0 0"].

(** The glyph of that font when its [BITMAP] line is reached, and the
    state of the parser then. *)
Definition narrow_glyph : Glyph.t :=
  Glyph.mk (Some "A") [] [] (Some (Int 65)) (Some 65)
           (Some (Int 1000)) (Some (Int 0)) (Some (Int 4)) (Some (Int 0))
           (Some (BoundingBox.mk (Int 0) (Int 0) (Int 4) (Int 1))).

Definition narrow_state : pstate :=
  mkP (Meta.mk (Some "2.1") (Some "sample") (Some (Size.mk (Int 1) (Int 75) (Int 75)))
         (Some (BoundingBox.mk (Int 0) (Int 0) (Int 4) (Int 1)))
         (Some (Properties.mk None None (Some (Int 65)))) (Some (Int 1)))
      [] [STARTCHAR; STARTFONT] (Some narrow_glyph).

(** A glyph of one pixel that sits two columns left of its origin. *)
Definition left_font : string :=
  font_file "3 1 -2 0" default_is_A "A" "65" "1 0" "1 1 -2 0" ["80"].

(** The glyph that [_populate] makes of it. *)
Definition left_glyph : Glyph.t :=
  Glyph.mk (Some "A") [Int 128] [[1; 0; 0; 0; 0; 0; 0; 0]] (Some (Int 65)) (Some 65)
           (Some (Int 1000)) (Some (Int 0)) (Some (Int 1)) (Some (Int 0))
           (Some (BoundingBox.mk (Int (-2)) (Int 0) (Int 1) (Int 1))).

(** A glyph two rows high in a font one row high. *)
Definition tall_font : string :=
  font_file "1 1 0 0" default_is_A "A" "65" "1 0" "1 2 0 0" ["80"; "80"].

(** The glyph that [_populate] makes of it. *)
Definition tall_glyph : Glyph.t :=
  Glyph.mk (Some "A") [Int 128; Int 128]
           [[1; 0; 0; 0; 0; 0; 0; 0]; [1; 0; 0; 0; 0; 0; 0; 0]] (Some (Int 65)) (Some 65)
           (Some (Int 1000)) (Some (Int 0)) (Some (Int 1)) (Some (Int 0))
           (Some (BoundingBox.mk (Int 0) (Int 0) (Int 1) (Int 2))).

(** A glyph of one pixel that sits five columns right of its origin. *)
Definition far_font : string :=
  font_file "1 1 0 0" default_is_A "A" "65" "1 0" "1 1 5 0" ["80"].

(** A font without a properties section, with a glyph for '?'. *)
Definition plain_font : string :=
  font_file "1 1 0 0" [] "question" "63" "1 0" "1 1 0 0" ["80"].

(** The glyph of 'A' of the font 4x6, as the tests of the repository know
    it. *)
Definition font_4x6 : string :=
  font_file "4 6 0 -1" default_is_A "A" "65" "4 0" "4 6 0 -1"
    ["40"; "A0"; "E0"; "A0"; "A0"; "00"].

(** The glyph of the apostrophe of the font helvR12: one column wide, one
    column right of its origin, on the rows 3 to 5 of a font 15 rows high. *)
Definition font_helvR12 : string :=
  font_file "14 15 -1 -3" default_is_A "quotesingle" "39" "3 0" "1 3 1 6"
    ["80"; "80"; "80"].

(** A font in the manner of c64: the default character 0 has no glyph,
    the question mark has one. *)
Definition font_c64 : string :=
  font_file "8 8 0 -2" ["STARTPROPERTIES 3"; "FONT_DESCENT 2"; "FONT_ASCENT 6";
                        "DEFAULT_CHAR 0"; "ENDPROPERTIES"]
    "question" "63" "8 0" "8 8 0 -2" ["3C"; "66"; "0C"; "18"; "18"; "00"; "18"; "00"].

(** A text of one character that c64 does not have. *)
Definition missing_text : string := String (ascii_of_nat 195) EmptyString.

(** The rows [0 .. height - 1] of a bitmap, each as the list of its
    elements. *)
Definition rows_of (b : Bitmap.t) : list (option (list (option Z))) :=
  map (fun i => JSArray.to_list <$> Bitmap.rows b !! Z.of_nat i)
      (seq 0 (iterations (Bitmap.height b))).

(** [writeText(text, options)] on a loaded font: width, height and rows of
    the bitmap returned. *)
Definition rendered (data text : string) (opts : option options)
    : result (num * num * list (option (list (option Z)))) :=
  b ← fst (writeText (loaded data) text opts None);
  Normal (Bitmap.width b, Bitmap.height b, rows_of b).

(** ** [toString] *)

(** [ToNumber] of a property key, the conversion that
    [String.fromCharCode(glyph)] applies to the key it is given: the
    numeral of an integer is that integer, ["NaN"] and ["undefined"] are
    [NaN]. *)
Definition key_to_number (k : pkey) : num :=
  match k with
  | KNum z => Int z
  | KNaN | KUndefined => NaN
  end.

(** [toString()]: the string returned, as the list of its code units.
    [for (var glyph in this.glyphs)] visits the keys of the object in the
    order of [Object.keys], and visits nothing when [glyphs] is [null]. *)
Definition toString (this : BDF) : list Z :=
  match glyphs this with
  | None => []
  | Some g =>
      foldl (fun text glyph => text ++ [fromCharCode (key_to_number glyph)])
            [] (Object_keys g)
  end.

(** ** [load] and [loadSync] *)

(** [load(path, callback)].  The file system is a parameter: [readFile]
    tells, for a path, the [err] and the [data] that [fs.readFile] passes
    to the function it is given.  The result is how that function ends,
    with the argument of the call [callback(err)] that it has scheduled by
    [process.nextTick] when it ends normally, and the instance
    afterwards. *)
Definition load {E : Type} (readFile : string -> option E * option string)
    (this : BDF) (path : string) : result (option E) * BDF :=
  let '(err, data) := readFile path in
  let '(r, this') := _populate this path data in
  (_ ← r; Normal err, this').

(** [loadSync(path)].  [readFileSync] tells, for a path, the contents that
    [fs.readFileSync] returns or the error that it throws; that error goes
    through [loadSync], the first component of the result. *)
Definition loadSync {E : Type} (readFileSync : string -> E + string)
    (this : BDF) (path : string) : (E + result unit) * BDF :=
  match readFileSync path with
  | inl e => (inl e, this)
  | inr data =>
      let '(r, this') := _populate this path (Some data) in (inr r, this')
  end.

(** ** More vocabulary *)

(** What [fs.readFile] passes to its callback: no error and the contents
    of the file, or an error and no data. *)
Definition readFile_outcome {E : Type} (read : option E * option string) : Prop :=
  (fst read = None /\ is_Some (snd read)) \/ (is_Some (fst read) /\ snd read = None).

(** The first word of a line as a declaration of the [switch]. *)
Definition head_keyword (line : string) : option keyword :=
  split_ws line !! 0%nat ≫= keyword_of.

(** The declarations that assign to [currentChar]. *)
Definition glyph_keywords : list keyword :=
  [ENCODING; SWIDTH; DWIDTH; BBX; BITMAP; ENDCHAR].

(** A property of glyphs that holds of the glyph being read and of all
    the glyphs of the table. *)
Definition glyphs_satisfy (P : Glyph.t -> Prop) (st : pstate) : Prop :=
  (forall c, currentChar st = Some c -> P c) /\
  Forall (fun kv => P (snd kv)) (this_glyphs st).

(** The declarations that assign to [this.meta.properties]. *)
Definition property_keywords : list keyword :=
  [FONT_DESCENT; FONT_ASCENT; DEFAULT_CHAR].

Definition is_bit (v : Z) : Prop := v = 0 \/ v = 1.

(** A row of whole bytes unpacked into bits. *)
Definition whole_bytes_of_bits (row : list Z) : Prop :=
  (exists n, length row = (8 * n)%nat) /\ Forall is_bit row.

(** The number that a list of bits writes, most significant bit first. *)
Definition bits_value (bits : list Z) : Z :=
  foldl (fun acc bit => 2 * acc + bit) 0 bits.

(** The bitmap and the bytes of a glyph after a [BITMAP] declaration
    followed by the lines [rest], for a bounding box of [h] rows read as
    [n] bytes each: the rows [0 .. h - 1] are the bits of the lines, the
    rows from [h] on are those that the glyph had, and the bytes of the
    lines come after those that the glyph had. *)
Definition decoded_rows (n h : nat) (rest : list string) : list (list Z) :=
  map (fun row => row_bits n (default EmptyString (rest !! row))) (seq 0 h).

Definition decoded_bytes (n h : nat) (rest : list string) : list num :=
  concat (map (fun row => row_bytes n (default EmptyString (rest !! row))) (seq 0 h)).

Definition after_bitmap (n h : nat) (rest : list string) (c : Glyph.t) : Glyph.t :=
  Glyph.set_bitmap (decoded_rows n h rest ++ drop h (Glyph.bitmap c))
    (Glyph.set_bytes (Glyph.bytes c ++ decoded_bytes n h rest) c).

(** The advance of the glyph of a character. *)
Definition advance_of (table : list (pkey * Glyph.t)) (ch : ascii) : Z :=
  match obj_get (KNum (code_of ch)) table ≫= Glyph.deviceWidthX with
  | Some (Int dw) => dw
  | _ => 0
  end.

(** The pixel that a glyph shows at row [r] and column [c] of its own
    cell, the columns [0 .. advance - 1] of a canvas of the height of the
    font: bit [(r - rowStart, c - box.x)] inside its bounding box, 0
    around it. *)
Definition glyph_cell_pixel (fbox : BoundingBox.t) (g : Glyph.t) (r c : Z) : Z :=
  match Glyph.boundingBox g with
  | Some box =>
      match rowStart_of fbox box, BoundingBox.x box,
            BoundingBox.width box, BoundingBox.height box with
      | Int rs, Int bx, Int w, Int h =>
          if in_glyph_box rs bx w h r c then glyph_pixel g (r - rs) (c - bx) else 0
      | _, _, _, _ => 0
      end
  | None => 0
  end.

(** The pixel of the cell of a character. *)
Definition char_pixel (fbox : BoundingBox.t) (table : list (pkey * Glyph.t))
    (ch : ascii) (r c : Z) : Z :=
  match obj_get (KNum (code_of ch)) table with
  | Some g => glyph_cell_pixel fbox g r c
  | None => 0
  end.

(** The cells of the characters of a text set side by side, each as wide
    as the advance of its glyph. *)
Fixpoint text_pixel (fbox : BoundingBox.t) (table : list (pkey * Glyph.t))
    (text : string) (r c : Z) : Z :=
  match text with
  | EmptyString => 0
  | String ch text' =>
      if c <? advance_of table ch then char_pixel fbox table ch r c
      else text_pixel fbox table text' r (c - advance_of table ch)
  end.

Fixpoint text_width (table : list (pkey * Glyph.t)) (text : string) : Z :=
  match text with
  | EmptyString => 0
  | String ch text' => advance_of table ch + text_width table text'
  end.

(** A character whose glyph lies inside its own cell: right of its origin
    and within its advance, on rows of the canvas, with a bitmap that has
    the rows of its bounding box. *)
Definition in_own_cell (fbox : BoundingBox.t) (table : list (pkey * Glyph.t))
    (ch : ascii) : Prop :=
  exists g bx y w h dw H Y,
    obj_get (KNum (code_of ch)) table = Some g /\
    Glyph.boundingBox g = Some (BoundingBox.mk (Int bx) (Int y) (Int w) (Int h)) /\
    Glyph.deviceWidthX g = Some (Int dw) /\
    BoundingBox.height fbox = Int H /\ BoundingBox.y fbox = Int Y /\
    0 <= bx /\ 0 <= w /\ bx + w <= dw /\
    0 <= H + Y - y - h /\ Y - y <= 0 /\
    forall j, 0 <= j < h -> is_Some (Glyph.bitmap g !! Z.to_nat j).

(** A canvas of [H] rows and [K] columns that shows a text once, from its
    first column on, and zeros in the columns after it. *)
Definition shows_text (fbox : BoundingBox.t) (table : list (pkey * Glyph.t))
    (text : string) (H K : Z) (b : Bitmap.t) : Prop :=
  Bitmap.width b = Int K /\
  (forall r, 0 <= r < H -> is_Some (Bitmap.rows b !! r)) /\
  forall r c, 0 <= r < H -> 0 <= c < K ->
    cell b r (Int c)
      = Some (if c <? text_width table text then text_pixel fbox table text r c else 0).

(** Two outcomes that are the same exception, or two results that [R]
    relates. *)
Definition rel_outcome {A B : Type} (R : A -> B -> Prop) (r1 : result A) (r2 : result B)
    : Prop :=
  match r1, r2 with
  | Normal a, Normal b => R a b
  | Throw e1, Throw e2 => e1 = e2
  | _, _ => False
  end.

(** Two outcomes of [writeText] that are the same exception, or two
    bitmaps of the same width and height, with rows under the same keys. *)
Definition same_outcome (r1 r2 : result Bitmap.t) : Prop :=
  rel_outcome same_frame r1 r2.

(** Two starting bitmaps for a pass: none on both sides, or two of the
    same frame. *)
Definition same_start (b1 b2 : option Bitmap.t) : Prop :=
  match b1, b2 with
  | None, None => True
  | Some a1, Some a2 => same_frame a1 a2
  | _, _ => False
  end.

(** A bitmap with the height of the font and a row for each index below
    it. *)
Definition canvas_of (fbox : BoundingBox.t) (b : Bitmap.t) : Prop :=
  Bitmap.height b = BoundingBox.height fbox /\
  forall r, is_Some (Bitmap.rows b !! r)
            <-> 0 <= r < Z.of_nat (iterations (BoundingBox.height fbox)).

(** A bitmap whose rows hold nothing but 0s and 1s. *)
Definition bits_only (b : Bitmap.t) : Prop :=
  forall r c v, cell b r c = Some v -> is_bit v.

(** The bitmap of an outcome that is one. *)
Definition bitmap_of (r : result Bitmap.t) : Bitmap.t :=
  match r with Normal b => b | Throw _ => new_bitmap NaN end.

(** A font of two glyphs without bitmaps, the glyph of 'B' before the
    glyph of 'A'. *)
Definition unordered_font : string :=
  unlines ["STARTFONT 2.1"; "FONTBOUNDINGBOX 1 1 0 0"; "STARTPROPERTIES 0";
           "ENDPROPERTIES"; "CHARS 2";
           "STARTCHAR B"; "ENCODING 66"; "ENDCHAR";
           "STARTCHAR A"; "ENCODING 65"; "ENDCHAR"; "ENDFONT"; ""].
(** ** Font files written out *)

















(** * Properties *)

(** ** The tests of the repository *)

(** 'should return valid bytes for 4x6' *)
Example bytes_of_4x6 :
  exists g, glyph_of (loaded font_4x6) 65 = Some g /\
            Glyph.char g = Some (code_of "A") /\
            Glyph.bytes g = [Int 64; Int 160; Int 224; Int 160; Int 160; Int 0].
Proof. eexists. split; [vm_compute; reflexivity|]. split; reflexivity. Qed.

(** 'should respect bounding box': the rows 3, 4 and 5 are [0, 1, 0], the
    other rows are zeros. *)
Example apostrophe_of_helvR12 :
  rendered font_helvR12 "'" None =
    Normal (Int 3, Int 15,
            replicate 3 (Some [Some 0; Some 0; Some 0])
            ++ replicate 3 (Some [Some 0; Some 1; Some 0])
            ++ replicate 9 (Some [Some 0; Some 0; Some 0])).
Proof. vm_compute. reflexivity. Qed.

(** 'should not fail for characters missing in font': the character is
    drawn as the question mark. *)
Example missing_character_of_c64 :
  glyph_of (loaded font_c64) (code_of (ascii_of_nat 195)) = None /\
  Meta.properties <$> meta (loaded font_c64)
    = Some (Some (Properties.mk (Some (Int 2)) (Some (Int 6)) (Some (Int 0)))) /\
  rendered font_c64 missing_text None = rendered font_c64 "?" None /\
  exists b, fst (writeText (loaded font_c64) missing_text None None) = Normal b.
Proof.
  split; [vm_compute; reflexivity|]. split; [vm_compute; reflexivity|].
  split; [vm_compute; reflexivity|]. eexists. vm_compute. reflexivity.
Qed.

(** ** [_populate]: failures *)

Lemma populate_falsy (this : BDF) (path : string) (data : option string) :
  falsy data = true ->
  _populate this path data =
    (Throw (ThrowString ("Couldn't understand this font: " ++ path)), this).
Proof. intros H. unfold _populate. now rewrite H. Qed.

Lemma populate_truthy (this : BDF) (path : string) (s : string) :
  s <> EmptyString ->
  _populate this path (Some s) =
    let '(e, st) := populate_pass s in
    let this' := mkBDF (Some (this_meta st)) (Some (this_glyphs st)) in
    match e with
    | Some e => (Throw e, this')
    | None =>
        match declarationStack st with
        | [] => (Normal tt, this')
        | _ :: _ => (Throw (ThrowString ("Couldn't correctly parse font at: " ++ path)), this')
        end
    end.
Proof. intros H. unfold _populate. destruct s; [congruence|reflexivity]. Qed.

Lemma falsy_cases (data : option string) :
  falsy data = true <-> data = None \/ data = Some EmptyString.
Proof.
  destruct data as [[|c s]|]; simpl; split; intros H; auto; try discriminate;
    destruct H as [H|H]; discriminate.
Qed.

(** C6: [_populate] throws its first string when the data is absent or
    empty, and its second string when the pass over all the lines has ended
    with a non-empty stack of open sections; both are MalformedFont. *)
Theorem populate_malformed (this : BDF) (path : string) (data : option string) :
  (data = None \/ data = Some EmptyString ->
     fst (_populate this path data)
       = Throw (ThrowString ("Couldn't understand this font: " ++ path))) /\
  (forall s st, data = Some s -> s <> EmptyString ->
     populate_pass s = (None, st) -> declarationStack st <> [] ->
     fst (_populate this path data)
       = Throw (ThrowString ("Couldn't correctly parse font at: " ++ path))) /\
  (data = None \/ data = Some EmptyString \/
   (exists s st, data = Some s /\ populate_pass s = (None, st) /\ declarationStack st <> []) ->
     exists e, fst (_populate this path data) = Throw e /\ MalformedFont e).
Proof.
  assert (H1 : data = None \/ data = Some EmptyString ->
     fst (_populate this path data)
       = Throw (ThrowString ("Couldn't understand this font: " ++ path))).
  { intros H. apply falsy_cases in H. now rewrite populate_falsy. }
  assert (H2 : forall s st, data = Some s -> s <> EmptyString ->
     populate_pass s = (None, st) -> declarationStack st <> [] ->
     fst (_populate this path data)
       = Throw (ThrowString ("Couldn't correctly parse font at: " ++ path))).
  { intros s st -> Hs Hp Hst. rewrite populate_truthy by assumption.
    rewrite Hp. destruct (declarationStack st); [congruence|reflexivity]. }
  split; [exact H1|split; [exact H2|]].
  intros [H|[H|(s & st & Hd & Hp & Hst)]].
  - eexists; split; [apply H1; auto|constructor].
  - eexists; split; [apply H1; auto|constructor].
  - destruct (decide (s = EmptyString)) as [->|Hs].
    + eexists; split; [apply H1; auto|constructor].
    + eexists; split; [eapply H2; eauto|constructor].
Qed.

Lemma populate_malformed_witness :
  fst (_populate new_BDF "a.bdf" None)
    = Throw (ThrowString "Couldn't understand this font: a.bdf") /\
  fst (_populate new_BDF "a.bdf" (Some open_font))
    = Throw (ThrowString "Couldn't correctly parse font at: a.bdf") /\
  exists e, fst (_populate new_BDF "a.bdf" (Some open_font)) = Throw e /\ MalformedFont e.
Proof.
  destruct (populate_malformed new_BDF "a.bdf" None) as (H1 & _ & _).
  destruct (populate_malformed new_BDF "a.bdf" (Some open_font)) as (_ & H2 & H3).
  split; [apply H1; left; reflexivity|].
  split.
  - apply (H2 open_font (snd (populate_pass open_font))).
    + reflexivity.
    + discriminate.
    + vm_compute. reflexivity.
    + vm_compute. discriminate.
  - apply H3. right. right.
    exists open_font, (snd (populate_pass open_font)).
    split; [reflexivity|]. split; [vm_compute; reflexivity|vm_compute; discriminate].
Defined.

(** Whatever a loop throws, its body has thrown. *)
Lemma for_from_throws {St : Type} (body : Z -> St -> result St) (E : exn) :
  (forall i s y, body i s = Throw y -> y = E) ->
  forall n i s y, for_from n i body s = Throw y -> y = E.
Proof.
  intros Hbody n. induction n as [|n IHn]; intros i s y; simpl; [discriminate|].
  destruct (body i s) eqn:Hbd; simpl; [apply IHn|]. intros [= <-]. eauto.
Qed.

Ltac destruct_options :=
  repeat match goal with
         | |- context [match ?o with Some _ => _ | None => _ end] => destruct o eqn:?; simpl
         end.

Lemma decode_bitmap_throws (rest : list string) (c : Glyph.t) (y : exn) :
  decode_bitmap rest c = Throw y -> y = TypeError.
Proof.
  unfold decode_bitmap. destruct (Glyph.boundingBox c); [|congruence].
  unfold for_lt. apply for_from_throws. intros i g y'.
  unfold decode_row, for_lt. apply for_from_throws.
  intros j g' y''. unfold decode_byte. destruct (lookup _ rest); [|congruence].
  simpl. unfold set_bitmap_cell. destruct_options; congruence.
Qed.

Lemma declare_throws (rest : list string) (line : string) (st : pstate) (y : exn) :
  declare rest line st = Throw y -> y = TypeError.
Proof.
  unfold declare, with_properties, with_currentChar.
  destruct (mbind keyword_of _) as [[]|]; simpl; destruct_options; try congruence.
  destruct (decode_bitmap rest t) eqn:Hdb; simpl; [congruence|].
  intros [= <-]. eapply decode_bitmap_throws; eauto.
Qed.

(** The loop over the lines throws nothing but a TypeError. *)
Lemma read_lines_throws (fontLines : list string) :
  forall skip st y st', read_lines fontLines skip st = (Some y, st') -> y = TypeError.
Proof.
  induction fontLines as [|l lines IH]; intros skip st y st'; simpl; [discriminate|].
  destruct skip; [|apply IH].
  destruct (declare lines l st) as [[st2 k]|x] eqn:Hd; [apply IH|].
  intros [= <- <-]. eapply declare_throws; eauto.
Qed.

(** C5, as stated, fails: a parse that ends on open sections throws after
    the instance has received the [meta] and [glyphs] read so far. *)
Lemma populate_not_atomic :
  ~ atomic_on_failure new_BDF "a.bdf" (Some open_font).
Proof.
  intros H.
  specialize (H (ThrowString ("Couldn't correctly parse font at: " ++ "a.bdf"))).
  assert (Hm : meta (snd (_populate new_BDF "a.bdf" (Some open_font))) = meta new_BDF).
  { rewrite H; [reflexivity|vm_compute; reflexivity|constructor]. }
  vm_compute in Hm. discriminate.
Qed.

(** C5, amended: a call that fails with MalformedFont either found no data
    and left the instance untouched, or went through all the lines and left
    in the instance the [meta] and [glyphs] populated from them, whatever
    the instance held before. *)
Theorem populate_failure_state (this : BDF) (path : string) (data : option string) (e : exn) :
  fst (_populate this path data) = Throw e -> MalformedFont e ->
  (falsy data = true /\ snd (_populate this path data) = this) \/
  (exists s st, data = Some s /\ populate_pass s = (None, st) /\
     declarationStack st <> [] /\
     snd (_populate this path data) = mkBDF (Some (this_meta st)) (Some (this_glyphs st))).
Proof.
  intros He Hm. destruct (falsy data) eqn:Hf.
  - left. split; [reflexivity|]. now rewrite populate_falsy.
  - right. destruct data as [s|]; [|discriminate].
    assert (Hs : s <> EmptyString) by (intros ->; discriminate).
    rewrite populate_truthy in * by assumption.
    destruct (populate_pass s) as [[e'|] st] eqn:Hp.
    + (* a step of the pass has thrown: a TypeError *)
      exfalso. simpl in He. injection He as <-.
      unfold populate_pass in Hp. apply read_lines_throws in Hp. subst e'. inversion Hm.
    + exists s, st. split; [reflexivity|]. split; [exact Hp|].
      simpl in He |- *.
      destruct (declarationStack st); [discriminate|]. split; [discriminate|reflexivity].
Qed.

Lemma populate_failure_state_witness :
  (falsy (Some open_font) = true /\
   snd (_populate new_BDF "a.bdf" (Some open_font)) = new_BDF) \/
  (exists s st, Some open_font = Some s /\ populate_pass s = (None, st) /\
     declarationStack st <> [] /\
     snd (_populate new_BDF "a.bdf" (Some open_font))
       = mkBDF (Some (this_meta st)) (Some (this_glyphs st))).
Proof.
  apply (populate_failure_state new_BDF "a.bdf" (Some open_font)
           (ThrowString ("Couldn't correctly parse font at: " ++ "a.bdf"))).
  - vm_compute. reflexivity.
  - constructor.
Defined.

(** ** [_populate]: the glyph table *)

Lemma obj_get_elem_of {V : Type} (k : pkey) (v : V) (o : list (pkey * V)) :
  obj_get k o = Some v -> (k, v) ∈ o.
Proof.
  induction o as [|[k' v'] o IH]; simpl; [discriminate|].
  destruct (decide (k = k')) as [->|Hne].
  - intros [= ->]. apply list_elem_of_here.
  - intros H. apply list_elem_of_further. auto.
Qed.

Lemma obj_set_keyed (k : pkey) (g : Glyph.t) (o : list (pkey * Glyph.t)) :
  k = ToPropertyKey (Glyph.code g) -> keyed_by_code o -> keyed_by_code (obj_set k g o).
Proof.
  intros Hk. unfold keyed_by_code. induction o as [|[k' g'] o IH]; simpl; intros Ho.
  - repeat constructor. exact Hk.
  - inversion_clear Ho as [|? ? Hhd Htl]. destruct (decide (k = k')).
    + constructor; [exact Hk|assumption].
    + constructor; [assumption|auto].
Qed.

(** Only [ENDCHAR] writes to [this.glyphs], under the code of the glyph it
    commits. *)
Lemma declare_keyed (rest : list string) (line : string) (st st' : pstate) (k : nat) :
  declare rest line st = Normal (st', k) ->
  keyed_by_code (this_glyphs st) -> keyed_by_code (this_glyphs st').
Proof.
  unfold declare, with_properties, with_currentChar.
  destruct (mbind keyword_of _) as [[]|]; simpl; destruct_options;
    try (intros [= <- <-]; simpl; auto; fail); try discriminate.
  - destruct (decode_bitmap rest t); simpl; [|discriminate].
    intros [= <- <-]. simpl. auto.
  - intros [= <- <-]. simpl. intros H. apply obj_set_keyed; auto.
Qed.

Lemma read_lines_keyed (fontLines : list string) :
  forall skip st, keyed_by_code (this_glyphs st) ->
                  keyed_by_code (this_glyphs (snd (read_lines fontLines skip st))).
Proof.
  induction fontLines as [|l lines IH]; intros skip st H; simpl; [exact H|].
  destruct skip; [|apply IH; exact H].
  destruct (declare lines l st) as [[st2 k]|x] eqn:Hd; [|exact H].
  apply IH. eapply declare_keyed; eauto.
Qed.

(** C9: after a successful parse every key of [glyphs] is the property key
    of the [code] of the glyph stored under it; under the numeral of [z]
    the glyph has [code = z]. *)
Theorem glyphs_keyed_by_code (this this' : BDF) (path : string) (data : option string)
    (table : list (pkey * Glyph.t)) :
  _populate this path data = (Normal tt, this') ->
  glyphs this' = Some table ->
  forall k g, obj_get k table = Some g ->
    k = ToPropertyKey (Glyph.code g) /\
    (forall z, k = KNum z -> Glyph.code g = Some (Int z)).
Proof.
  intros Hp Ht k g Hg.
  assert (Hk : k = ToPropertyKey (Glyph.code g)); [|split; [exact Hk|]].
  2: { intros z ->. destruct (Glyph.code g) as [[|z']|]; try discriminate.
       now injection Hk as ->. }
  destruct (falsy data) eqn:Hf; [rewrite populate_falsy in Hp by assumption; discriminate|].
  destruct data as [s|]; [|discriminate].
  assert (Hs : s <> EmptyString) by (intros ->; discriminate).
  rewrite populate_truthy in Hp by assumption.
  pose proof (read_lines_keyed (split_on LF s) 0 (mkP Meta.empty [] [] None)) as Hk.
  fold (populate_pass s) in Hk.
  destruct (populate_pass s) as [[e|] st]; simpl in Hp; [discriminate|].
  destruct (declarationStack st); [|discriminate].
  injection Hp as <-. simpl in Ht. injection Ht as <-.
  specialize (Hk (Forall_nil_2 _)). simpl in Hk.
  apply obj_get_elem_of in Hg. unfold keyed_by_code in Hk.
  rewrite Forall_forall in Hk. apply (Hk (k, g) Hg).
Qed.

Lemma glyphs_keyed_by_code_witness :
  KNum 65 = ToPropertyKey (Glyph.code pixel_glyph) /\
  (forall z, KNum 65 = KNum z -> Glyph.code pixel_glyph = Some (Int z)).
Proof.
  apply (glyphs_keyed_by_code new_BDF (loaded pixel_font) "font.bdf" (Some pixel_font)
           [(KNum 65, pixel_glyph)]).
  - vm_compute. reflexivity.
  - vm_compute. reflexivity.
  - vm_compute. reflexivity.
Defined.

(** ** Loops *)

(** A loop whose body succeeds on every state of an invariant succeeds,
    and the invariant holds at the end. *)
Lemma for_from_inv {St : Type} (P : Z -> St -> Prop) (body : Z -> St -> result St) :
  forall count i s,
    P i s ->
    (forall j s, i <= j < i + Z.of_nat count -> P j s ->
                 exists s', body j s = Normal s' /\ P (j + 1) s') ->
    exists s', for_from count i body s = Normal s' /\ P (i + Z.of_nat count) s'.
Proof.
  induction count as [|count IH]; intros i s Hs Hbody.
  - exists s. split; [reflexivity|]. now replace (i + Z.of_nat 0) with i by lia.
  - destruct (Hbody i s) as (s1 & Hb & Hs1); [lia|assumption|].
    destruct (IH (i + 1) s1 Hs1) as (s2 & Hf & Hs2).
    { intros j s' Hj. apply Hbody. lia. }
    exists s2. simpl. rewrite Hb. simpl. split; [exact Hf|].
    now replace (i + Z.of_nat (S count)) with (i + 1 + Z.of_nat count) by lia.
Qed.

Lemma for_lt_inv {St : Type} (P : Z -> St -> Prop) (body : Z -> St -> result St)
    (n : num) (s : St) :
  P 0 s ->
  (forall j s, 0 <= j < Z.of_nat (iterations n) -> P j s ->
               exists s', body j s = Normal s' /\ P (j + 1) s') ->
  exists s', for_lt n body s = Normal s' /\ P (Z.of_nat (iterations n)) s'.
Proof. intros H0 Hb. apply (for_from_inv P body (iterations n) 0 s H0). exact Hb. Qed.

(** [j < n] for a loop variable [j >= 0]. *)
Lemma iterations_lt (n : num) (j : Z) :
  0 <= j -> (j < Z.of_nat (iterations n) <-> num_lt (Int j) n = true).
Proof.
  intros Hj. destruct n as [|z]; simpl.
  - split; [lia|discriminate].
  - rewrite Z.ltb_lt. lia.
Qed.

(** ** [writeText]: the empty text *)

Lemma new_bitmap_spec (height : num) :
  Bitmap.width (new_bitmap height) = Int 0 /\
  Bitmap.height (new_bitmap height) = height /\
  forall r, Bitmap.rows (new_bitmap height) !! r =
            if decide (0 <= r < Z.of_nat (iterations height)) then Some JSArray.empty else None.
Proof.
  unfold new_bitmap. induction (iterations height) as [|n (Hw & Hh & Hr)].
  - repeat split. intros r. simpl. rewrite lookup_empty. case_decide; [lia|reflexivity].
  - rewrite seq_S, foldl_app. simpl. repeat split; [exact Hw|exact Hh|].
    intros r. rewrite lookup_insert. repeat case_decide; try lia; try reflexivity.
    + rewrite Hr. case_decide; [reflexivity|lia].
    + rewrite Hr. case_decide; [lia|reflexivity].
Qed.

(** C8: on a font with a bounding box, [writeText("")] returns a bitmap of
    width 0 and of the height of the font, whose rows, one for each index
    below the height, are empty arrays. *)
Theorem writeText_empty_text (this : BDF) (m : Meta.t) (box : BoundingBox.t) :
  meta this = Some m -> Meta.boundingBox m = Some box ->
  exists b,
    fst (writeText this EmptyString None None) = Normal b /\
    Bitmap.width b = Int 0 /\
    Bitmap.height b = BoundingBox.height box /\
    (forall r, Bitmap.row (Int r) b =
               if (0 <=? r) && num_lt (Int r) (BoundingBox.height box)
               then Some JSArray.empty else None) /\
    (forall r a, Bitmap.row r b = Some a -> JSArray.to_list a = []).
Proof.
  intros Hm Hbox. exists (new_bitmap (BoundingBox.height box)).
  destruct (new_bitmap_spec (BoundingBox.height box)) as (Hw & Hh & Hr).
  assert (Hrow : forall r, Bitmap.row (Int r) (new_bitmap (BoundingBox.height box)) =
               if (0 <=? r) && num_lt (Int r) (BoundingBox.height box)
               then Some JSArray.empty else None).
  { intros r. unfold Bitmap.row. rewrite Hr. case_decide as Hd.
    - destruct Hd as [H0 H1]. apply iterations_lt in H1; [|assumption].
      apply Z.leb_le in H0. now rewrite H0, H1.
    - destruct (0 <=? r) eqn:H0; [|reflexivity]. cbn [andb].
      destruct (num_lt (Int r) (BoundingBox.height box)) eqn:H1; [|reflexivity].
      apply Z.leb_le in H0. apply iterations_lt in H1; [|assumption]. lia. }
  split; [|split; [exact Hw|split; [exact Hh|split; [exact Hrow|]]]].
  - unfold writeText, writeText_on. simpl.
    unfold write_pass, font_boundingBox. rewrite Hm. simpl. rewrite Hbox. simpl. reflexivity.
  - intros [|r] a; simpl; [discriminate|]. fold (Bitmap.row (Int r) (new_bitmap (BoundingBox.height box))).
    rewrite Hrow. destruct (_ && _); [|discriminate]. now intros [= <-].
Qed.

Lemma writeText_empty_text_witness :
  exists b,
    fst (writeText (loaded pixel_font) EmptyString None None) = Normal b /\
    Bitmap.width b = Int 0 /\
    Bitmap.height b = Int 1 /\
    (forall r, Bitmap.row (Int r) b =
               if (0 <=? r) && num_lt (Int r) (Int 1) then Some JSArray.empty else None) /\
    (forall r a, Bitmap.row r b = Some a -> JSArray.to_list a = []).
Proof.
  apply (writeText_empty_text (loaded pixel_font)
           (Meta.mk (Some "2.1") (Some "sample") (Some (Size.mk (Int 1) (Int 75) (Int 75)))
              (Some (BoundingBox.mk (Int 0) (Int 0) (Int 1) (Int 1)))
              (Some (Properties.mk None None (Some (Int 65)))) (Some (Int 1)))
           (BoundingBox.mk (Int 0) (Int 0) (Int 1) (Int 1))).
  - vm_compute. reflexivity.
  - reflexivity.
Defined.

(** ** [writeText]: the recursion on [textRepeat] *)

(** The equation of the source: after its pass over the text, a call with
    [textRepeat > 0] decrements [options.textRepeat] and calls itself on the
    same options object and bitmap. *)
Lemma writeText_on_unfold (this : BDF) (text : string) (opts : options)
    (_bitmap : option Bitmap.t) :
  writeText_on this text opts _bitmap =
    match write_pass this text opts _bitmap with
    | Throw e => (Throw e, opts)
    | Normal b =>
        if num_lt (Int 0) (or_zero (textRepeat opts))
        then writeText_on this text (decrement_textRepeat opts) (Some b)
        else (Normal b, opts)
    end.
Proof.
  unfold writeText_on.
  destruct (num_lt (Int 0) (or_zero (textRepeat opts))) eqn:Hlt.
  - destruct (textRepeat opts) as [[|n]|] eqn:Hn; simpl in Hlt; try discriminate.
    apply Z.ltb_lt in Hlt. cbn [or_zero iterations].
    destruct (Z.to_nat n) as [|k] eqn:Hk; [lia|].
    cbn [writeText_calls]. rewrite Hn. cbn [or_zero num_lt].
    destruct (write_pass this text opts _bitmap); [|reflexivity].
    replace (0 <? n) with true by (symmetry; apply Z.ltb_lt; lia).
    unfold decrement_textRepeat. rewrite Hn. cbn [ToNumber num_sub textRepeat or_zero iterations].
    replace (Z.to_nat (n - 1)) with k by lia. reflexivity.
  - destruct (iterations (or_zero (textRepeat opts))); cbn [writeText_calls];
      rewrite Hlt; reflexivity.
Qed.

Lemma writeText_on_final (this : BDF) (text : string) :
  forall k n opts _bitmap b opts',
    k = Z.to_nat n -> 0 <= n -> textRepeat opts = Some (Int n) ->
    writeText_on this text opts _bitmap = (Normal b, opts') ->
    opts' = mkOptions (Some (Int 0)) (kerningBias opts).
Proof.
  induction k as [|k IH]; intros n opts _bitmap b opts' Hk Hn Ht;
    rewrite writeText_on_unfold; destruct (write_pass this text opts _bitmap) as [b1|];
    try discriminate; rewrite Ht; cbn [or_zero num_lt].
  - replace n with 0 in * by lia. simpl. intros [= <- <-]. destruct opts; simpl in *; congruence.
  - replace (0 <? n) with true by (symmetry; apply Z.ltb_lt; lia).
    intros H. apply (IH (n - 1)) in H; [exact H|lia|lia|].
    unfold decrement_textRepeat. now rewrite Ht.
Qed.

Lemma writeText_Some (this : BDF) (text : string) (opts : options)
    (_bitmap : option Bitmap.t) :
  writeText this text (Some opts) _bitmap = writeText_on this text opts _bitmap.
Proof. reflexivity. Qed.

(** C10: with [textRepeat = n > 0] a call decrements [options.textRepeat]
    on the caller's options object and calls itself on that same object;
    when [writeText] returns, the object holds [textRepeat = 0], no longer
    the value passed in. *)
Theorem writeText_mutates_options (this : BDF) (text : string) (opts : options) (n : Z)
    (_bitmap : option Bitmap.t) :
  textRepeat opts = Some (Int n) -> 0 < n ->
  writeText this text (Some opts) _bitmap =
    match write_pass this text opts _bitmap with
    | Throw e => (Throw e, opts)
    | Normal b =>
        writeText this text (Some (mkOptions (Some (Int (n - 1))) (kerningBias opts))) (Some b)
    end /\
  forall b opts',
    writeText this text (Some opts) _bitmap = (Normal b, opts') ->
    textRepeat opts' = Some (Int 0) /\ kerningBias opts' = kerningBias opts /\ opts' <> opts.
Proof.
  intros Ht Hn. rewrite !writeText_Some. split.
  - rewrite writeText_on_unfold. destruct (write_pass this text opts _bitmap); [|reflexivity].
    rewrite Ht. cbn [or_zero num_lt].
    replace (0 <? n) with true by (symmetry; apply Z.ltb_lt; lia).
    unfold decrement_textRepeat. now rewrite Ht.
  - intros b opts' H. apply (writeText_on_final this text (Z.to_nat n) n) in H;
      [|reflexivity|lia|exact Ht].
    subst opts'. simpl. repeat split. intros Heq. rewrite <- Heq in Ht. simpl in Ht.
    injection Ht as Ht. lia.
Qed.

Lemma writeText_mutates_options_witness :
  snd (writeText (loaded pixel_font) "A" (Some (mkOptions (Some (Int 3)) None)) None)
    = mkOptions (Some (Int 0)) None.
Proof.
  destruct (writeText_mutates_options (loaded pixel_font) "A"
              (mkOptions (Some (Int 3)) None) 3 None) as [_ H]; [reflexivity|lia|].
  destruct (writeText (loaded pixel_font) "A" (Some (mkOptions (Some (Int 3)) None)) None)
    as [[b|e] opts'] eqn:Hw.
  - destruct (H b opts' eq_refl) as (H1 & H2 & _). destruct opts'. simpl in *. congruence.
  - vm_compute in Hw. discriminate.
Defined.

(** ** [_populate]: the [BITMAP] case *)

Lemma array_set_end {A : Type} (a : list A) (v : A) :
  array_set a (Z.of_nat (length a)) v = a ++ [v].
Proof. unfold array_set. now rewrite Z.ltb_irrefl. Qed.

Lemma array_set_inside {A : Type} (a : list A) (i : nat) (v : A) :
  (i < length a)%nat -> array_set a (Z.of_nat i) v = <[i := v]> a.
Proof.
  intros H. unfold array_set. rewrite Nat2Z.id.
  now replace (Z.of_nat i <? Z.of_nat (length a)) with true by (symmetry; apply Z.ltb_lt; lia).
Qed.

(** Writing the next bit of the last row. *)
Lemma set_bitmap_cell_next (c : Glyph.t) (above : list (list Z)) (r : list Z) (v : Z) :
  Glyph.bitmap c = above ++ [r] ->
  set_bitmap_cell (Z.of_nat (length above)) (Z.of_nat (length r)) v c
    = Normal (Glyph.set_bitmap (above ++ [r ++ [v]]) c).
Proof.
  intros Hb. unfold set_bitmap_cell. rewrite Hb, Nat2Z.id.
  rewrite list_lookup_middle by reflexivity.
  rewrite array_set_end, array_set_inside by (rewrite length_app; simpl; lia).
  rewrite insert_app_r_alt by lia. now rewrite Nat.sub_diag.
Qed.

Lemma decode_byte_spec (line : string) (c : Glyph.t) (above : list (list Z)) (r : list Z)
    (byteIndex : nat) :
  Glyph.bitmap c = above ++ [r] -> length r = (8 * byteIndex)%nat ->
  let byte := parseInt16 (substr line (Z.of_nat byteIndex * 2) 2) in
  decode_byte (Some line) (Z.of_nat (length above)) (Z.of_nat byteIndex) c
    = Normal (Glyph.set_bitmap (above ++ [r ++ byte_bits byte])
                (Glyph.set_bytes (Glyph.bytes c ++ [byte]) c)).
Proof.
  intros Hb Hr byte. unfold decode_byte. fold byte.
  set (c1 := Glyph.set_bytes (Glyph.bytes c ++ [byte]) c).
  assert (Hstep : forall (bits : list Z) (k : Z) (v : Z),
             Z.of_nat byteIndex * 8 + k = Z.of_nat (length (r ++ bits)) ->
             set_bitmap_cell (Z.of_nat (length above)) (Z.of_nat byteIndex * 8 + k) v
               (Glyph.set_bitmap (above ++ [r ++ bits]) c1)
             = Normal (Glyph.set_bitmap (above ++ [r ++ (bits ++ [v])]) c1)).
  { intros bits k v Hk. rewrite Hk, app_assoc.
    now rewrite (set_bitmap_cell_next _ above (r ++ bits) v) by reflexivity. }
  assert (H0 : c1 = Glyph.set_bitmap (above ++ [r ++ []]) c1).
  { rewrite app_nil_r. unfold c1. destruct c; simpl in *. now subst. }
  cbn [foldl]. rewrite H0 at 1. cbn [mbind result_bind].
  rewrite (Hstep [] (7 - 7)) by (rewrite app_nil_r; lia). cbn [app mbind result_bind].
  rewrite (Hstep [_] (7 - 6)) by (rewrite length_app; simpl; lia). cbn [app mbind result_bind].
  rewrite (Hstep [_; _] (7 - 5)) by (rewrite length_app; simpl; lia). cbn [app mbind result_bind].
  rewrite (Hstep [_; _; _] (7 - 4)) by (rewrite length_app; simpl; lia). cbn [app mbind result_bind].
  rewrite (Hstep [_; _; _; _] (7 - 3)) by (rewrite length_app; simpl; lia). cbn [app mbind result_bind].
  rewrite (Hstep [_; _; _; _; _] (7 - 2)) by (rewrite length_app; simpl; lia). cbn [app mbind result_bind].
  rewrite (Hstep [_; _; _; _; _; _] (7 - 1)) by (rewrite length_app; simpl; lia). cbn [app mbind result_bind].
  rewrite (Hstep [_; _; _; _; _; _; _] (7 - 0)) by (rewrite length_app; simpl; lia).
  cbn [app mbind result_bind].
  reflexivity.
Qed.

Lemma row_bytes_S (n : nat) (line : string) :
  row_bytes (S n) line = row_bytes n line ++ [parseInt16 (substr line (Z.of_nat n * 2) 2)].
Proof. unfold row_bytes. now rewrite seq_S, List.map_app. Qed.

Lemma row_bits_S (n : nat) (line : string) :
  row_bits (S n) line
    = row_bits n line ++ byte_bits (parseInt16 (substr line (Z.of_nat n * 2) 2)).
Proof.
  unfold row_bits. rewrite row_bytes_S, List.map_app, List.concat_app.
  cbn [map concat]. now rewrite app_nil_r.
Qed.

Lemma length_row_bytes (n : nat) (line : string) : length (row_bytes n line) = n.
Proof. unfold row_bytes. now rewrite List.length_map, List.length_seq. Qed.

Lemma length_row_bits (n : nat) (line : string) : length (row_bits n line) = (8 * n)%nat.
Proof.
  induction n as [|n IH]; [reflexivity|].
  rewrite row_bits_S, List.length_app, IH. simpl. lia.
Qed.

Lemma glyph_set_set (c : Glyph.t) (b1 b2 : list (list Z)) (y1 y2 : list num) :
  Glyph.set_bitmap b2 (Glyph.set_bytes y2 (Glyph.set_bitmap b1 (Glyph.set_bytes y1 c)))
    = Glyph.set_bitmap b2 (Glyph.set_bytes y2 c).
Proof. reflexivity. Qed.

(** A row of the bitmap: [bytesPerLine] bytes are pushed, and the row
    appended to [bitmap] holds all the bits of these bytes. *)
Lemma decode_row_spec (rest : list string) (line : string) (c : Glyph.t) (row : nat)
    (bytesPerLine : Z) :
  rest !! row = Some line -> length (Glyph.bitmap c) = row ->
  decode_row rest (Int bytesPerLine) (Z.of_nat row) c
    = Normal (Glyph.set_bitmap (Glyph.bitmap c ++ [row_bits (Z.to_nat bytesPerLine) line])
                (Glyph.set_bytes (Glyph.bytes c ++ row_bytes (Z.to_nat bytesPerLine) line) c)).
Proof.
  intros Hline Hrow. unfold decode_row. rewrite Nat2Z.id, Hline, <- Hrow, array_set_end.
  destruct (for_lt_inv
              (fun j c' => c' = Glyph.set_bitmap (Glyph.bitmap c ++ [row_bits (Z.to_nat j) line])
                                  (Glyph.set_bytes (Glyph.bytes c ++ row_bytes (Z.to_nat j) line) c))
              (decode_byte (Some line) (Z.of_nat (length (Glyph.bitmap c))))
              (Int bytesPerLine)
              (Glyph.set_bitmap (Glyph.bitmap c ++ [[]]) c)) as (c' & Hc' & HP).
  - simpl. rewrite app_nil_r. destruct c; reflexivity.
  - intros j c' Hj ->. eexists. split.
    + replace j with (Z.of_nat (Z.to_nat j)) at 1 by lia.
      apply decode_byte_spec with (r := row_bits (Z.to_nat j) line); [reflexivity|].
      apply length_row_bits.
    + replace (Z.to_nat (j + 1)) with (S (Z.to_nat j)) by lia.
      rewrite row_bits_S, row_bytes_S. simpl. now rewrite <- app_assoc.
  - rewrite Hc'. f_equal. rewrite HP. simpl. now rewrite Nat2Z.id.
Qed.

(** The [BITMAP] case on a glyph fresh from [STARTCHAR] apart from its
    metrics, followed by the rows that its bounding box announces. *)
Lemma decode_bitmap_spec (rows tail : list string) (c : Glyph.t) (box : BoundingBox.t)
    (w h : Z) :
  Glyph.bytes c = [] -> Glyph.bitmap c = [] ->
  Glyph.boundingBox c = Some box ->
  BoundingBox.width box = Int w -> BoundingBox.height box = Int h ->
  0 <= w -> Z.of_nat (length rows) = h ->
  decode_bitmap (rows ++ tail) c
    = Normal (Glyph.set_bitmap (map (row_bits (Z.to_nat ((w + 7) / 8))) rows)
                (Glyph.set_bytes (concat (map (row_bytes (Z.to_nat ((w + 7) / 8))) rows)) c)).
Proof.
  intros Hbytes Hbitmap Hbox Hw Hh Hw0 Hrows. unfold decode_bitmap.
  rewrite Hbox, Hw, Hh. cbn [Math_ceil_div8].
  set (n := Z.to_nat ((w + 7) / 8)).
  destruct (for_lt_inv
              (fun j c' => c' = Glyph.set_bitmap (map (row_bits n) (take (Z.to_nat j) rows))
                                  (Glyph.set_bytes
                                     (concat (map (row_bytes n) (take (Z.to_nat j) rows))) c))
              (decode_row (rows ++ tail) (Int ((w + 7) / 8))) (Int h) c) as (c' & Hc' & HP).
  - simpl. destruct c; simpl in *. now subst.
  - intros j c' Hj ->. simpl in Hj.
    destruct (rows !! Z.to_nat j) as [line|] eqn:Hline.
    2: { apply lookup_ge_None in Hline. lia. }
    eexists. split.
    + replace j with (Z.of_nat (Z.to_nat j)) at 1 by lia.
      apply decode_row_spec with (line := line).
      * now apply lookup_app_l_Some.
      * simpl. rewrite List.length_map, length_take. apply lookup_lt_Some in Hline. lia.
    + replace (Z.to_nat (j + 1)) with (S (Z.to_nat j)) by lia.
      rewrite (take_S_r _ _ _ Hline), !List.map_app, List.concat_app. simpl.
      fold n. now rewrite app_nil_r.
  - rewrite Hc', HP. cbn [iterations]. rewrite <- Hrows, !Nat2Z.id, firstn_all. reflexivity.
Qed.

Lemma declare_BITMAP (rest : list string) (st : pstate) :
  declare rest "BITMAP" st =
    match currentChar st with
    | None => Throw TypeError
    | Some c =>
        c' ← decode_bitmap rest c;
        Normal (set_currentChar (Some c') st,
                iterations (ToNumber (BoundingBox.height <$> Glyph.boundingBox c)))
    end.
Proof. reflexivity. Qed.

Lemma declare_ENDCHAR (rest : list string) (st : pstate) :
  declare rest "ENDCHAR" st =
    match currentChar st with
    | None => Throw TypeError
    | Some c =>
        Normal (set_currentChar None
                  (set_glyphs (obj_set (ToPropertyKey (Glyph.code c)) c (this_glyphs st))
                     (pop st)), 0%nat)
    end.
Proof. reflexivity. Qed.

(** The lines that [BITMAP] has read are passed over. *)
Lemma read_lines_skip (rows fontLines : list string) (st : pstate) :
  read_lines (rows ++ fontLines) (length rows) st = read_lines fontLines 0 st.
Proof. induction rows as [|r rows IH]; [reflexivity|exact IH]. Qed.

Lemma obj_get_set {V : Type} (k : pkey) (v : V) (o : list (pkey * V)) :
  obj_get k (obj_set k v o) = Some v.
Proof.
  induction o as [|[k' v'] o IH]; simpl.
  - now rewrite decide_True.
  - destruct (decide (k = k')) as [->|Hne]; simpl.
    + now rewrite decide_True.
    + now rewrite decide_False.
Qed.

Lemma length_concat_row_bytes (n : nat) (rows : list string) :
  length (concat (map (row_bytes n) rows)) = (n * length rows)%nat.
Proof.
  induction rows as [|r rows IH]; simpl; [lia|].
  rewrite List.length_app, length_row_bytes, IH. lia.
Qed.

(** C2, as stated, fails: the glyph of width 4 parsed from the row [40] has
    a row of eight bits, the four padding bits of the byte included; and
    the glyph of [reboxed_font], of height 2 by the bounding box it ends
    with, has the one byte and the one row that its [BITMAP] has read. *)
Lemma narrow_glyph_not_truncated :
  (exists g,
     fst (_populate new_BDF "font.bdf" (Some narrow_font)) = Normal tt /\
     glyph_of (loaded narrow_font) 65 = Some g /\
     Glyph.bitmap g = [[0; 1; 0; 0; 0; 0; 0; 0]] /\
     ~ matches_bounding_box g) /\
  (exists g,
     fst (_populate new_BDF "font.bdf" (Some reboxed_font)) = Normal tt /\
     glyph_of (loaded reboxed_font) 65 = Some g /\
     Glyph.bytes g = [Int 128] /\
     Glyph.boundingBox g = Some (BoundingBox.mk (Int 0) (Int 0) (Int 8) (Int 2)) /\
     ~ matches_bounding_box g).
Proof.
  split.
  - eexists. split; [vm_compute; reflexivity|]. split; [vm_compute; reflexivity|].
    split; [reflexivity|].
    intros (box & w & h & Hb & Hw & Hh & _ & _ & Hrows).
    injection Hb as <-. injection Hw as <-.
    inversion Hrows as [|? ? Hlen _]. simpl in Hlen. lia.
  - eexists. split; [vm_compute; reflexivity|]. split; [vm_compute; reflexivity|].
    split; [reflexivity|]. split; [reflexivity|].
    intros (box & w & h & Hb & Hw & Hh & Hbytes & _).
    injection Hb as <-. injection Hw as <-. injection Hh as <-.
    vm_compute in Hbytes. discriminate.
Qed.

(** C2, amended: a [BITMAP] declaration met on a glyph whose [bytes] and
    [bitmap] are still empty and whose bounding box has width [w >= 0] and
    height [h], followed by [h] rows and [ENDCHAR], commits a glyph with
    [ceil(w / 8) * h] bytes and [h] rows of bits; each row holds the bits of
    [ceil(w / 8)] whole bytes, most significant first, and so has
    [8 * ceil(w / 8)] entries: the rows are not truncated to [w]. *)
Theorem bitmap_block_decoded (st : pstate) (c : Glyph.t) (box : BoundingBox.t) (w h : Z)
    (rows more : list string) :
  currentChar st = Some c -> Glyph.bytes c = [] -> Glyph.bitmap c = [] ->
  Glyph.boundingBox c = Some box ->
  BoundingBox.width box = Int w -> BoundingBox.height box = Int h ->
  0 <= w -> Z.of_nat (length rows) = h ->
  exists g st',
    read_lines ("BITMAP" :: rows ++ "ENDCHAR" :: more) 0 st = read_lines more 0 st' /\
    obj_get (ToPropertyKey (Glyph.code c)) (this_glyphs st') = Some g /\
    Glyph.boundingBox g = Some box /\
    Glyph.bytes g = concat (map (row_bytes (Z.to_nat ((w + 7) / 8))) rows) /\
    Glyph.bitmap g = map (row_bits (Z.to_nat ((w + 7) / 8))) rows /\
    Z.of_nat (length (Glyph.bytes g)) = (w + 7) / 8 * h /\
    Z.of_nat (length (Glyph.bitmap g)) = h /\
    Forall (fun row => Z.of_nat (length row) = 8 * ((w + 7) / 8)) (Glyph.bitmap g).
Proof.
  intros Hc Hbytes Hbitmap Hbox Hw Hh Hw0 Hrows.
  set (n := Z.to_nat ((w + 7) / 8)).
  assert (Hn : Z.of_nat n = (w + 7) / 8).
  { unfold n. apply Z2Nat.id. apply Z.div_pos; lia. }
  set (g := Glyph.set_bitmap (map (row_bits n) rows)
              (Glyph.set_bytes (concat (map (row_bytes n) rows)) c)).
  exists g. eexists. split; [|split; [|split; [|split; [|split; [|split; [|split]]]]]].
  - cbn [read_lines]. rewrite declare_BITMAP, Hc.
    rewrite (decode_bitmap_spec rows ("ENDCHAR" :: more) c box w h) by assumption.
    fold n. fold g. cbn [mbind result_bind]. rewrite Hbox. cbn [fmap option_fmap option_map].
    rewrite Hh. cbn [ToNumber iterations]. rewrite <- Hrows, Nat2Z.id, read_lines_skip.
    cbn [read_lines]. rewrite declare_ENDCHAR. cbn [currentChar set_currentChar].
    reflexivity.
  - cbn [this_glyphs set_currentChar set_glyphs].
    replace (Glyph.code c) with (Glyph.code g) by reflexivity. apply obj_get_set.
  - exact Hbox.
  - reflexivity.
  - reflexivity.
  - cbn [g Glyph.bytes Glyph.set_bitmap Glyph.set_bytes].
    rewrite length_concat_row_bytes. lia.
  - cbn [g Glyph.bitmap Glyph.set_bitmap]. rewrite List.length_map. exact Hrows.
  - cbn [g Glyph.bitmap Glyph.set_bitmap]. apply Forall_forall. intros row Hrow.
    apply list_elem_of_In, in_map_iff in Hrow. destruct Hrow as (line & <- & _).
    rewrite length_row_bits. lia.
Qed.

(** The state in which [_populate] reaches the [BITMAP] line of
    [narrow_font]. *)
Lemma narrow_state_reached :
  read_lines (take 13 (split_on LF narrow_font)) 0 (mkP Meta.empty [] [] None)
    = (None, narrow_state).
Proof. vm_compute. reflexivity. Qed.

Lemma bitmap_block_decoded_witness :
  exists g st',
    read_lines ("BITMAP" :: ["40"] ++ "ENDCHAR" :: []) 0 narrow_state
      = read_lines [] 0 st' /\
    obj_get (KNum 65) (this_glyphs st') = Some g /\
    Glyph.boundingBox g = Some (BoundingBox.mk (Int 0) (Int 0) (Int 4) (Int 1)) /\
    Glyph.bytes g = [Int 64] /\
    Glyph.bitmap g = [[0; 1; 0; 0; 0; 0; 0; 0]] /\
    Z.of_nat (length (Glyph.bytes g)) = (4 + 7) / 8 * 1 /\
    Z.of_nat (length (Glyph.bitmap g)) = 1 /\
    Forall (fun row => Z.of_nat (length row) = 8 * ((4 + 7) / 8)) (Glyph.bitmap g).
Proof.
  exact (bitmap_block_decoded narrow_state narrow_glyph
           (BoundingBox.mk (Int 0) (Int 0) (Int 4) (Int 1)) 4 1 ["40"] []
           eq_refl eq_refl eq_refl eq_refl eq_refl eq_refl ltac:(lia) eq_refl).
Defined.

(** ** [writeText]: writes to the bitmap *)

Lemma same_frame_refl (b : Bitmap.t) : same_frame b b.
Proof. repeat split; auto. Qed.

Lemma same_frame_trans (b1 b2 b3 : Bitmap.t) :
  same_frame b1 b2 -> same_frame b2 b3 -> same_frame b1 b3.
Proof.
  intros (Hw & Hh & Hr) (Hw' & Hh' & Hr'). repeat split; try congruence.
  - intros H. apply Hr, Hr', H.
  - intros H. apply Hr', Hr, H.
Qed.

Lemma set_row_frame (b : Bitmap.t) (r : Z) (a a' : JSArray.t) :
  Bitmap.rows b !! r = Some a -> same_frame b (Bitmap.set_row r a' b).
Proof.
  intros Ha. repeat split; simpl; auto; rewrite lookup_insert; case_decide; subst; eauto.
Qed.

Lemma cell_set_row (b : Bitmap.t) (r r' : Z) (k c : num) (v : Z) (a : JSArray.t) :
  Bitmap.rows b !! r = Some a ->
  cell (Bitmap.set_row r (JSArray.set k v a) b) r' c
    = if decide (r' = r /\ c = k) then Some v else cell b r' c.
Proof.
  intros Ha. unfold cell, Bitmap.set_row, JSArray.get, JSArray.set. simpl.
  rewrite lookup_insert. destruct (decide (r = r')) as [<-|Hr]; simpl.
  - rewrite lookup_insert, Ha. simpl.
    destruct (decide (k = c)) as [<-|Hk].
    + now rewrite decide_True.
    + rewrite decide_False; [reflexivity|]. intros [_ ?]. congruence.
  - rewrite decide_False; [reflexivity|]. intros [? _]. congruence.
Qed.

(** [_bitmap[row][column] = 0] on an existing row. *)
Lemma clear_cell_spec (b : Bitmap.t) (r : Z) (column : num) :
  is_Some (Bitmap.rows b !! r) ->
  exists b', clear_cell (Int r) column b = Normal b' /\ same_frame b b' /\
    forall r' c, cell b' r' c = if decide (r' = r /\ c = column) then Some 0 else cell b r' c.
Proof.
  intros [a Ha]. unfold clear_cell. simpl. rewrite Ha. eexists. split; [reflexivity|].
  split; [eapply set_row_frame; eauto|]. intros r' c. now apply cell_set_row.
Qed.

(** [_bitmap[row][column] |= v] on an existing row, whatever the column. *)
Lemma or_cell_spec (b : Bitmap.t) (r : Z) (column : num) (v : option Z) :
  is_Some (Bitmap.rows b !! r) ->
  exists b', or_cell (Int r) column v b = Normal b' /\ same_frame b b' /\
    forall r' c, cell b' r' c =
                 if decide (r' = r /\ c = column)
                 then Some (Z.lor (default 0 (cell b r column)) (default 0 v))
                 else cell b r' c.
Proof.
  intros [a Ha]. unfold or_cell. simpl. rewrite Ha. eexists. split; [reflexivity|].
  split; [eapply set_row_frame; eauto|]. intros r' c.
  rewrite cell_set_row by exact Ha. unfold cell. rewrite Ha. reflexivity.
Qed.

(** A write to a missing row throws. *)
Lemma or_cell_Normal (b b' : Bitmap.t) (row column : num) (v : option Z) :
  or_cell row column v b = Normal b' ->
  exists r, row = Int r /\ is_Some (Bitmap.rows b !! r) /\ same_frame b b'.
Proof.
  unfold or_cell. destruct row as [|r]; [discriminate|]. simpl.
  destruct (Bitmap.rows b !! r) as [a|] eqn:Ha; [|discriminate].
  intros [= <-]. exists r. split; [reflexivity|]. split; [eauto|].
  eapply set_row_frame; eauto.
Qed.

Lemma clear_cell_Normal (b b' : Bitmap.t) (row column : num) :
  clear_cell row column b = Normal b' -> same_frame b b'.
Proof.
  unfold clear_cell. destruct row as [|r]; [discriminate|]. simpl.
  destruct (Bitmap.rows b !! r) as [a|] eqn:Ha; [|discriminate].
  intros [= <-]. eapply set_row_frame; eauto.
Qed.

(** What a loop preserves at each turn, it preserves. *)
Lemma for_from_preserves {St : Type} (Q : St -> Prop) (body : Z -> St -> result St) :
  (forall j s s', Q s -> body j s = Normal s' -> Q s') ->
  forall count i s s', Q s -> for_from count i body s = Normal s' -> Q s'.
Proof.
  intros Hbody count. induction count as [|count IH]; intros i s s' Hs; simpl.
  - now intros [= <-].
  - destruct (body i s) as [s1|] eqn:Hb; simpl; [|discriminate].
    apply IH. eapply Hbody; eauto.
Qed.

(** A loop that ends has run its body at each index, on a state that the
    turns before have preserved. *)
Lemma for_from_reaches {St : Type} (Q : St -> Prop) (body : Z -> St -> result St) :
  (forall j s s', Q s -> body j s = Normal s' -> Q s') ->
  forall count i s s', Q s -> for_from count i body s = Normal s' ->
  forall j, i <= j < i + Z.of_nat count ->
  exists sj sj', Q sj /\ body j sj = Normal sj'.
Proof.
  intros Hbody count. induction count as [|count IH]; intros i s s' Hs; simpl.
  - intros _ j Hj. lia.
  - destruct (body i s) as [s1|] eqn:Hb; simpl; [|discriminate].
    intros Hf j Hj. destruct (decide (j = i)) as [->|Hne].
    + eauto.
    + apply (IH (i + 1) s1 s'); [eapply Hbody; eauto|exact Hf|lia].
Qed.

Lemma extend_frame (height columnsToAdd : num) (b b' : Bitmap.t) :
  extend height columnsToAdd b = Normal b' -> same_frame b b'.
Proof.
  unfold extend, for_lt. apply (for_from_preserves (same_frame b)); [|apply same_frame_refl].
  intros row b1 b2 H1. apply (for_from_preserves (same_frame b)); [|exact H1].
  intros j b3 b4 H3 Hc. apply clear_cell_Normal in Hc. eapply same_frame_trans; eauto.
Qed.

Lemma draw_frame (g : Glyph.t) (box : BoundingBox.t) (rowStart xpos : num) (b b' : Bitmap.t) :
  draw g box rowStart xpos b = Normal b' -> same_frame b b'.
Proof.
  unfold draw, for_lt. apply (for_from_preserves (same_frame b)); [|apply same_frame_refl].
  intros y b1 b2 H1. apply (for_from_preserves (same_frame b)); [|exact H1].
  intros x b3 b4 H3. destruct (glyph_bit g y x); simpl; [|discriminate].
  intros Hc. apply or_cell_Normal in Hc. destruct Hc as (r & _ & _ & Hc).
  eapply same_frame_trans; eauto.
Qed.

Lemma written_true (R0 C0 w y x r : Z) (c : num) :
  written R0 C0 w y x r c = true <->
  exists cc, c = Int cc /\ R0 <= r /\ C0 <= cc < C0 + w /\
             (r < R0 + y \/ (r = R0 + y /\ cc < C0 + x)).
Proof.
  destruct c as [|cc]; simpl.
  - split; [discriminate|]. intros (cc & Hc & _). discriminate.
  - rewrite !andb_true_iff, orb_true_iff, andb_true_iff, !Z.leb_le, !Z.ltb_lt, Z.eqb_eq.
    split.
    + intros H. exists cc. split; [reflexivity|]. lia.
    + intros (cc' & [= <-] & H). lia.
Qed.

Lemma written_ext (R0 C0 w y x y' x' r : Z) (c : num) :
  (forall cc, c = Int cc -> R0 <= r -> C0 <= cc < C0 + w ->
     (r < R0 + y \/ (r = R0 + y /\ cc < C0 + x)) <->
     (r < R0 + y' \/ (r = R0 + y' /\ cc < C0 + x'))) ->
  written R0 C0 w y x r c = written R0 C0 w y' x' r c.
Proof.
  intros H. apply eq_true_iff_eq. rewrite !written_true. split.
  - intros (cc & Hc & Hr & Hcc & Hd). exists cc. repeat split; try tauto. now apply (H cc).
  - intros (cc & Hc & Hr & Hcc & Hd). exists cc. repeat split; try tauto. now apply (H cc).
Qed.

(** Two nested loops of which each turn writes one cell, row after row and
    column after column: the cells of the box are written, each from the
    value it had before the loops, and nothing else changes. *)
Lemma nested_writes (upd : Z -> Z -> Bitmap.t -> result Bitmap.t)
    (F : Z -> Z -> option Z -> Z) (R0 C0 : Z) (h w : num) (b0 : Bitmap.t) :
  (forall y x b,
     0 <= y < Z.of_nat (iterations h) -> 0 <= x < Z.of_nat (iterations w) ->
     same_frame b0 b ->
     exists b', upd y x b = Normal b' /\ same_frame b b' /\
       forall r c, cell b' r c =
                   if decide (r = R0 + y /\ c = Int (C0 + x))
                   then Some (F y x (cell b r c)) else cell b r c) ->
  exists b',
    for_lt h (fun y b => for_lt w (fun x b => upd y x b) b) b0 = Normal b' /\
    same_frame b0 b' /\
    forall r c, cell b' r c =
                match c with
                | Int cc =>
                    if written R0 C0 (Z.of_nat (iterations w)) (Z.of_nat (iterations h)) 0 r c
                    then Some (F (r - R0) (cc - C0) (cell b0 r c)) else cell b0 r c
                | NaN => cell b0 r c
                end.
Proof.
  intros Hupd.
  set (W := Z.of_nat (iterations w)).
  set (inv := fun (y x : Z) (b : Bitmap.t) =>
                same_frame b0 b /\
                forall r c, cell b r c =
                  match c with
                  | Int cc => if written R0 C0 W y x r c
                              then Some (F (r - R0) (cc - C0) (cell b0 r c)) else cell b0 r c
                  | NaN => cell b0 r c
                  end).
  destruct (for_lt_inv (fun y b => inv y 0 b)
              (fun y b => for_lt w (fun x b => upd y x b) b) h b0) as (b' & Hb' & Hf & Hc).
  - split; [apply same_frame_refl|]. intros r [|cc]; [reflexivity|].
    replace (written R0 C0 W 0 0 r (Int cc)) with false; [reflexivity|].
    symmetry. apply not_true_is_false. rewrite written_true. intros (? & [= <-] & H). lia.
  - intros y b Hy Hinv.
    destruct (for_lt_inv (fun x b => inv y x b) (fun x b => upd y x b) w b)
      as (b1 & Hb1 & Hf1 & Hc1).
    + exact Hinv.
    + intros x b1 Hx [Hf1 Hc1].
      destruct (Hupd y x b1 Hy Hx Hf1) as (b2 & Hb2 & Hf2 & Hc2).
      exists b2. split; [exact Hb2|]. split; [eapply same_frame_trans; eauto|].
      intros r c. rewrite Hc2. case_decide as Hd.
      * destruct Hd as [-> ->]. rewrite Hc1.
        replace (written R0 C0 W y x (R0 + y) (Int (C0 + x))) with false.
        2: { symmetry. apply not_true_is_false. rewrite written_true.
             intros (? & [= <-] & H). lia. }
        replace (written R0 C0 W y (x + 1) (R0 + y) (Int (C0 + x))) with true.
        2: { symmetry. rewrite written_true. exists (C0 + x).
             split; [reflexivity|]. unfold W. lia. }
        do 2 f_equal; lia.
      * rewrite Hc1. destruct c as [|cc]; [reflexivity|].
        replace (written R0 C0 W y (x + 1) r (Int cc)) with (written R0 C0 W y x r (Int cc));
          [reflexivity|].
        apply written_ext. intros cc' [= <-] Hr Hcc.
        assert (~ (r = R0 + y /\ cc = C0 + x)) by (intros [-> ->]; tauto). lia.
    + exists b1. split; [exact Hb1|]. split; [exact Hf1|].
      intros r c. rewrite Hc1. destruct c as [|cc]; [reflexivity|].
      replace (written R0 C0 W (y + 1) 0 r (Int cc))
        with (written R0 C0 W y (Z.of_nat (iterations w)) r (Int cc)); [reflexivity|].
      apply written_ext. intros cc' [= <-] Hr Hcc. unfold W in Hcc. lia.
  - exists b'. split; [exact Hb'|]. split; [exact Hf|exact Hc].
Qed.

(** The zeros that [extend] appends: [n] columns from the column [W] on,
    in the rows below [height]. *)
Lemma extend_spec (height : num) (n W : Z) (b : Bitmap.t) :
  Bitmap.width b = Int W ->
  (forall r, 0 <= r < Z.of_nat (iterations height) -> is_Some (Bitmap.rows b !! r)) ->
  exists b',
    extend height (Int n) b = Normal b' /\ same_frame b b' /\
    forall r c, cell b' r c =
                match c with
                | Int cc =>
                    if written 0 W (Z.of_nat (Z.to_nat n)) (Z.of_nat (iterations height)) 0 r c
                    then Some 0 else cell b r c
                | NaN => cell b r c
                end.
Proof.
  intros Hw Hrows. unfold extend.
  apply (nested_writes
           (fun row glyphColumn b =>
              clear_cell (Int row) (num_add (Int glyphColumn) (Bitmap.width b)) b)
           (fun _ _ _ => 0) 0 W height (Int n) b).
  intros y x b1 Hy Hx Hf.
  destruct (clear_cell_spec b1 y (num_add (Int x) (Bitmap.width b1))) as (b2 & Hb2 & Hf2 & Hc2).
  { apply Hf. apply Hrows. exact Hy. }
  exists b2. split; [exact Hb2|]. split; [exact Hf2|].
  intros r c. rewrite Hc2. destruct Hf as (Hw1 & _). rewrite Hw1, Hw. cbn [num_add].
  replace (x + W) with (W + x) by lia. reflexivity.
Qed.

(** The bits that [draw] ors into the bitmap: bit [(y, x)] of the glyph
    goes to row [rowStart + y], column [xpos + box.x + x]. *)
Lemma draw_spec (g : Glyph.t) (box : BoundingBox.t) (rs xp bx : Z) (b : Bitmap.t) :
  BoundingBox.x box = Int bx ->
  (forall y, 0 <= y < Z.of_nat (iterations (BoundingBox.height box)) ->
     is_Some (Bitmap.rows b !! (rs + y)) /\ is_Some (Glyph.bitmap g !! Z.to_nat y)) ->
  exists b',
    draw g box (Int rs) (Int xp) b = Normal b' /\ same_frame b b' /\
    forall r c, cell b' r c =
                match c with
                | Int cc =>
                    if written rs (xp + bx) (Z.of_nat (iterations (BoundingBox.width box)))
                         (Z.of_nat (iterations (BoundingBox.height box))) 0 r c
                    then Some (Z.lor (default 0 (cell b r c))
                                 (default 0 (Glyph.bitmap g !! Z.to_nat (r - rs)
                                               ≫= fun row => row !! Z.to_nat (cc - (xp + bx)))))
                    else cell b r c
                | NaN => cell b r c
                end.
Proof.
  intros Hbx Hrows. unfold draw. rewrite Hbx.
  apply (nested_writes
           (fun y x b =>
              v ← glyph_bit g y x;
              or_cell (num_add (Int rs) (Int y)) (num_add (num_add (Int xp) (Int bx)) (Int x)) v b)
           (fun y x old =>
              Z.lor (default 0 old)
                (default 0 (Glyph.bitmap g !! Z.to_nat y ≫= fun row => row !! Z.to_nat x)))
           rs (xp + bx) (BoundingBox.height box) (BoundingBox.width box) b).
  intros y x b1 Hy Hx Hf. destruct (Hrows y Hy) as [Hrow [grow Hgrow]].
  unfold glyph_bit. rewrite Hgrow. cbn [mbind result_bind option_bind num_add].
  destruct (or_cell_spec b1 (rs + y) (Int (xp + bx + x)) (grow !! Z.to_nat x))
    as (b2 & Hb2 & Hf2 & Hc2).
  { apply Hf. exact Hrow. }
  exists b2. split; [exact Hb2|]. split; [exact Hf2|].
  intros r c. rewrite Hc2. case_decide as Hd; [|reflexivity].
  destruct Hd as [-> ->]. reflexivity.
Qed.

(** A character that has a glyph is resolved to it. *)
Lemma resolve_glyph_present (this : BDF) (table : list (pkey * Glyph.t)) (charCode : Z)
    (g : Glyph.t) :
  glyphs this = Some table -> obj_get (KNum charCode) table = Some g ->
  resolve_glyph this charCode = Normal (Some g).
Proof.
  intros Ht Hg. unfold resolve_glyph, glyph_at. rewrite Ht. simpl. rewrite Hg. reflexivity.
Qed.

(** ** [writeText]: a glyph that extends left of its origin *)

(** C3, as stated, fails: the glyph of [left_font] has [x = -2], and its
    pixel lands in column 0; the two columns added for the offset follow
    it. *)
Lemma left_glyph_starts_at_column_0 :
  fst (_populate new_BDF "font.bdf" (Some left_font)) = Normal tt /\
  glyph_of (loaded left_font) 65 = Some left_glyph /\
  rendered left_font "A" None = Normal (Int 3, Int 1, [Some [Some 1; Some 0; Some 0]]) /\
  exists b, fst (writeText (loaded left_font) "A" None None) = Normal b /\
            ~ starts_with_blank_columns 2 b.
Proof.
  split; [vm_compute; reflexivity|]. split; [vm_compute; reflexivity|].
  split; [vm_compute; reflexivity|].
  eexists. split; [vm_compute; reflexivity|].
  intros [H _]. specialize (H 0 0). vm_compute in H.
  assert (H1 : Some 1 = Some 0) by (apply H; [eauto|split; [discriminate|reflexivity]]).
  discriminate.
Qed.

(** C3, amended: for a single glyph with [x < 0] on an empty canvas, fitting
    the rows of the canvas, [writeText] sets [xpos = -x] and adds
    [max(deviceWidthX, width) - x] columns; bit [(j, i)] of the glyph lands
    in row [rowStart + j], column [i], so the bounding box of the glyph
    starts at column 0, and every other cell is 0. *)
Theorem left_offset_glyph (this : BDF) (m : Meta.t) (fbox box : BoundingBox.t)
    (table : list (pkey * Glyph.t)) (ch : ascii) (g : Glyph.t) (H Y x y w h dw : Z) :
  meta this = Some m -> Meta.boundingBox m = Some fbox ->
  BoundingBox.height fbox = Int H -> BoundingBox.y fbox = Int Y ->
  glyphs this = Some table -> obj_get (KNum (code_of ch)) table = Some g ->
  Glyph.boundingBox g = Some box -> box = BoundingBox.mk (Int x) (Int y) (Int w) (Int h) ->
  Glyph.deviceWidthX g = Some (Int dw) ->
  x < 0 ->
  0 <= H + Y - y - h -> Y - y <= 0 ->
  (forall j, 0 <= j < h -> is_Some (Glyph.bitmap g !! Z.to_nat j)) ->
  exists b,
    fst (writeText this (String ch EmptyString) None None) = Normal b /\
    Bitmap.width b = Int (Z.max dw w - x) /\
    Bitmap.height b = Int H /\
    forall r c, 0 <= r < H -> 0 <= c < Z.max dw w - x ->
      cell b r (Int c) =
        Some (if (H + Y - y - h <=? r) && (r <? H + Y - y) && (c <? w)
              then glyph_pixel g (r - (H + Y - y - h)) c else 0).
Proof.
  intros Hm Hfbox HH HY Ht Hg Hbox -> Hdw Hx Hrs Hre Hgrows.
  destruct (new_bitmap_spec (Int H)) as (Hw0 & Hh0 & Hr0).
  set (rs := H + Y - y - h).
  set (n := Z.max dw w + - x).
  (* the columns of zeros *)
  destruct (extend_spec (Int H) n 0 (new_bitmap (Int H))) as (b1 & Hb1 & Hf1 & Hc1).
  { exact Hw0. }
  { intros r Hr. rewrite Hr0. now rewrite decide_True. }
  (* the glyph *)
  set (b1' := Bitmap.set_width (num_add (Bitmap.width b1) (Int n)) b1).
  destruct (draw_spec g (BoundingBox.mk (Int x) (Int y) (Int w) (Int h)) rs (- x) x b1')
    as (b2 & Hb2 & Hf2 & Hc2).
  { reflexivity. }
  { intros j Hj. cbn [BoundingBox.height iterations] in Hj. split.
    - cbn [b1' Bitmap.set_width Bitmap.rows]. apply Hf1. rewrite Hr0.
      rewrite decide_True; [eauto|]. cbn [iterations]. unfold rs. lia.
    - apply Hgrows. lia. }
  exists b2. split; [|split; [|split]].
  - unfold writeText. cbn [default from_option id]. rewrite writeText_on_unfold.
    unfold write_pass, font_boundingBox. rewrite Hm. cbn [mbind option_bind].
    rewrite Hfbox. cbn [mbind result_bind]. rewrite HH, HY.
    cbn [write_chars write_char kerningBias or_zero num_add].
    rewrite (resolve_glyph_present this table (code_of ch) g Ht Hg).
    cbn [mbind result_bind option_bind]. rewrite Hbox.
    cbn [fmap option_fmap option_map BoundingBox.x BoundingBox.y BoundingBox.width
         BoundingBox.height num_sub num_neg].
    rewrite Hw0, Hdw. cbn [ToNumber Math_max num_lt num_add].
    replace (0 <? - x) with true by (symmetry; apply Z.ltb_lt; lia).
    fold n. rewrite Hb1. cbn [mbind result_bind]. fold b1'. fold rs.
    rewrite Hb2. reflexivity.
  - destruct Hf2 as (-> & _). cbn [b1' Bitmap.set_width Bitmap.width].
    destruct Hf1 as (-> & _). rewrite Hw0. cbn [num_add]. unfold n.
    now replace (0 + (Z.max dw w + - x)) with (Z.max dw w - x) by lia.
  - destruct Hf2 as (_ & -> & _). cbn [b1' Bitmap.set_width Bitmap.height].
    destruct Hf1 as (_ & -> & _). exact Hh0.
  - intros r c Hr Hc. rewrite Hc2.
    assert (Hcell1 : cell b1' r (Int c) = Some 0).
    { unfold cell. cbn [b1' Bitmap.set_width Bitmap.rows]. fold (cell b1 r (Int c)).
      rewrite Hc1. replace (written 0 0 _ _ 0 r (Int c)) with true; [reflexivity|].
      symmetry. rewrite written_true. exists c. split; [reflexivity|].
      cbn [iterations]. unfold n. lia. }
    rewrite Hcell1. cbn [default from_option id BoundingBox.width BoundingBox.height iterations].
    rewrite Z.lor_0_l. replace (- x + x) with 0 by lia. rewrite Z.sub_0_r.
    fold (glyph_pixel g (r - rs) c).
    destruct ((rs <=? r) && (r <? H + Y - y) && (c <? w)) eqn:Hin.
    + replace (written rs 0 _ _ 0 r (Int c)) with true; [reflexivity|].
      symmetry. rewrite written_true. exists c. split; [reflexivity|].
      rewrite !andb_true_iff, Z.leb_le, !Z.ltb_lt in Hin. unfold rs in *. lia.
    + replace (written rs 0 _ _ 0 r (Int c)) with false; [reflexivity|].
      symmetry. apply not_true_is_false. rewrite written_true.
      intros (cc & [= <-] & Hw).
      apply not_true_iff_false in Hin. apply Hin.
      rewrite !andb_true_iff, Z.leb_le, !Z.ltb_lt. unfold rs in *. lia.
Qed.

Lemma left_offset_glyph_witness :
  exists b,
    fst (writeText (loaded left_font) "A" None None) = Normal b /\
    Bitmap.width b = Int (Z.max 1 1 - -2) /\
    Bitmap.height b = Int 1 /\
    forall r c, 0 <= r < 1 -> 0 <= c < Z.max 1 1 - -2 ->
      cell b r (Int c) =
        Some (if (1 + 0 - 0 - 1 <=? r) && (r <? 1 + 0 - 0) && (c <? 1)
              then glyph_pixel left_glyph (r - (1 + 0 - 0 - 1)) c else 0).
Proof.
  apply (left_offset_glyph (loaded left_font)
           (Meta.mk (Some "2.1") (Some "sample") (Some (Size.mk (Int 1) (Int 75) (Int 75)))
              (Some (BoundingBox.mk (Int (-2)) (Int 0) (Int 3) (Int 1)))
              (Some (Properties.mk None None (Some (Int 65)))) (Some (Int 1)))
           (BoundingBox.mk (Int (-2)) (Int 0) (Int 3) (Int 1))
           (BoundingBox.mk (Int (-2)) (Int 0) (Int 1) (Int 1))
           [(KNum 65, left_glyph)] "A" left_glyph 1 0 (-2) 0 1 1 1);
    try (vm_compute; reflexivity); try lia.
  intros j Hj. replace j with 0 by lia. vm_compute. eauto.
Defined.

(** ** [writeText]: failures *)

Lemma resolve_glyph_throws (this : BDF) (charCode : Z) (e : exn) :
  resolve_glyph this charCode = Throw e -> e = TypeError.
Proof.
  unfold resolve_glyph, glyph_at, get_defaultChar, first_glyph.
  destruct (glyphs this) as [table|]; simpl; [|congruence].
  destruct (obj_get (KNum charCode) table); simpl.
  - discriminate.
  - destruct (meta this) as [m|]; simpl; [|congruence].
    destruct (Meta.properties m) as [p|]; simpl; [|congruence].
    destruct (obj_get (ToPropertyKey (Properties.defaultChar p)) table); simpl; [discriminate|].
    destruct (obj_get (KNum (code_of "?")) table); simpl; discriminate.
Qed.

Lemma extend_throws (height columnsToAdd : num) (b : Bitmap.t) (e : exn) :
  extend height columnsToAdd b = Throw e -> e = TypeError.
Proof.
  unfold extend, for_lt. apply for_from_throws. intros row b1 e1.
  apply for_from_throws. intros j b2 e2. unfold clear_cell. simpl.
  destruct (Bitmap.rows b2 !! row); congruence.
Qed.

Lemma draw_throws (g : Glyph.t) (box : BoundingBox.t) (rowStart xpos : num) (b : Bitmap.t)
    (e : exn) :
  draw g box rowStart xpos b = Throw e -> e = TypeError.
Proof.
  unfold draw, for_lt. apply for_from_throws. intros y b1 e1.
  apply for_from_throws. intros x b2 e2. unfold glyph_bit, or_cell.
  destruct (Glyph.bitmap g !! Z.to_nat y); simpl; [|congruence].
  destruct (num_add rowStart (Int y)) as [|r]; [congruence|]. simpl.
  destruct (Bitmap.rows b2 !! r); congruence.
Qed.

Lemma write_char_throws (this : BDF) (height baseline kerningBias : num) (charCode : Z)
    (s : Bitmap.t * num) (e : exn) :
  write_char this height baseline kerningBias charCode s = Throw e -> e = TypeError.
Proof.
  unfold write_char. destruct s as [b xpos].
  destruct (resolve_glyph this charCode) as [gd|e'] eqn:Hr; simpl.
  2: { intros [= <-]. eapply resolve_glyph_throws; eauto. }
  destruct (gd ≫= _) as [[g box]|]; [|congruence].
  destruct (num_lt _ _).
  - destruct (extend _ _ b) as [b1|e1] eqn:He; simpl.
    2: { intros [= <-]. eapply extend_throws; eauto. }
    destruct (draw _ _ _ _ _) as [b2|e2] eqn:Hd; simpl; [discriminate|].
    intros [= <-]. eapply draw_throws; eauto.
  - destruct (extend _ _ b) as [b1|e1] eqn:He; simpl.
    2: { intros [= <-]. eapply extend_throws; eauto. }
    destruct (draw _ _ _ _ _) as [b2|e2] eqn:Hd; simpl; [discriminate|].
    intros [= <-]. eapply draw_throws; eauto.
Qed.

Lemma write_chars_throws (this : BDF) (height baseline kerningBias : num) (text : string) :
  forall s e, write_chars this height baseline kerningBias text s = Throw e -> e = TypeError.
Proof.
  induction text as [|c text IH]; intros s e; simpl; [discriminate|].
  destruct (write_char _ _ _ _ _ s) as [s1|e1] eqn:Hc; simpl; [apply IH|].
  intros [= <-]. eapply write_char_throws; eauto.
Qed.

Lemma write_pass_throws (this : BDF) (text : string) (opts : options)
    (_bitmap : option Bitmap.t) (e : exn) :
  write_pass this text opts _bitmap = Throw e -> e = TypeError.
Proof.
  unfold write_pass, font_boundingBox.
  destruct (meta this ≫= Meta.boundingBox) as [fbox|]; simpl; [|congruence].
  destruct (write_chars _ _ _ _ _ _) as [s1|e1] eqn:Hc; simpl; [discriminate|].
  intros [= <-]. eapply write_chars_throws; eauto.
Qed.

(** Whatever [writeText] throws is a TypeError. *)
Lemma writeText_throws (this : BDF) (text : string) (opts : option options)
    (_bitmap : option Bitmap.t) (e : exn) :
  fst (writeText this text opts _bitmap) = Throw e -> e = TypeError.
Proof.
  unfold writeText, writeText_on.
  generalize (iterations (or_zero (textRepeat (default (mkOptions None None) opts)))).
  generalize (default (mkOptions None None) opts). intros o calls. revert o _bitmap.
  induction calls as [|calls IH]; intros o _bitmap; cbn [writeText_calls];
    destruct (write_pass this text o _bitmap) as [b|e'] eqn:Hp;
    try (simpl; intros [= <-]; eapply write_pass_throws; eauto; fail);
    destruct (num_lt _ _); simpl; try congruence.
  apply IH.
Qed.

Lemma draw_cell_frame (g : Glyph.t) (y x : Z) (row column : num) (b b' : Bitmap.t) :
  (v ← glyph_bit g y x; or_cell row column v b) = Normal b' ->
  exists r, row = Int r /\ is_Some (Bitmap.rows b !! r) /\ same_frame b b'.
Proof.
  destruct (glyph_bit g y x); simpl; [|discriminate]. apply or_cell_Normal.
Qed.

(** A glyph that has been drawn has found each of its rows in the bitmap. *)
Lemma draw_Normal_rows (g : Glyph.t) (box : BoundingBox.t) (rowStart xpos : num)
    (b b' : Bitmap.t) :
  draw g box rowStart xpos b = Normal b' ->
  (0 < iterations (BoundingBox.width box))%nat ->
  forall y, 0 <= y < Z.of_nat (iterations (BoundingBox.height box)) ->
  exists r, num_add rowStart (Int y) = Int r /\ is_Some (Bitmap.rows b !! r).
Proof.
  unfold draw, for_lt. intros Hd Hw y Hy.
  assert (Hinner : forall y b1 b2,
             same_frame b b1 ->
             for_from (iterations (BoundingBox.width box)) 0
               (fun x b0 => v ← glyph_bit g y x;
                  or_cell (num_add rowStart (Int y))
                    (num_add (num_add xpos (BoundingBox.x box)) (Int x)) v b0) b1 = Normal b2 ->
             same_frame b b2).
  { intros y0 b1 b2 H1. apply (for_from_preserves (same_frame b)); [|exact H1].
    intros x b3 b4 H3 Hc. apply draw_cell_frame in Hc. destruct Hc as (r & _ & _ & Hc).
    eapply same_frame_trans; eauto. }
  destruct (for_from_reaches (same_frame b) _ Hinner _ _ _ _ (same_frame_refl b) Hd y)
    as (b1 & b1' & Hf1 & Hrow); [lia|].
  destruct (for_from_reaches (same_frame b)
              (fun x b0 => v ← glyph_bit g y x;
                 or_cell (num_add rowStart (Int y))
                   (num_add (num_add xpos (BoundingBox.x box)) (Int x)) v b0)) with
      (count := iterations (BoundingBox.width box)) (i := 0) (s := b1) (s' := b1') (j := 0)
    as (b2 & b2' & Hf2 & Hcell); auto; [|lia|].
  { intros x b3 b4 H3 Hc. apply draw_cell_frame in Hc. destruct Hc as (r & _ & _ & Hc).
    eapply same_frame_trans; eauto. }
  apply draw_cell_frame in Hcell. destruct Hcell as (r & Hr & Hsome & _).
  exists r. split; [exact Hr|]. apply Hf2. exact Hsome.
Qed.

(** [write_char] neither adds nor removes a row. *)
Lemma write_char_rows (this : BDF) (height baseline kerningBias : num) (charCode : Z)
    (s s' : Bitmap.t * num) :
  write_char this height baseline kerningBias charCode s = Normal s' ->
  forall r, is_Some (Bitmap.rows (fst s') !! r) <-> is_Some (Bitmap.rows (fst s) !! r).
Proof.
  unfold write_char. destruct s as [b xpos].
  destruct (resolve_glyph this charCode) as [gd|]; simpl; [|discriminate].
  destruct (gd ≫= _) as [[g box]|]; [|discriminate].
  destruct (num_lt _ _);
    (destruct (extend _ _ b) as [b1|] eqn:He; simpl; [|discriminate];
     destruct (draw _ _ _ _ _) as [b2|] eqn:Hd; simpl; [|discriminate];
     intros [= <-]; simpl; apply extend_frame in He; apply draw_frame in Hd;
     destruct He as (_ & _ & He); destruct Hd as (_ & _ & Hd);
     intros r; rewrite Hd; simpl; apply He).
Qed.

(** A pass that ends has written each character of the text, on a bitmap
    with the rows of the one it started from. *)
Lemma write_chars_reaches (this : BDF) (height baseline kerningBias : num) (text : string) :
  forall s s', write_chars this height baseline kerningBias text s = Normal s' ->
  forall ch, In ch (list_ascii_of_string text) ->
  exists s1 s1',
    (forall r, is_Some (Bitmap.rows (fst s1) !! r) <-> is_Some (Bitmap.rows (fst s) !! r)) /\
    write_char this height baseline kerningBias (code_of ch) s1 = Normal s1'.
Proof.
  induction text as [|c text IH]; intros s s' Hw ch Hin; simpl in *; [contradiction|].
  destruct (write_char this height baseline kerningBias (code_of c) s) as [s1|] eqn:Hc;
    simpl in Hw; [|discriminate].
  destruct Hin as [<-|Hin].
  - exists s, s1. split; [reflexivity|exact Hc].
  - destruct (IH s1 s' Hw ch Hin) as (s2 & s2' & Hrows & Hc2).
    exists s2, s2'. split; [|exact Hc2].
    intros r. rewrite Hrows. eapply write_char_rows; eauto.
Qed.

(** C4, as stated, fails: the glyph of [tall_font] has a row above the
    canvas and [writeText] ends on the TypeError of reading that row; the
    glyph of [far_font] is drawn five columns right of a canvas one column
    wide and [writeText] returns the bitmap, the row grown to six elements.
    Neither is an error that the program raises. *)
Lemma geometry_not_checked :
  fst (_populate new_BDF "font.bdf" (Some tall_font)) = Normal tt /\
  fst (_populate new_BDF "font.bdf" (Some far_font)) = Normal tt /\
  fst (writeText (loaded tall_font) "A" None None) = Throw TypeError /\
  ~ raises_own_error (fst (writeText (loaded tall_font) "A" None None)) /\
  rendered far_font "A" None
    = Normal (Int 1, Int 1, [Some [Some 0; None; None; None; None; Some 1]]) /\
  ~ raises_own_error (fst (writeText (loaded far_font) "A" None None)).
Proof.
  split; [vm_compute; reflexivity|]. split; [vm_compute; reflexivity|].
  split; [vm_compute; reflexivity|]. split.
  { intros [msg H]. vm_compute in H. discriminate. }
  split; [vm_compute; reflexivity|].
  intros [msg H]. vm_compute in H. discriminate.
Qed.

(** C4, amended: [writeText] throws nothing but a TypeError; it ends on one
    whenever the text has a character whose glyph, of positive width, has a
    row that falls outside the rows of the canvas; and a write to a column
    outside the canvas never fails, whatever the column. *)
Theorem out_of_range_writes (this : BDF) (text : string) (opts : option options) :
  (forall _bitmap e, fst (writeText this text opts _bitmap) = Throw e -> e = TypeError) /\
  (forall m fbox table ch g box y,
     meta this = Some m -> Meta.boundingBox m = Some fbox ->
     glyphs this = Some table ->
     In ch (list_ascii_of_string text) ->
     obj_get (KNum (code_of ch)) table = Some g -> Glyph.boundingBox g = Some box ->
     (0 < iterations (BoundingBox.width box))%nat ->
     0 <= y < Z.of_nat (iterations (BoundingBox.height box)) ->
     row_in_canvas (BoundingBox.height fbox) (num_add (rowStart_of fbox box) (Int y)) = false ->
     fst (writeText this text opts None) = Throw TypeError) /\
  (forall b r column v,
     is_Some (Bitmap.rows b !! r) ->
     exists b', or_cell (Int r) column v b = Normal b' /\ same_frame b b').
Proof.
  split; [intros _bitmap e; apply writeText_throws|]. split.
  - intros m fbox table ch g box y Hm Hfbox Ht Hin Hg Hbox Hw Hy Hout.
    destruct (fst (writeText this text opts None)) as [b|e] eqn:Hres.
    2: { f_equal. eapply writeText_throws; eauto. }
    exfalso. unfold writeText in Hres. rewrite writeText_on_unfold in Hres.
    destruct (write_pass this text _ None) as [b1|] eqn:Hp; [|discriminate].
    clear Hres. unfold write_pass, font_boundingBox in Hp.
    rewrite Hm in Hp. simpl in Hp. rewrite Hfbox in Hp. cbn [mbind result_bind] in Hp.
    destruct (write_chars _ _ _ _ _ _) as [s|] eqn:Hc; [|discriminate].
    destruct (write_chars_reaches _ _ _ _ _ _ _ Hc ch Hin) as (s1 & s1' & Hrows & Hch).
    unfold write_char in Hch. destruct s1 as [b2 xpos].
    rewrite (resolve_glyph_present this table (code_of ch) g Ht Hg) in Hch.
    cbn [mbind result_bind option_bind] in Hch. rewrite Hbox in Hch.
    cbn [fmap option_fmap option_map] in Hch.
    assert (Hdraw : exists b3 xp b4,
               (forall r, is_Some (Bitmap.rows b3 !! r) <-> is_Some (Bitmap.rows b2 !! r)) /\
               draw g box (rowStart_of fbox box) xp b3 = Normal b4).
    { unfold rowStart_of. destruct (num_lt _ _);
        (destruct (extend _ _ b2) as [b3|] eqn:He; simpl in Hch; [|discriminate];
         destruct (draw _ _ _ _ _) as [b4|] eqn:Hd; simpl in Hch; [|discriminate];
         apply extend_frame in He; destruct He as (_ & _ & He);
         eexists; eexists; eexists; split; [|exact Hd]; exact He). }
    destruct Hdraw as (b3 & xp & b4 & Hrows3 & Hd).
    destruct (draw_Normal_rows _ _ _ _ _ _ Hd Hw y Hy) as (r & Hr & Hsome).
    rewrite Hr in Hout. apply Hrows3 in Hsome. simpl in Hrows. apply Hrows in Hsome.
    destruct (new_bitmap_spec (BoundingBox.height fbox)) as (_ & _ & Hnew).
    rewrite Hnew in Hsome. case_decide as Hd'; [|destruct Hsome; discriminate].
    destruct Hd' as [H0 H1]. apply iterations_lt in H1; [|exact H0].
    unfold row_in_canvas in Hout. rewrite H1 in Hout.
    apply Z.leb_le in H0. rewrite H0 in Hout. discriminate.
  - intros b r column v Hsome.
    destruct (or_cell_spec b r column v Hsome) as (b' & Hb' & Hf & _). eauto.
Qed.

Lemma out_of_range_writes_witness :
  fst (writeText (loaded tall_font) "A" None None) = Throw TypeError.
Proof.
  destruct (out_of_range_writes (loaded tall_font) "A" None) as (_ & H & _).
  apply (H (Meta.mk (Some "2.1") (Some "sample") (Some (Size.mk (Int 1) (Int 75) (Int 75)))
              (Some (BoundingBox.mk (Int 0) (Int 0) (Int 1) (Int 1)))
              (Some (Properties.mk None None (Some (Int 65)))) (Some (Int 1)))
           (BoundingBox.mk (Int 0) (Int 0) (Int 1) (Int 1))
           [(KNum 65, tall_glyph)] "A"%char tall_glyph
           (BoundingBox.mk (Int 0) (Int 0) (Int 1) (Int 2)) 0);
    try (vm_compute; reflexivity); try (left; reflexivity); simpl; lia.
Defined.

(** ** [writeText]: the text repeated *)

(** C1 on [pixel_font]: the text ["A"] alone renders as the one column [1];
    with [textRepeat = 1] the bitmap has two columns, [1] and [0], not the
    rendering twice: the second call starts again from [xpos = 0], draws
    the glyph over the first one and leaves the column it has added
    blank. *)
Theorem repeat_leaves_blank_columns :
  fst (_populate new_BDF "font.bdf" (Some pixel_font)) = Normal tt /\
  rendered pixel_font "A" None = Normal (Int 1, Int 1, [Some [Some 1]]) /\
  rendered pixel_font "A" (Some (mkOptions (Some (Int 1)) None))
    = Normal (Int 2, Int 1, [Some [Some 1; Some 0]]) /\
  rendered pixel_font "A" (Some (mkOptions (Some (Int 1)) None))
    <> Normal (Int 2, Int 1, repeated 2 [Some [Some 1]]).
Proof.
  split; [vm_compute; reflexivity|].
  split; [vm_compute; reflexivity|]. split; [vm_compute; reflexivity|].
  vm_compute. discriminate.
Qed.

(** A repeated text of one character, whose glyph lies right of its origin
    and within its advance: every pass draws the glyph again at the same
    place, the start of the canvas, and only appends columns of zeros. *)
Section Repeat.

Variables (this : BDF) (m : Meta.t) (fbox box : BoundingBox.t).
Variables (table : list (pkey * Glyph.t)) (ch : ascii) (g : Glyph.t).
Variables (H Y bx y w h dw : Z).
Hypothesis Hmeta : meta this = Some m.
Hypothesis HboundingBox : Meta.boundingBox m = Some fbox.
Hypothesis Hheight : BoundingBox.height fbox = Int H.
Hypothesis Hyoffset : BoundingBox.y fbox = Int Y.
Hypothesis Hglyphs : glyphs this = Some table.
Hypothesis Hglyph : obj_get (KNum (code_of ch)) table = Some g.
Hypothesis Hbox : Glyph.boundingBox g = Some box.
Hypothesis Hmetrics : box = BoundingBox.mk (Int bx) (Int y) (Int w) (Int h).
Hypothesis HdeviceWidth : Glyph.deviceWidthX g = Some (Int dw).
Hypothesis Hright : 0 <= bx.
Hypothesis Hwidth : 0 <= w.
Hypothesis Hadvance : bx + w <= Z.max dw w.
Hypothesis Htop : 0 <= H + Y - y - h.
Hypothesis Hbottom : Y - y <= 0.
Hypothesis Hrows : forall j, 0 <= j < h -> is_Some (Glyph.bitmap g !! Z.to_nat j).

Lemma write_pass_shows_once (opts : options) (_bitmap : option Bitmap.t) (K : Z) :
  0 <= K ->
  (_bitmap = None /\ K = 0) \/
  (exists b, _bitmap = Some b /\ shows_once g H (H + Y - y - h) bx w h K b) ->
  exists b',
    write_pass this (String ch EmptyString) opts _bitmap = Normal b' /\
    shows_once g H (H + Y - y - h) bx w h (K + Z.max dw w) b'.
Proof.
  intros HK Hstart.
  set (rs := H + Y - y - h) in *. set (W := Z.max dw w) in *.
  set (b := match _bitmap with Some b => b | None => new_bitmap (Int H) end).
  assert (Hb : shows_once g H rs bx w h K b).
  { destruct Hstart as [[-> ->]|(b0 & -> & Hb0)]; [|exact Hb0].
    destruct (new_bitmap_spec (Int H)) as (Hw0 & _ & Hr0).
    split; [exact Hw0|]. split; [|intros r c _ Hc; lia].
    intros r Hr. unfold b. rewrite Hr0.
    rewrite decide_True by (cbn [iterations]; lia). eauto. }
  destruct Hb as (HbK & Hbrows & Hbcells).
  destruct (extend_spec (Int H) W K b HbK) as (b1 & Hb1 & Hf1 & Hc1).
  { intros r Hr. apply Hbrows. cbn [iterations] in Hr. lia. }
  set (b1' := Bitmap.set_width (num_add (Bitmap.width b1) (Int W)) b1).
  destruct (draw_spec g (BoundingBox.mk (Int bx) (Int y) (Int w) (Int h)) rs 0 bx b1')
    as (b2 & Hb2 & Hf2 & Hc2).
  { reflexivity. }
  { intros j Hj. cbn [BoundingBox.height iterations] in Hj. split.
    - cbn [b1' Bitmap.set_width Bitmap.rows]. apply Hf1, Hbrows. unfold rs. lia.
    - apply Hrows. lia. }
  exists b2. split; [|split; [|split]].
  - unfold write_pass, font_boundingBox. rewrite Hmeta. cbn [mbind option_bind].
    rewrite HboundingBox. cbn [mbind result_bind]. rewrite Hheight, Hyoffset.
    fold b. cbn [write_chars write_char num_add].
    rewrite (resolve_glyph_present this table (code_of ch) g Hglyphs Hglyph).
    cbn [mbind result_bind option_bind]. rewrite Hbox, Hmetrics.
    cbn [fmap option_fmap option_map BoundingBox.x BoundingBox.y BoundingBox.width
         BoundingBox.height num_sub num_neg].
    rewrite HbK, HdeviceWidth. cbn [ToNumber Math_max num_lt].
    replace (K <? - bx) with false by (symmetry; apply Z.ltb_ge; lia).
    fold W. rewrite Hb1. cbn [mbind result_bind]. fold b1'. fold rs.
    rewrite Hb2. reflexivity.
  - destruct Hf2 as (-> & _). cbn [b1' Bitmap.set_width Bitmap.width].
    destruct Hf1 as (-> & _). rewrite HbK. reflexivity.
  - intros r Hr. apply Hf2. cbn [b1' Bitmap.set_width Bitmap.rows]. apply Hf1, Hbrows, Hr.
  - intros r c Hr Hc. rewrite Hc2.
    assert (Hcell1 : cell b1' r (Int c) =
                     Some (if c <? K
                           then (if in_glyph_box rs bx w h r c
                                 then glyph_pixel g (r - rs) (c - bx) else 0)
                           else 0)).
    { unfold cell. cbn [b1' Bitmap.set_width Bitmap.rows]. fold (cell b1 r (Int c)).
      rewrite Hc1. destruct (c <? K) eqn:HcK.
      - apply Z.ltb_lt in HcK.
        replace (written 0 K _ _ 0 r (Int c)) with false; [apply Hbcells; lia|].
        symmetry. apply not_true_is_false. rewrite written_true.
        intros (cc & [= <-] & Hw). lia.
      - apply Z.ltb_ge in HcK.
        replace (written 0 K _ _ 0 r (Int c)) with true; [reflexivity|].
        symmetry. rewrite written_true. exists c. split; [reflexivity|].
        cbn [iterations]. unfold W in *. lia. }
    rewrite Hcell1. cbn [default from_option id BoundingBox.width BoundingBox.height iterations].
    replace (0 + bx) with bx by lia. fold (glyph_pixel g (r - rs) (c - bx)).
    destruct (in_glyph_box rs bx w h r c) eqn:Hin.
    + replace (written rs bx _ _ 0 r (Int c)) with true.
      2: { symmetry. rewrite written_true. exists c. split; [reflexivity|].
           unfold in_glyph_box in Hin.
           rewrite !andb_true_iff, !Z.leb_le, !Z.ltb_lt in Hin. lia. }
      destruct (c <? K); [now rewrite Z.lor_diag|now rewrite Z.lor_0_l].
    + replace (written rs bx _ _ 0 r (Int c)) with false.
      2: { symmetry. apply not_true_is_false. rewrite written_true.
           intros (cc & [= <-] & Hw). apply not_true_iff_false in Hin. apply Hin.
           unfold in_glyph_box. rewrite !andb_true_iff, !Z.leb_le, !Z.ltb_lt. lia. }
      now destruct (c <? K).
Qed.

Lemma writeText_on_shows_once :
  forall calls n opts _bitmap K,
    calls = Z.to_nat n -> 0 <= n -> textRepeat opts = Some (Int n) -> 0 <= K ->
    (_bitmap = None /\ K = 0) \/
    (exists b, _bitmap = Some b /\ shows_once g H (H + Y - y - h) bx w h K b) ->
    exists b',
      fst (writeText_on this (String ch EmptyString) opts _bitmap) = Normal b' /\
      shows_once g H (H + Y - y - h) bx w h (K + (n + 1) * Z.max dw w) b'.
Proof.
  induction calls as [|calls IH]; intros n opts _bitmap K Hcalls Hn Ht HK Hstart;
    rewrite writeText_on_unfold;
    destruct (write_pass_shows_once opts _bitmap K HK Hstart) as (b1 & Hb1 & Hs1);
    rewrite Hb1, Ht; cbn [or_zero num_lt].
  - replace n with 0 in * by lia. simpl. exists b1. split; [reflexivity|].
    now replace (K + (0 + 1) * Z.max dw w) with (K + Z.max dw w) by lia.
  - replace (0 <? n) with true by (symmetry; apply Z.ltb_lt; lia).
    destruct (IH (n - 1) (decrement_textRepeat opts) (Some b1) (K + Z.max dw w))
      as (b2 & Hb2 & Hs2); [lia|lia| |lia| |].
    + unfold decrement_textRepeat. now rewrite Ht.
    + right. eauto.
    + exists b2. split; [exact Hb2|].
      now replace (K + (n + 1) * Z.max dw w)
        with (K + Z.max dw w + (n - 1 + 1) * Z.max dw w) by lia.
Qed.

(** With [textRepeat = n] the bitmap is [n + 1] renderings wide and shows
    the glyph once, in the first of them. *)
Lemma repeat_draws_once (opts : options) (n : Z) :
  textRepeat opts = Some (Int n) -> 0 <= n ->
  exists b,
    fst (writeText this (String ch EmptyString) (Some opts) None) = Normal b /\
    Bitmap.width b = Int ((n + 1) * Z.max dw w) /\
    forall r c, 0 <= r < H -> 0 <= c < (n + 1) * Z.max dw w ->
      cell b r (Int c) =
        Some (if in_glyph_box (H + Y - y - h) bx w h r c
              then glyph_pixel g (r - (H + Y - y - h)) (c - bx) else 0).
Proof.
  intros Ht Hn. rewrite writeText_Some.
  destruct (writeText_on_shows_once (Z.to_nat n) n opts None 0) as (b & Hb & Hw & _ & Hc);
    auto; [lia|].
  exists b. split; [exact Hb|]. split; [exact Hw|exact Hc].
Qed.

End Repeat.

(** On [pixel_font], with [textRepeat = 1]: two columns, the pixel in the
    first. *)
Example pixel_drawn_once :
  exists b,
    fst (writeText (loaded pixel_font) "A" (Some (mkOptions (Some (Int 1)) None)) None)
      = Normal b /\
    Bitmap.width b = Int 2 /\
    cell b 0 (Int 0) = Some 1 /\ cell b 0 (Int 1) = Some 0.
Proof.
  destruct (repeat_draws_once (loaded pixel_font)
              (Meta.mk (Some "2.1") (Some "sample") (Some (Size.mk (Int 1) (Int 75) (Int 75)))
                 (Some (BoundingBox.mk (Int 0) (Int 0) (Int 1) (Int 1)))
                 (Some (Properties.mk None None (Some (Int 65)))) (Some (Int 1)))
              (BoundingBox.mk (Int 0) (Int 0) (Int 1) (Int 1))
              (BoundingBox.mk (Int 0) (Int 0) (Int 1) (Int 1))
              [(KNum 65, pixel_glyph)] "A"%char pixel_glyph 1 0 0 0 1 1 1)
    with (opts := mkOptions (Some (Int 1)) None) (n := 1) as (b & Hb & Hw & Hc);
    try (vm_compute; reflexivity); try lia.
  { intros j Hj. replace j with 0 by lia. vm_compute. eauto. }
  exists b. split; [exact Hb|]. split; [exact Hw|].
  split; [apply (Hc 0 0); lia|apply (Hc 0 1); lia].
Qed.

(** ** [writeText]: missing characters *)

Lemma In_insert_sorted (z z' : Z) (l : list Z) :
  In z' (insert_sorted z l) <-> z' = z \/ In z' l.
Proof.
  induction l as [|y l IH]; simpl; [intuition|].
  destruct (z <=? y); simpl; [intuition|]. rewrite IH. intuition.
Qed.

Lemma In_sorted (z : Z) (l : list Z) :
  In z (fold_right insert_sorted [] l) <-> In z l.
Proof.
  induction l as [|y l IH]; simpl; [tauto|]. rewrite In_insert_sorted, IH. intuition.
Qed.

(** [Object.keys] lists keys of the object. *)
Lemma Object_keys_In {V : Type} (k : pkey) (o : list (pkey * V)) :
  In k (Object_keys o) -> In k (map fst o).
Proof.
  unfold Object_keys. rewrite in_app_iff, in_map_iff. intros [(z & <- & Hz)|H].
  - apply In_sorted, in_map_iff in Hz. destruct Hz as (k' & <- & Hk').
    apply list_elem_of_In, list_elem_of_filter in Hk'. destruct Hk' as [Hidx Hk'].
    apply list_elem_of_In in Hk'. destruct k'; try discriminate. exact Hk'.
  - apply list_elem_of_In, list_elem_of_filter in H. destruct H as [_ H].
    now apply list_elem_of_In.
Qed.

Lemma Object_keys_first {V : Type} (o : list (pkey * V)) :
  o <> [] -> exists k, Object_keys o !! 0%nat = Some k.
Proof.
  destruct o as [|[k v] o]; [congruence|]. intros _. unfold Object_keys. simpl.
  rewrite !filter_cons. simpl. destruct (is_array_index k) eqn:Hk.
  - rewrite decide_True by reflexivity. rewrite decide_False by discriminate. simpl.
    destruct (insert_sorted (index_of k) _) as [|z l] eqn:Hi; simpl; [|eauto].
    assert (Hin : In (index_of k) []) by (rewrite <- Hi; apply In_insert_sorted; auto).
    destruct Hin.
  - rewrite decide_False by discriminate. rewrite decide_True by reflexivity.
    destruct (map KNum _) as [|k' l]; simpl; eauto.
Qed.

Lemma obj_get_In {V : Type} (k : pkey) (o : list (pkey * V)) :
  In k (map fst o) -> is_Some (obj_get k o).
Proof.
  induction o as [|[k' v] o IH]; simpl; [contradiction|].
  destruct (decide (k = k')) as [->|Hne]; [eauto|].
  intros [H|H]; [congruence|auto].
Qed.

(** A font with a glyph has a first glyph. *)
Lemma first_glyph_exists (table : list (pkey * Glyph.t)) :
  table <> [] ->
  exists g, obj_get (default KUndefined (Object_keys table !! 0%nat)) table = Some g.
Proof.
  intros Hne. destruct (Object_keys_first table Hne) as [k Hk]. rewrite Hk. simpl.
  apply obj_get_In, Object_keys_In. apply list_elem_of_In. eapply list_elem_of_lookup_2; eauto.
Qed.

(** The order of the replacements, on a font that has a properties
    object. *)
Lemma resolve_glyph_order (this : BDF) (m : Meta.t) (p : Properties.t)
    (table : list (pkey * Glyph.t)) (charCode : Z) :
  meta this = Some m -> Meta.properties m = Some p -> glyphs this = Some table ->
  resolve_glyph this charCode =
    Normal (match obj_get (KNum charCode) table with
            | Some g => Some g
            | None =>
                match obj_get (ToPropertyKey (Properties.defaultChar p)) table with
                | Some g => Some g
                | None =>
                    match obj_get (KNum (code_of "?")) table with
                    | Some g => Some g
                    | None => obj_get (default KUndefined (Object_keys table !! 0%nat)) table
                    end
                end
            end).
Proof.
  intros Hm Hp Ht. unfold resolve_glyph, glyph_at, get_defaultChar, first_glyph.
  rewrite Ht, Hm, Hp. simpl.
  destruct (obj_get (KNum charCode) table); simpl; [reflexivity|].
  destruct (obj_get (ToPropertyKey (Properties.defaultChar p)) table); simpl; [reflexivity|].
  destruct (obj_get (KNum (code_of "?")) table); reflexivity.
Qed.

Lemma resolve_glyph_some (this : BDF) (m : Meta.t) (p : Properties.t)
    (table : list (pkey * Glyph.t)) (charCode : Z) :
  meta this = Some m -> Meta.properties m = Some p -> glyphs this = Some table ->
  table <> [] ->
  exists k g, resolve_glyph this charCode = Normal (Some g) /\ (k, g) ∈ table.
Proof.
  intros Hm Hp Ht Hne. rewrite (resolve_glyph_order this m p table charCode Hm Hp Ht).
  destruct (obj_get (KNum charCode) table) as [g|] eqn:H1.
  { exists (KNum charCode), g. split; [reflexivity|]. now apply obj_get_elem_of. }
  destruct (obj_get (ToPropertyKey (Properties.defaultChar p)) table) as [g|] eqn:H2.
  { eexists _, g. split; [reflexivity|]. eapply obj_get_elem_of; eauto. }
  destruct (obj_get (KNum (code_of "?")) table) as [g|] eqn:H3.
  { eexists _, g. split; [reflexivity|]. eapply obj_get_elem_of; eauto. }
  destruct (first_glyph_exists table Hne) as [g Hg]. rewrite Hg.
  eexists _, g. split; [reflexivity|]. eapply obj_get_elem_of; eauto.
Qed.

Lemma row_in_canvas_lt (height : num) (r : Z) :
  row_in_canvas height (Int r) = true <-> 0 <= r < Z.of_nat (iterations height).
Proof.
  unfold row_in_canvas. rewrite andb_true_iff, Z.leb_le. split.
  - intros [H0 H1]. split; [exact H0|]. now apply iterations_lt.
  - intros [H0 H1]. split; [exact H0|]. now apply iterations_lt.
Qed.

(** [extend] succeeds on a bitmap that has the rows of its height. *)
Lemma extend_total (height columnsToAdd : num) (b : Bitmap.t) :
  (forall r, 0 <= r < Z.of_nat (iterations height) -> is_Some (Bitmap.rows b !! r)) ->
  exists b', extend height columnsToAdd b = Normal b' /\ same_frame b b'.
Proof.
  intros Hrows. unfold extend.
  destruct (for_lt_inv (fun _ b1 => same_frame b b1)
              (fun row b0 =>
                 for_lt columnsToAdd (fun glyphColumn b1 =>
                   clear_cell (Int row) (num_add (Int glyphColumn) (Bitmap.width b1)) b1) b0)
              height b) as (b' & Hb' & Hf); [apply same_frame_refl| |eauto].
  intros row b1 Hrow Hf1.
  destruct (for_lt_inv (fun _ b2 => same_frame b b2)
              (fun glyphColumn b2 =>
                 clear_cell (Int row) (num_add (Int glyphColumn) (Bitmap.width b2)) b2)
              columnsToAdd b1) as (b2 & Hb2 & Hf2); [exact Hf1| |eauto].
  intros j b2 _ Hf2.
  destruct (clear_cell_spec b2 row (num_add (Int j) (Bitmap.width b2))) as (b3 & Hb3 & Hf3 & _).
  { apply Hf2, Hrows, Hrow. }
  exists b3. split; [exact Hb3|]. eapply same_frame_trans; eauto.
Qed.

(** [draw] succeeds for a glyph that fits. *)
Lemma draw_total (fbox box : BoundingBox.t) (g : Glyph.t) (xpos : num) (b : Bitmap.t) :
  (forall y, (0 < iterations (BoundingBox.width box))%nat ->
             0 <= y < Z.of_nat (iterations (BoundingBox.height box)) ->
             row_in_canvas (BoundingBox.height fbox)
               (num_add (rowStart_of fbox box) (Int y)) = true /\
             is_Some (Glyph.bitmap g !! Z.to_nat y)) ->
  (forall r, 0 <= r < Z.of_nat (iterations (BoundingBox.height fbox)) ->
             is_Some (Bitmap.rows b !! r)) ->
  exists b', draw g box (rowStart_of fbox box) xpos b = Normal b' /\ same_frame b b'.
Proof.
  intros Hfits Hrows. unfold draw.
  set (cellw := fun (y x : Z) (b0 : Bitmap.t) =>
                  v ← glyph_bit g y x;
                  or_cell (num_add (rowStart_of fbox box) (Int y))
                    (num_add (num_add xpos (BoundingBox.x box)) (Int x)) v b0).
  destruct (for_lt_inv (fun _ b1 => same_frame b b1)
              (fun y b0 => for_lt (BoundingBox.width box) (cellw y) b0)
              (BoundingBox.height box) b) as (b' & Hb' & Hf); [apply same_frame_refl| |eauto].
  intros y b1 Hy Hf1.
  destruct (for_lt_inv (fun _ b2 => same_frame b b2) (cellw y) (BoundingBox.width box) b1)
    as (b2 & Hb2 & Hf2); [exact Hf1| |eauto].
  intros x b2 Hx Hf2. destruct (Hfits y) as [Hrow [grow Hgrow]]; [lia|exact Hy|].
  unfold cellw, glyph_bit. rewrite Hgrow. cbn [mbind result_bind].
  destruct (num_add (rowStart_of fbox box) (Int y)) as [|r]; [discriminate|].
  apply row_in_canvas_lt in Hrow.
  destruct (or_cell_spec b2 r (num_add (num_add xpos (BoundingBox.x box)) (Int x))
              (grow !! Z.to_nat x)) as (b3 & Hb3 & Hf3 & _).
  { apply Hf2, Hrows, Hrow. }
  exists b3. split; [exact Hb3|]. eapply same_frame_trans; eauto.
Qed.

(** On a font with a properties object and glyphs that all fit, the body
    of the loop over the text succeeds and keeps the rows. *)
Lemma write_char_total (this : BDF) (m : Meta.t) (p : Properties.t) (fbox : BoundingBox.t)
    (table : list (pkey * Glyph.t)) (kerningBias : num) (charCode : Z) (s : Bitmap.t * num) :
  meta this = Some m -> Meta.properties m = Some p -> glyphs this = Some table ->
  table <> [] -> Forall (fun kv => fits fbox (snd kv)) table ->
  (forall r, 0 <= r < Z.of_nat (iterations (BoundingBox.height fbox)) ->
             is_Some (Bitmap.rows (fst s) !! r)) ->
  exists s',
    write_char this (BoundingBox.height fbox)
      (num_add (BoundingBox.height fbox) (BoundingBox.y fbox)) kerningBias charCode s
      = Normal s' /\
    (forall r, 0 <= r < Z.of_nat (iterations (BoundingBox.height fbox)) ->
               is_Some (Bitmap.rows (fst s') !! r)).
Proof.
  intros Hm Hp Ht Hne Hfits Hrows. destruct s as [b xpos]. simpl in Hrows.
  destruct (resolve_glyph_some this m p table charCode Hm Hp Ht Hne) as (k & g & Hr & Hin).
  rewrite Forall_forall in Hfits. destruct (Hfits (k, g) Hin) as (box & Hbox & Hg).
  simpl in Hbox, Hg. unfold write_char. rewrite Hr. cbn [mbind result_bind option_bind]. rewrite Hbox.
  cbn [fmap option_fmap option_map].
  fold (rowStart_of fbox box).
  assert (Hgo : forall xp n,
             exists s', (_bitmap ← extend (BoundingBox.height fbox) n b;
                         let _bitmap0 := Bitmap.set_width (num_add (Bitmap.width _bitmap) n)
                                           _bitmap in
                         _bitmap1 ← draw g box (rowStart_of fbox box) xp _bitmap0;
                         Normal (_bitmap1,
                                 num_add xp (num_add (ToNumber (Glyph.deviceWidthX g))
                                               kerningBias))) = Normal s' /\
                        (forall r, 0 <= r < Z.of_nat (iterations (BoundingBox.height fbox)) ->
                                   is_Some (Bitmap.rows (fst s') !! r))).
  { intros xp n. destruct (extend_total (BoundingBox.height fbox) n b Hrows)
      as (b1 & Hb1 & Hf1).
    rewrite Hb1. cbn [mbind result_bind].
    destruct (draw_total fbox box g xp
                (Bitmap.set_width (num_add (Bitmap.width b1) n) b1) Hg) as (b2 & Hb2 & Hf2).
    { intros r Hr'. simpl. apply Hf1, Hrows, Hr'. }
    rewrite Hb2. eexists. split; [reflexivity|].
    intros r Hr'. simpl. apply Hf2. simpl. apply Hf1, Hrows, Hr'. }
  destruct (num_lt _ _); apply Hgo.
Qed.

Section Replacement.

Variables (this : BDF) (m : Meta.t) (p : Properties.t) (fbox : BoundingBox.t).
Variable table : list (pkey * Glyph.t).
Hypothesis Hmeta : meta this = Some m.
Hypothesis Hproperties : Meta.properties m = Some p.
Hypothesis HboundingBox : Meta.boundingBox m = Some fbox.
Hypothesis Hglyphs : glyphs this = Some table.
Hypothesis Hnonempty : table <> [].
Hypothesis Hfits : Forall (fun kv => fits fbox (snd kv)) table.

(** The rows of a canvas of the height of the font. *)
Let has_rows (b : Bitmap.t) : Prop :=
  forall r, 0 <= r < Z.of_nat (iterations (BoundingBox.height fbox)) ->
            is_Some (Bitmap.rows b !! r).

Lemma write_chars_total (kerningBias : num) (text : string) :
  forall s, has_rows (fst s) ->
  exists s',
    write_chars this (BoundingBox.height fbox)
      (num_add (BoundingBox.height fbox) (BoundingBox.y fbox)) kerningBias text s = Normal s' /\
    has_rows (fst s').
Proof.
  induction text as [|c text IH]; intros s Hs; simpl; [eauto|].
  destruct (write_char_total this m p fbox table kerningBias (code_of c) s
              Hmeta Hproperties Hglyphs Hnonempty Hfits Hs) as (s1 & Hs1 & Hr1).
  rewrite Hs1. cbn [mbind result_bind]. apply IH. exact Hr1.
Qed.

Lemma write_pass_total (text : string) (opts : options) (_bitmap : option Bitmap.t) :
  (forall b, _bitmap = Some b -> has_rows b) ->
  exists b', write_pass this text opts _bitmap = Normal b' /\ has_rows b'.
Proof.
  intros Hb. unfold write_pass, font_boundingBox. rewrite Hmeta. simpl.
  rewrite HboundingBox. cbn [mbind result_bind].
  destruct (write_chars_total (or_zero (kerningBias opts)) text
              (match _bitmap with
               | Some b => b
               | None => new_bitmap (BoundingBox.height fbox)
               end, Int 0)) as (s' & Hs' & Hr').
  - simpl. destruct _bitmap as [b|]; [apply Hb; reflexivity|].
    intros r Hr. destruct (new_bitmap_spec (BoundingBox.height fbox)) as (_ & _ & Hnew).
    rewrite Hnew. rewrite decide_True by exact Hr. eauto.
  - rewrite Hs'. simpl. eauto.
Qed.

Lemma writeText_on_total (text : string) :
  forall calls opts _bitmap,
    calls = iterations (or_zero (textRepeat opts)) ->
    (forall b, _bitmap = Some b -> has_rows b) ->
    exists b', fst (writeText_on this text opts _bitmap) = Normal b'.
Proof.
  induction calls as [|calls IH]; intros opts _bitmap Hcalls Hb;
    rewrite writeText_on_unfold;
    destruct (write_pass_total text opts _bitmap Hb) as (b1 & Hb1 & Hr1); rewrite Hb1;
    destruct (textRepeat opts) as [[|n]|] eqn:Hn; cbn [or_zero num_lt] in *;
    try (simpl; eauto; fail);
    destruct (0 <? n) eqn:Hlt; try (simpl; eauto; fail); apply Z.ltb_lt in Hlt.
  - simpl in Hcalls. lia.
  - apply IH.
    + unfold decrement_textRepeat. rewrite Hn. simpl in *. lia.
    + now intros b [= <-].
Qed.

Lemma writeText_total (text : string) (opts : option options) :
  exists b, fst (writeText this text opts None) = Normal b.
Proof.
  unfold writeText. eapply writeText_on_total; [reflexivity|discriminate].
Qed.

End Replacement.

(** C7, as stated, fails: [tall_font] has a glyph, its default character;
    the text ["B"] has none and is replaced by it, and [writeText] ends on
    a TypeError, the glyph having a row above the canvas. *)
Lemma replacement_can_fail :
  fst (_populate new_BDF "font.bdf" (Some tall_font)) = Normal tt /\
  glyph_of (loaded tall_font) 66 = None /\
  resolve_glyph (loaded tall_font) 66 = Normal (Some tall_glyph) /\
  fst (writeText (loaded tall_font) "B" None None) = Throw TypeError /\
  ~ replacement_never_fails (loaded tall_font) "B".
Proof.
  split; [vm_compute; reflexivity|].
  split; [vm_compute; reflexivity|]. split; [vm_compute; reflexivity|].
  split; [vm_compute; reflexivity|].
  intros H. destruct H as [b Hb].
  - exists [(KNum 65, tall_glyph)]. split; [vm_compute; reflexivity|discriminate].
  - vm_compute in Hb. discriminate.
Qed.

(** On a font without a properties object the first replacement reads
    [defaultChar] of [undefined]: the glyph for ['?'] is not reached. *)
Lemma replacement_without_properties :
  fst (_populate new_BDF "font.bdf" (Some plain_font)) = Normal tt /\
  (exists g, glyph_of (loaded plain_font) 63 = Some g) /\
  resolve_glyph (loaded plain_font) 65 = Throw TypeError /\
  fst (writeText (loaded plain_font) "A" None None) = Throw TypeError.
Proof.
  split; [vm_compute; reflexivity|].
  split; [eexists; vm_compute; reflexivity|].
  split; vm_compute; reflexivity.
Qed.

(** C7, amended: on a font that has a properties object, a character
    without a glyph is replaced by the first that exists of the glyph of
    [defaultChar], the glyph of ['?'] and the glyph under the first key of
    [glyphs]; when the font has at least one glyph the resolution returns a
    glyph of the font and does not throw; and when moreover the font has a
    bounding box and all its glyphs fit the rows of the canvas, [writeText]
    returns a bitmap for every text. *)
Theorem missing_characters_replaced (this : BDF) (m : Meta.t) (p : Properties.t)
    (table : list (pkey * Glyph.t)) :
  meta this = Some m -> Meta.properties m = Some p -> glyphs this = Some table ->
  (forall charCode, obj_get (KNum charCode) table = None ->
     resolve_glyph this charCode =
       Normal (match obj_get (ToPropertyKey (Properties.defaultChar p)) table with
               | Some g => Some g
               | None =>
                   match obj_get (KNum (code_of "?")) table with
                   | Some g => Some g
                   | None => obj_get (default KUndefined (Object_keys table !! 0%nat)) table
                   end
               end)) /\
  (table <> [] ->
     forall charCode, exists k g,
       resolve_glyph this charCode = Normal (Some g) /\ (k, g) ∈ table) /\
  (forall fbox, Meta.boundingBox m = Some fbox -> table <> [] ->
     Forall (fun kv => fits fbox (snd kv)) table ->
     forall text opts, exists b, fst (writeText this text opts None) = Normal b).
Proof.
  intros Hm Hp Ht. split; [|split].
  - intros charCode Hnone. rewrite (resolve_glyph_order this m p table charCode Hm Hp Ht).
    now rewrite Hnone.
  - intros Hne charCode. eapply resolve_glyph_some; eauto.
  - intros fbox Hfbox Hne Hfits text opts. eapply writeText_total; eauto.
Qed.

Lemma missing_characters_replaced_witness :
  resolve_glyph (loaded pixel_font) 66 = Normal (Some pixel_glyph) /\
  exists b, fst (writeText (loaded pixel_font) "B" None None) = Normal b.
Proof.
  destruct (missing_characters_replaced (loaded pixel_font)
              (Meta.mk (Some "2.1") (Some "sample") (Some (Size.mk (Int 1) (Int 75) (Int 75)))
                 (Some (BoundingBox.mk (Int 0) (Int 0) (Int 1) (Int 1)))
                 (Some (Properties.mk None None (Some (Int 65)))) (Some (Int 1)))
              (Properties.mk None None (Some (Int 65)))
              [(KNum 65, pixel_glyph)]) as (H1 & _ & H3);
    try (vm_compute; reflexivity).
  split.
  - rewrite H1 by reflexivity. reflexivity.
  - apply (H3 (BoundingBox.mk (Int 0) (Int 0) (Int 1) (Int 1))).
    + reflexivity.
    + discriminate.
    + constructor; [|constructor]. exists (BoundingBox.mk (Int 0) (Int 0) (Int 1) (Int 1)).
      split; [reflexivity|]. intros y _ Hy. simpl in Hy. replace y with 0 by lia.
      split; [reflexivity|]. simpl. eauto.
Defined.

(** * More of the code *)

(** ** [_populate]: the [BITMAP] case on any glyph *)

Lemma array_set_at {A : Type} (above below : list A) (r v : A) :
  array_set (above ++ r :: below) (Z.of_nat (length above)) v = above ++ v :: below.
Proof.
  rewrite array_set_inside by (rewrite length_app; simpl; lia).
  rewrite insert_app_r_alt by lia. now rewrite Nat.sub_diag.
Qed.

(** [a[row] = v] for a row that the array has, or the next one. *)
Lemma array_set_row {A : Type} (a : list A) (row : nat) (v : A) :
  (row <= length a)%nat ->
  array_set a (Z.of_nat row) v = take row a ++ v :: drop (S row) a.
Proof.
  intros H. destruct (decide (row = length a)) as [->|Hne].
  - rewrite array_set_end, take_ge, drop_ge by lia. reflexivity.
  - rewrite array_set_inside by lia. apply insert_take_drop. lia.
Qed.

(** Writing the next bit of a row, whatever rows come after it. *)
Lemma set_bitmap_cell_at (c : Glyph.t) (above below : list (list Z)) (r : list Z) (v : Z) :
  Glyph.bitmap c = above ++ r :: below ->
  set_bitmap_cell (Z.of_nat (length above)) (Z.of_nat (length r)) v c
    = Normal (Glyph.set_bitmap (above ++ (r ++ [v]) :: below) c).
Proof.
  intros Hb. unfold set_bitmap_cell. rewrite Hb, Nat2Z.id.
  rewrite list_lookup_middle by reflexivity.
  now rewrite array_set_end, array_set_at.
Qed.

Lemma decode_byte_at (line : string) (c : Glyph.t) (above below : list (list Z))
    (r : list Z) (byteIndex : nat) :
  Glyph.bitmap c = above ++ r :: below -> length r = (8 * byteIndex)%nat ->
  let byte := parseInt16 (substr line (Z.of_nat byteIndex * 2) 2) in
  decode_byte (Some line) (Z.of_nat (length above)) (Z.of_nat byteIndex) c
    = Normal (Glyph.set_bitmap (above ++ (r ++ byte_bits byte) :: below)
                (Glyph.set_bytes (Glyph.bytes c ++ [byte]) c)).
Proof.
  intros Hb Hr byte. unfold decode_byte. fold byte.
  set (c1 := Glyph.set_bytes (Glyph.bytes c ++ [byte]) c).
  assert (Hstep : forall (bits : list Z) (k : Z) (v : Z),
             Z.of_nat byteIndex * 8 + k = Z.of_nat (length (r ++ bits)) ->
             set_bitmap_cell (Z.of_nat (length above)) (Z.of_nat byteIndex * 8 + k) v
               (Glyph.set_bitmap (above ++ (r ++ bits) :: below) c1)
             = Normal (Glyph.set_bitmap (above ++ (r ++ (bits ++ [v])) :: below) c1)).
  { intros bits k v Hk. rewrite Hk, app_assoc.
    now rewrite (set_bitmap_cell_at _ above below (r ++ bits) v) by reflexivity. }
  assert (H0 : c1 = Glyph.set_bitmap (above ++ (r ++ []) :: below) c1).
  { rewrite app_nil_r. unfold c1. destruct c; simpl in *. now subst. }
  cbn [foldl]. rewrite H0 at 1. cbn [mbind result_bind].
  rewrite (Hstep [] (7 - 7)) by (rewrite app_nil_r; lia). cbn [app mbind result_bind].
  rewrite (Hstep [_] (7 - 6)) by (rewrite length_app; simpl; lia). cbn [app mbind result_bind].
  rewrite (Hstep [_; _] (7 - 5)) by (rewrite length_app; simpl; lia). cbn [app mbind result_bind].
  rewrite (Hstep [_; _; _] (7 - 4)) by (rewrite length_app; simpl; lia). cbn [app mbind result_bind].
  rewrite (Hstep [_; _; _; _] (7 - 3)) by (rewrite length_app; simpl; lia). cbn [app mbind result_bind].
  rewrite (Hstep [_; _; _; _; _] (7 - 2)) by (rewrite length_app; simpl; lia). cbn [app mbind result_bind].
  rewrite (Hstep [_; _; _; _; _; _] (7 - 1)) by (rewrite length_app; simpl; lia). cbn [app mbind result_bind].
  rewrite (Hstep [_; _; _; _; _; _; _] (7 - 0)) by (rewrite length_app; simpl; lia).
  cbn [app mbind result_bind].
  reflexivity.
Qed.

(** A row of the bitmap, at a row that the glyph has already or at the
    next one: the row is replaced by the bits of the line, or by an empty
    row when no byte is read. *)
Lemma decode_row_at (rest : list string) (c : Glyph.t) (row : nat) (bytesPerLine : num) :
  (row <= length (Glyph.bitmap c))%nat ->
  iterations bytesPerLine = 0%nat \/ is_Some (rest !! row) ->
  decode_row rest bytesPerLine (Z.of_nat row) c
    = Normal (Glyph.set_bitmap
                (take row (Glyph.bitmap c)
                 ++ row_bits (iterations bytesPerLine) (default EmptyString (rest !! row))
                 :: drop (S row) (Glyph.bitmap c))
                (Glyph.set_bytes
                   (Glyph.bytes c
                    ++ row_bytes (iterations bytesPerLine) (default EmptyString (rest !! row)))
                   c)).
Proof.
  intros Hrow Hline. unfold decode_row. rewrite Nat2Z.id, array_set_row by exact Hrow.
  set (above := take row (Glyph.bitmap c)). set (below := drop (S row) (Glyph.bitmap c)).
  assert (Habove : length above = row) by (unfold above; rewrite length_take; lia).
  destruct (rest !! row) as [line|] eqn:Hl.
  - cbn [default from_option id].
    destruct (for_lt_inv
                (fun j c' => c' = Glyph.set_bitmap
                                    (above ++ row_bits (Z.to_nat j) line :: below)
                                    (Glyph.set_bytes
                                       (Glyph.bytes c ++ row_bytes (Z.to_nat j) line) c))
                (decode_byte (Some line) (Z.of_nat row)) bytesPerLine
                (Glyph.set_bitmap (above ++ [] :: below) c)) as (c' & Hc' & HP).
    + simpl. rewrite app_nil_r. destruct c; reflexivity.
    + intros j c' Hj ->. eexists. split.
      * replace j with (Z.of_nat (Z.to_nat j)) at 1 by lia. rewrite <- Habove at 1.
        apply decode_byte_at with (r := row_bits (Z.to_nat j) line); [reflexivity|].
        apply length_row_bits.
      * replace (Z.to_nat (j + 1)) with (S (Z.to_nat j)) by lia.
        rewrite row_bits_S, row_bytes_S. simpl. now rewrite <- app_assoc.
    + rewrite Hc', HP. now rewrite Nat2Z.id.
  - destruct Hline as [H0|[? ?]]; [|discriminate].
    unfold for_lt. rewrite H0. simpl. rewrite app_nil_r. destruct c; reflexivity.
Qed.

(** A row whose line is missing, when a byte is to be read. *)
Lemma decode_row_missing (rest : list string) (c : Glyph.t) (row : nat) (bytesPerLine : num) :
  rest !! row = None -> (0 < iterations bytesPerLine)%nat ->
  decode_row rest bytesPerLine (Z.of_nat row) c = Throw TypeError.
Proof.
  intros Hl Hn. unfold decode_row, for_lt. rewrite Nat2Z.id, Hl.
  destruct (iterations bytesPerLine); [lia|reflexivity].
Qed.

Lemma decoded_rows_S (n h : nat) (rest : list string) :
  decoded_rows n (S h) rest
    = decoded_rows n h rest ++ [row_bits n (default EmptyString (rest !! h))].
Proof. unfold decoded_rows. now rewrite seq_S, List.map_app. Qed.

Lemma decoded_bytes_S (n h : nat) (rest : list string) :
  decoded_bytes n (S h) rest
    = decoded_bytes n h rest ++ row_bytes n (default EmptyString (rest !! h)).
Proof.
  unfold decoded_bytes. rewrite seq_S, List.map_app, List.concat_app. simpl.
  now rewrite app_nil_r.
Qed.

Lemma length_decoded_rows (n h : nat) (rest : list string) :
  length (decoded_rows n h rest) = h.
Proof. unfold decoded_rows. now rewrite List.length_map, List.length_seq. Qed.

(** The [BITMAP] case when no byte is read on a row or the lines of all
    the rows are there. *)
Lemma decode_bitmap_at (rest : list string) (c : Glyph.t) (box : BoundingBox.t) :
  Glyph.boundingBox c = Some box ->
  iterations (Math_ceil_div8 (BoundingBox.width box)) = 0%nat \/
  (iterations (BoundingBox.height box) <= length rest)%nat ->
  decode_bitmap rest c
    = Normal (after_bitmap (iterations (Math_ceil_div8 (BoundingBox.width box)))
                (iterations (BoundingBox.height box)) rest c).
Proof.
  intros Hbox Hlines. unfold decode_bitmap. rewrite Hbox.
  set (bpl := Math_ceil_div8 (BoundingBox.width box)) in *.
  destruct (for_lt_inv
              (fun j c' => c' = after_bitmap (iterations bpl) (Z.to_nat j) rest c)
              (decode_row rest bpl) (BoundingBox.height box) c) as (c' & Hc' & HP).
  - unfold after_bitmap. simpl. rewrite app_nil_r. destruct c; reflexivity.
  - intros j c' Hj ->. eexists. split.
    + replace j with (Z.of_nat (Z.to_nat j)) at 1 by lia. apply decode_row_at.
      * unfold after_bitmap. simpl. rewrite length_app, length_decoded_rows. lia.
      * destruct Hlines as [H0|Hh]; [now left|right].
        apply lookup_lt_is_Some. lia.
    + replace (Z.to_nat (j + 1)) with (S (Z.to_nat j)) by lia.
      unfold after_bitmap. cbn [Glyph.bitmap Glyph.bytes Glyph.set_bitmap Glyph.set_bytes].
      rewrite glyph_set_set.
      rewrite take_app_length' by (symmetry; apply length_decoded_rows).
      rewrite drop_app_ge by (rewrite length_decoded_rows; lia).
      rewrite length_decoded_rows, drop_drop.
      replace (Z.to_nat j + (S (Z.to_nat j) - Z.to_nat j))%nat with (S (Z.to_nat j)) by lia.
      rewrite decoded_rows_S, decoded_bytes_S, <- !app_assoc. reflexivity.
  - rewrite Hc', HP. now rewrite Nat2Z.id.
Qed.

(** The [BITMAP] case when a byte is to be read on a row whose line is
    not there. *)
Lemma decode_bitmap_short (rest : list string) (c : Glyph.t) (box : BoundingBox.t) :
  Glyph.boundingBox c = Some box ->
  (0 < iterations (Math_ceil_div8 (BoundingBox.width box)))%nat ->
  (length rest < iterations (BoundingBox.height box))%nat ->
  decode_bitmap rest c = Throw TypeError.
Proof.
  intros Hbox Hn Hh. destruct (decode_bitmap rest c) as [c'|e] eqn:Hd.
  - exfalso. unfold decode_bitmap in Hd. rewrite Hbox in Hd. unfold for_lt in Hd.
    destruct (for_from_reaches (fun _ => True) _ (fun _ _ _ _ _ => I) _ _ _ _ I Hd
                (Z.of_nat (length rest))) as (sj & sj' & _ & Hrow); [lia|].
    rewrite decode_row_missing in Hrow; [discriminate| |exact Hn].
    apply lookup_ge_None. lia.
  - f_equal. eapply decode_bitmap_throws; eauto.
Qed.

(** What a [BITMAP] case that ends has done. *)
Lemma decode_bitmap_Normal (rest : list string) (c c' : Glyph.t) :
  decode_bitmap rest c = Normal c' ->
  exists box,
    Glyph.boundingBox c = Some box /\
    c' = after_bitmap (iterations (Math_ceil_div8 (BoundingBox.width box)))
           (iterations (BoundingBox.height box)) rest c.
Proof.
  intros Hd. destruct (Glyph.boundingBox c) as [box|] eqn:Hbox.
  2: { unfold decode_bitmap in Hd. rewrite Hbox in Hd. discriminate. }
  exists box. split; [reflexivity|].
  destruct (decide (iterations (Math_ceil_div8 (BoundingBox.width box)) = 0%nat)) as [H0|H0].
  { rewrite (decode_bitmap_at rest c box Hbox) in Hd by (now left). congruence. }
  destruct (decide (iterations (BoundingBox.height box) <= length rest)%nat) as [Hh|Hh].
  { rewrite (decode_bitmap_at rest c box Hbox) in Hd by (now right). congruence. }
  rewrite (decode_bitmap_short rest c box Hbox) in Hd by lia. discriminate.
Qed.

(** The lines that the [BITMAP] case has passed are not read again. *)
Lemma read_lines_drop (fontLines : list string) :
  forall skip st, read_lines fontLines skip st = read_lines (drop skip fontLines) 0 st.
Proof.
  induction fontLines as [|l lines IH]; intros [|k] st; try reflexivity.
  simpl. apply IH.
Qed.

Lemma declare_BITMAP_line (rest : list string) (line : string) (st : pstate) :
  head_keyword line = Some BITMAP ->
  declare rest line st = declare rest "BITMAP" st.
Proof. unfold head_keyword, declare. now intros ->. Qed.

(** X1: [BITMAP], on a glyph in any state, with a bounding box of [h] rows
    read as [n] bytes each.  When the [h] lines of the rows follow, or no
    byte is to be read on a row: the rows [0 .. h - 1] of [bitmap] become
    the bits of these lines, its later rows stay, the bytes of the lines
    are appended to [bytes], and the loop goes on after these [h] lines,
    which are not read as declarations whatever they hold.  When a byte is
    to be read and the file ends before the last row: the loop ends on a
    TypeError. *)
Theorem bitmap_declaration (line : string) (rest : list string) (st : pstate)
    (c : Glyph.t) (box : BoundingBox.t) :
  head_keyword line = Some BITMAP ->
  currentChar st = Some c -> Glyph.boundingBox c = Some box ->
  let n := iterations (Math_ceil_div8 (BoundingBox.width box)) in
  let h := iterations (BoundingBox.height box) in
  (n = 0%nat \/ (h <= length rest)%nat ->
     read_lines (line :: rest) 0 st
       = read_lines (drop h rest) 0
           (set_currentChar
              (Some (Glyph.set_bitmap (decoded_rows n h rest ++ drop h (Glyph.bitmap c))
                       (Glyph.set_bytes (Glyph.bytes c ++ decoded_bytes n h rest) c)))
              st)) /\
  ((0 < n)%nat -> (length rest < h)%nat ->
     read_lines (line :: rest) 0 st = (Some TypeError, st)).
Proof.
  intros Hline Hc Hbox n h. cbn [read_lines].
  rewrite (declare_BITMAP_line rest line st Hline), declare_BITMAP, Hc. split.
  - intros H. rewrite (decode_bitmap_at rest c box Hbox H). cbn [mbind result_bind].
    rewrite Hbox. cbn [fmap option_fmap option_map ToNumber]. apply read_lines_drop.
  - intros Hn Hh. now rewrite (decode_bitmap_short rest c box Hbox Hn Hh).
Qed.

Lemma bitmap_declaration_witness :
  let c := Glyph.set_boundingBox (BoundingBox.mk (Int 0) (Int 0) (Int 1) (Int 1)) tall_glyph in
  let st := mkP Meta.empty [] [STARTCHAR] (Some c) in
  (exists c',
     read_lines ["BITMAP"; "ENDFONT"] 0 st = (None, set_currentChar (Some c') st) /\
     Glyph.bitmap c' = [[0; 0; 0; 0; 1; 1; 1; 0]; [1; 0; 0; 0; 0; 0; 0; 0]] /\
     Glyph.bytes c' = [Int 128; Int 128; Int 14]) /\
  read_lines ["BITMAP"] 0 st = (Some TypeError, st).
Proof.
  intros c st. split.
  - eexists. split.
    + apply (proj1 (bitmap_declaration "BITMAP" ["ENDFONT"] st c _ eq_refl eq_refl eq_refl)).
      right. simpl. lia.
    + split; reflexivity.
  - apply (proj2 (bitmap_declaration "BITMAP" [] st c _ eq_refl eq_refl eq_refl));
      vm_compute; lia.
Defined.

(** ** [_populate]: what holds of every glyph *)

Lemma obj_set_Forall {V : Type} (Q : pkey * V -> Prop) (k : pkey) (v : V)
    (o : list (pkey * V)) :
  Q (k, v) -> Forall Q o -> Forall Q (obj_set k v o).
Proof.
  intros Hk. induction o as [|[k' v'] o IH]; simpl; intros Ho.
  - repeat constructor. exact Hk.
  - inversion_clear Ho as [|? ? Hhd Htl]. destruct (decide (k = k')).
    + constructor; assumption.
    + constructor; [assumption|auto].
Qed.

(** A property of glyphs that the declarations of a glyph section keep
    holds of the glyph being read and of all the glyphs committed. *)
Section GlyphInvariant.

Variable P : Glyph.t -> Prop.
Hypothesis P_STARTCHAR :
  forall name, P (Glyph.mk name [] [] None None None None None None None).
Hypothesis P_ENCODING :
  forall n g, P g -> P (Glyph.set_encoding n (fromCharCode n) g).
Hypothesis P_SWIDTH : forall x y g, P g -> P (Glyph.set_scalableWidth x y g).
Hypothesis P_DWIDTH : forall x y g, P g -> P (Glyph.set_deviceWidth x y g).
Hypothesis P_BBX : forall box g, P g -> P (Glyph.set_boundingBox box g).
Hypothesis P_BITMAP :
  forall n h rest g, P g -> P (after_bitmap n h rest g).

Lemma declare_glyphs (rest : list string) (line : string) (st st' : pstate) (k : nat) :
  declare rest line st = Normal (st', k) -> glyphs_satisfy P st -> glyphs_satisfy P st'.
Proof.
  unfold glyphs_satisfy, declare, with_properties, with_currentChar.
  destruct (mbind keyword_of _) as [[]|]; simpl; destruct_options;
    try discriminate;
    try (intros [= <- <-]; simpl; intros [Hc Hg]; split; [|exact Hg];
         intros c' [= <-]; eauto; fail);
    try (intros [= <- <-]; simpl; intros [Hc Hg]; split; [|exact Hg];
         intros c' Hc'; apply Hc; congruence; fail).
  - destruct (decode_bitmap rest t) as [t'|] eqn:Hd; simpl; [|discriminate].
    intros [= <- <-]. simpl. intros [Hc Hg]. split; [|exact Hg].
    intros c' [= <-]. apply decode_bitmap_Normal in Hd. destruct Hd as (box & _ & ->).
    apply P_BITMAP. now apply Hc.
  - intros [= <- <-]. simpl. intros [Hc Hg]. split; [discriminate|].
    apply obj_set_Forall; [|exact Hg]. simpl. now apply Hc.
Qed.

Lemma read_lines_glyphs (fontLines : list string) :
  forall skip st,
    glyphs_satisfy P st -> glyphs_satisfy P (snd (read_lines fontLines skip st)).
Proof.
  induction fontLines as [|l lines IH]; intros skip st H; simpl; [exact H|].
  destruct skip; [|apply IH; exact H].
  destruct (declare lines l st) as [[st2 k]|x] eqn:Hd; [|exact H].
  apply IH. eapply declare_glyphs; eauto.
Qed.

Lemma populate_glyphs (this : BDF) (path : string) (data : option string)
    (table : list (pkey * Glyph.t)) :
  falsy data = false ->
  glyphs (snd (_populate this path data)) = Some table ->
  Forall (fun kv => P (snd kv)) table.
Proof.
  intros Hf. destruct data as [s|]; [|discriminate].
  assert (Hs : s <> EmptyString) by (intros ->; discriminate).
  rewrite populate_truthy by exact Hs.
  pose proof (read_lines_glyphs (split_on LF s) 0 (mkP Meta.empty [] [] None)) as Hinv.
  fold (populate_pass s) in Hinv.
  destruct (populate_pass s) as [e st]. simpl in Hinv.
  assert (Hst : Forall (fun kv => P (snd kv)) (this_glyphs st)).
  { apply Hinv. split; [discriminate|constructor]. }
  destruct e as [e|]; [|destruct (declarationStack st)]; simpl; intros [= <-]; exact Hst.
Qed.

End GlyphInvariant.

Lemma bit_of_bit (byte : num) (bit : Z) : is_bit (bit_of byte bit).
Proof.
  unfold is_bit, bit_of. destruct byte as [|b]; [now left|].
  destruct (Z.land b (Z.shiftl 1 bit) =? 0); auto.
Qed.

Lemma row_bits_whole (n : nat) (line : string) : whole_bytes_of_bits (row_bits n line).
Proof.
  split; [exists n; apply length_row_bits|].
  unfold row_bits. apply Forall_concat, Forall_forall. intros bits Hin.
  apply list_elem_of_In, in_map_iff in Hin. destruct Hin as (byte & <- & _).
  unfold byte_bits. simpl. do 8 (constructor; [apply bit_of_bit|]). constructor.
Qed.

Lemma populate_whole_bytes (this : BDF) (path : string) (data : option string)
    (table : list (pkey * Glyph.t)) :
  falsy data = false ->
  glyphs (snd (_populate this path data)) = Some table ->
  Forall (fun kv => Forall whole_bytes_of_bits (Glyph.bitmap (snd kv))) table.
Proof.
  intros Hf Ht.
  eapply (populate_glyphs (fun g => Forall whole_bytes_of_bits (Glyph.bitmap g)));
    [intros name; constructor|intros; assumption..| |exact Hf|exact Ht].
  intros n h rest g' Hg'. simpl. apply Forall_app. split.
  - apply Forall_forall. intros row Hrow. unfold decoded_rows in Hrow.
    apply list_elem_of_In, in_map_iff in Hrow. destruct Hrow as (r & <- & _).
    apply row_bits_whole.
  - now apply Forall_drop.
Qed.

(** X2: Whatever the file, as long as it is not empty: every row of the
    bitmap of every glyph left in [glyphs] is made of whole bytes, eight
    entries for each, and holds nothing but 0s and 1s. *)
Theorem glyph_bitmaps_whole_bytes (this : BDF) (path : string) (data : option string)
    (table : list (pkey * Glyph.t)) (k : pkey) (g : Glyph.t) :
  falsy data = false ->
  glyphs (snd (_populate this path data)) = Some table ->
  (k, g) ∈ table ->
  Forall whole_bytes_of_bits (Glyph.bitmap g).
Proof.
  intros Hf Ht Hin.
  pose proof (populate_whole_bytes this path data table Hf Ht) as H.
  rewrite Forall_forall in H. exact (H _ Hin).
Qed.

Lemma glyph_bitmaps_whole_bytes_witness :
  Forall whole_bytes_of_bits (Glyph.bitmap pixel_glyph).
Proof.
  apply (glyph_bitmaps_whole_bytes new_BDF "font.bdf" (Some pixel_font)
           [(KNum 65, pixel_glyph)] (KNum 65) pixel_glyph).
  - reflexivity.
  - vm_compute. reflexivity.
  - apply list_elem_of_here.
Defined.

Lemma populate_char_of_code (this : BDF) (path : string) (data : option string)
    (table : list (pkey * Glyph.t)) :
  falsy data = false ->
  glyphs (snd (_populate this path data)) = Some table ->
  Forall (fun kv => Glyph.char (snd kv) = fromCharCode <$> Glyph.code (snd kv)) table.
Proof.
  intros Hf Ht.
  eapply (populate_glyphs (fun g => Glyph.char g = fromCharCode <$> Glyph.code g));
    [reflexivity|reflexivity|intros; assumption..|exact Hf|exact Ht].
Qed.

(** X3: Whatever the file, as long as it is not empty: the [char] of every
    glyph left in [glyphs] is the character of its [code], one code unit
    below 65536, and a glyph without a [code] has no [char]. *)
Theorem glyph_char_of_code (this : BDF) (path : string) (data : option string)
    (table : list (pkey * Glyph.t)) (k : pkey) (g : Glyph.t) :
  falsy data = false ->
  glyphs (snd (_populate this path data)) = Some table ->
  (k, g) ∈ table ->
  Glyph.char g = fromCharCode <$> Glyph.code g /\
  forall ch, Glyph.char g = Some ch -> 0 <= ch < 65536.
Proof.
  intros Hf Ht Hin.
  pose proof (populate_char_of_code this path data table Hf Ht) as H.
  rewrite Forall_forall in H. specialize (H _ Hin). simpl in H.
  split; [exact H|].
  intros ch Hch. rewrite H in Hch. destruct (Glyph.code g) as [[|z]|]; simpl in Hch.
  - injection Hch as <-. lia.
  - injection Hch as <-. apply Z.mod_pos_bound. lia.
  - discriminate.
Qed.

Lemma glyph_char_of_code_witness :
  Glyph.char pixel_glyph = fromCharCode <$> Glyph.code pixel_glyph /\
  forall ch, Glyph.char pixel_glyph = Some ch -> 0 <= ch < 65536.
Proof.
  apply (glyph_char_of_code new_BDF "font.bdf" (Some pixel_font)
           [(KNum 65, pixel_glyph)] (KNum 65) pixel_glyph).
  - reflexivity.
  - vm_compute. reflexivity.
  - apply list_elem_of_here.
Defined.

(** ** [_populate]: the bytes of a row *)

Lemma substring_pair (line : string) (c1 c2 : ascii) :
  forall n, String.get n line = Some c1 -> String.get (S n) line = Some c2 ->
            substring n 2 line = String c1 (String c2 EmptyString).
Proof.
  induction line as [|a s IH]; intros n H1 H2; [destruct n; discriminate|].
  destruct n as [|n].
  - simpl in H1. injection H1 as ->. simpl in H2.
    destruct s as [|b s']; [discriminate|]. simpl in H2. injection H2 as ->.
    simpl. now destruct s'.
  - simpl. apply IH; assumption.
Qed.

Lemma substring_past (line : string) (m : nat) :
  forall n, (String.length line <= n)%nat -> substring n m line = EmptyString.
Proof.
  induction line as [|a s IH]; intros n Hn.
  - now destruct n, m.
  - destruct n as [|n]; simpl in *; [lia|]. apply IH. lia.
Qed.

(** A hexadecimal digit is no white space, no sign and no [x]. *)
Lemma hex_digit_plain (c : ascii) (d : Z) :
  hex_digit_of c = Some d ->
  is_space c = false /\ Ascii.eqb c "-" = false /\ Ascii.eqb c "+" = false /\
  Ascii.eqb c "x" = false /\ Ascii.eqb c "X" = false /\ 0 <= d < 16.
Proof.
  destruct c as [[] [] [] [] [] [] [] []]; vm_compute; intros H; try discriminate;
    injection H as <-; repeat split; discriminate.
Qed.

Lemma parseInt16_pair (c1 c2 : ascii) (d1 d2 : Z) :
  hex_digit_of c1 = Some d1 -> hex_digit_of c2 = Some d2 ->
  parseInt16 (String c1 (String c2 EmptyString)) = Int (16 * d1 + d2).
Proof.
  intros H1 H2.
  destruct (hex_digit_plain c1 d1 H1) as (Hs & Hm & Hp & _).
  destruct (hex_digit_plain c2 d2 H2) as (_ & _ & _ & Hx & HX & _).
  unfold parseInt16. cbn [skip_ws]. rewrite Hs, Hm, Hp.
  cbn [strip_0x]. rewrite Hx, HX, andb_false_r.
  cbn [hex_prefix]. rewrite H1, H2. cbn [default from_option id]. f_equal. lia.
Qed.

Lemma lookup_row_bytes (line : string) (n k : nat) :
  (k < n)%nat ->
  row_bytes n line !! k = Some (parseInt16 (substr line (Z.of_nat k * 2) 2)).
Proof.
  induction n as [|n IH]; intros Hk; [lia|]. rewrite row_bytes_S.
  destruct (decide (k = n)) as [->|Hne].
  - rewrite lookup_app_r by (rewrite length_row_bytes; lia).
    now rewrite length_row_bytes, Nat.sub_diag.
  - rewrite lookup_app_l by (rewrite length_row_bytes; lia). apply IH. lia.
Qed.

(** The eight bits that a byte of a row has given. *)
Lemma row_bits_chunk (line : string) (n k : nat) :
  (k < n)%nat ->
  take 8 (drop (8 * k) (row_bits n line))
    = byte_bits (parseInt16 (substr line (Z.of_nat k * 2) 2)).
Proof.
  induction n as [|n IH]; intros Hk; [lia|]. rewrite row_bits_S.
  destruct (decide (k = n)) as [->|Hne].
  - rewrite drop_app_length' by (symmetry; apply length_row_bits). reflexivity.
  - rewrite drop_app_le by (rewrite length_row_bits; lia).
    rewrite take_app_le by (rewrite length_drop, length_row_bits; lia).
    apply IH. lia.
Qed.

(** X4: A row of a bitmap block is read two characters for a byte: where the
    line has two hexadecimal digits, capital or small, the byte is their
    value, between 0 and 255; where the line has ended, the byte is [NaN]
    and its eight bits are 0, and nothing is thrown. *)
Theorem bitmap_row_bytes (line : string) (n k : nat) :
  (k < n)%nat ->
  (forall c1 c2 d1 d2,
     String.get (2 * k) line = Some c1 -> String.get (2 * k + 1) line = Some c2 ->
     hex_digit_of c1 = Some d1 -> hex_digit_of c2 = Some d2 ->
     row_bytes n line !! k = Some (Int (16 * d1 + d2)) /\ 0 <= 16 * d1 + d2 < 256) /\
  ((String.length line <= 2 * k)%nat ->
     row_bytes n line !! k = Some NaN /\
     take 8 (drop (8 * k) (row_bits n line)) = [0; 0; 0; 0; 0; 0; 0; 0]).
Proof.
  intros Hk. split.
  - intros c1 c2 d1 d2 Hc1 Hc2 Hd1 Hd2. split.
    + rewrite lookup_row_bytes by exact Hk. f_equal. unfold substr.
      replace (Z.to_nat (Z.of_nat k * 2)) with (2 * k)%nat by lia.
      change (Z.to_nat 2) with 2%nat.
      rewrite (substring_pair line c1 c2 (2 * k)); [now apply parseInt16_pair|exact Hc1|].
      now replace (S (2 * k)) with (2 * k + 1)%nat by lia.
    + apply hex_digit_plain in Hd1, Hd2. lia.
  - intros Hlen.
    assert (Hnan : parseInt16 (substr line (Z.of_nat k * 2) 2) = NaN).
    { unfold substr. rewrite substring_past by lia. reflexivity. }
    split.
    + rewrite lookup_row_bytes by exact Hk. now rewrite Hnan.
    + rewrite row_bits_chunk by exact Hk. now rewrite Hnan.
Qed.

Lemma bitmap_row_bytes_witness :
  row_bytes 2 "3c" !! 0%nat = Some (Int 60) /\ row_bytes 2 "3c" !! 1%nat = Some NaN.
Proof.
  split.
  - apply (proj1 (bitmap_row_bytes "3c" 2 0 ltac:(lia)) "3"%char "c"%char 3 12); reflexivity.
  - apply (proj2 (bitmap_row_bytes "3c" 2 1 ltac:(lia))). simpl. lia.
Defined.

Lemma byte_bits_value (b : Z) :
  0 <= b < 256 -> bits_value (byte_bits (Int b)) = b.
Proof.
  intros Hb.
  assert (H : forallb (fun i => bits_value (byte_bits (Int (Z.of_nat i))) =? Z.of_nat i)
                (seq 0 256) = true) by (vm_compute; reflexivity).
  rewrite forallb_forall in H. specialize (H (Z.to_nat b)).
  rewrite Z2Nat.id in H by lia. apply Z.eqb_eq, H, in_seq. lia.
Qed.

(** X5: [bytes] and [bitmap] hold the same rows: the eight entries of a row of
    the bitmap that a byte between 0 and 255 has given write that byte,
    most significant bit first. *)
Theorem bits_write_the_byte (line : string) (n k : nat) (b : Z) :
  (k < n)%nat -> row_bytes n line !! k = Some (Int b) -> 0 <= b < 256 ->
  bits_value (take 8 (drop (8 * k) (row_bits n line))) = b.
Proof.
  intros Hk Hb Hrange. rewrite row_bits_chunk by exact Hk.
  rewrite lookup_row_bytes in Hb by exact Hk. injection Hb as ->.
  now apply byte_bits_value.
Qed.

Lemma bits_write_the_byte_witness :
  bits_value (take 8 (drop (8 * 0) (row_bits 1 "A0"))) = 160.
Proof.
  apply (bits_write_the_byte "A0" 1 0 160); [lia|reflexivity|lia].
Defined.

(** ** [_populate]: lines that declare nothing *)

Lemma declare_undeclared (rest : list string) (line : string) (st : pstate) :
  head_keyword line = None -> declare rest line st = Normal (st, 0%nat).
Proof. unfold head_keyword, declare. now intros ->. Qed.

Lemma read_lines_undeclared (fontLines : list string) (st : pstate) :
  Forall (fun line => head_keyword line = None) fontLines ->
  read_lines fontLines 0 st = (None, st).
Proof.
  induction 1 as [|line rest Hline _ IH]; [reflexivity|].
  simpl. now rewrite declare_undeclared.
Qed.

(** X6: A line that starts with white space has an empty first word, and
    declares nothing whatever follows on it; and a file, not empty, of
    which no line starts with one of the declarations of the [switch], is
    accepted: the call returns and leaves a font without metadata and
    without glyphs. *)
Theorem undeclared_lines_accepted :
  (forall c line, is_space c = true -> head_keyword (String c line) = None) /\
  (forall this path data,
     data <> EmptyString ->
     Forall (fun line => head_keyword line = None) (split_on LF data) ->
     _populate this path (Some data) = (Normal tt, mkBDF (Some Meta.empty) (Some []))).
Proof.
  split.
  - intros c line Hc. unfold head_keyword, split_ws. cbn [split_ws_from]. now rewrite Hc.
  - intros this path data Hdata Hlines. rewrite populate_truthy by exact Hdata.
    unfold populate_pass. now rewrite read_lines_undeclared.
Qed.

Lemma undeclared_lines_accepted_witness :
  head_keyword " ENDFONT" = None /\
  _populate new_BDF "font.bdf" (Some (unlines [" STARTFONT 2.1"; "startfont 2.1"; "Hello"]))
    = (Normal tt, mkBDF (Some Meta.empty) (Some [])).
Proof.
  split.
  - apply (proj1 undeclared_lines_accepted). reflexivity.
  - apply (proj2 undeclared_lines_accepted).
    + discriminate.
    + vm_compute. repeat (constructor; [reflexivity|]). constructor.
Defined.

(** ** [_populate]: declarations of a glyph outside a glyph *)

Lemma declare_without_glyph (rest : list string) (line : string) (st : pstate)
    (kw : keyword) :
  currentChar st = None -> head_keyword line = Some kw -> In kw glyph_keywords ->
  declare rest line st = Throw TypeError.
Proof.
  intros Hc Hk Hin. unfold head_keyword in Hk. unfold declare, with_currentChar.
  rewrite Hk. simpl in Hin.
  destruct Hin as [<-|[<-|[<-|[<-|[<-|[<-|[]]]]]]]; simpl; now rewrite Hc.
Qed.

Lemma declare_before_STARTCHAR (rest : list string) (line : string) (st st' : pstate)
    (k : nat) :
  currentChar st = None -> head_keyword line <> Some STARTCHAR ->
  declare rest line st = Normal (st', k) ->
  currentChar st' = None /\ k = 0%nat.
Proof.
  intros Hc Hk. unfold head_keyword in Hk.
  unfold declare, with_properties, with_currentChar.
  destruct (mbind keyword_of _) as [[]|]; simpl; rewrite ?Hc; destruct_options;
    try discriminate; try congruence;
    intros [= <- <-]; simpl; auto.
Qed.

Lemma read_lines_before_STARTCHAR (line : string) (rest : list string) (kw : keyword) :
  head_keyword line = Some kw -> In kw glyph_keywords ->
  forall pre st,
    currentChar st = None ->
    Forall (fun l => head_keyword l <> Some STARTCHAR) pre ->
    fst (read_lines (pre ++ line :: rest) 0 st) = Some TypeError.
Proof.
  intros Hk Hin pre. induction pre as [|l pre IH]; intros st Hc Hpre; simpl.
  - now rewrite (declare_without_glyph rest line st kw).
  - inversion_clear Hpre as [|? ? Hl Hpre'].
    destruct (declare (pre ++ line :: rest) l st) as [[st' k]|e] eqn:Hd; simpl.
    + destruct (declare_before_STARTCHAR _ _ _ _ _ Hc Hl Hd) as [Hc' ->]. now apply IH.
    + f_equal. eapply declare_throws; eauto.
Qed.

(** X7: A file in which [ENCODING], [SWIDTH], [DWIDTH], [BBX], [BITMAP] or
    [ENDCHAR] comes on a line before any [STARTCHAR] is not reported as a
    font that could not be parsed: [_populate] ends with a TypeError. *)
Theorem glyph_declared_before_STARTCHAR (this : BDF) (path data : string)
    (pre rest : list string) (line : string) (kw : keyword) :
  split_on LF data = pre ++ line :: rest ->
  Forall (fun l => head_keyword l <> Some STARTCHAR) pre ->
  head_keyword line = Some kw -> In kw glyph_keywords ->
  fst (_populate this path (Some data)) = Throw TypeError.
Proof.
  intros Hsplit Hpre Hk Hin.
  assert (Hdata : data <> EmptyString).
  { intros ->. simpl in Hsplit. destruct pre as [|p [|p' pre]]; simpl in Hsplit.
    - injection Hsplit as <- _. discriminate.
    - discriminate.
    - discriminate. }
  rewrite populate_truthy by exact Hdata. unfold populate_pass. rewrite Hsplit.
  pose proof (read_lines_before_STARTCHAR line rest kw Hk Hin pre
                (mkP Meta.empty [] [] None) eq_refl Hpre) as H.
  destruct (read_lines _ _ _) as [e st]. simpl in H. now subst e.
Qed.

Lemma glyph_declared_before_STARTCHAR_witness :
  fst (_populate new_BDF "font.bdf" (Some (unlines ["STARTFONT 2.1"; "ENCODING 65"; "ENDFONT"])))
    = Throw TypeError.
Proof.
  apply (glyph_declared_before_STARTCHAR new_BDF "font.bdf" _
           ["STARTFONT 2.1"] ["ENDFONT"] "ENCODING 65" ENCODING).
  - reflexivity.
  - constructor; [discriminate|constructor].
  - reflexivity.
  - simpl. tauto.
Defined.

(** ** [_populate]: declarations of a property outside the properties *)

Lemma declare_without_properties (rest : list string) (line : string) (st : pstate)
    (kw : keyword) :
  Meta.properties (this_meta st) = None -> head_keyword line = Some kw ->
  In kw property_keywords ->
  declare rest line st = Throw TypeError.
Proof.
  intros Hp Hk Hin. unfold head_keyword in Hk. unfold declare, with_properties.
  rewrite Hk. simpl in Hin.
  destruct Hin as [<-|[<-|[<-|[]]]]; simpl; now rewrite Hp.
Qed.

Lemma declare_before_STARTPROPERTIES (rest : list string) (line : string)
    (st st' : pstate) (k : nat) :
  Meta.properties (this_meta st) = None ->
  head_keyword line <> Some STARTPROPERTIES -> head_keyword line <> Some BITMAP ->
  declare rest line st = Normal (st', k) ->
  Meta.properties (this_meta st') = None /\ k = 0%nat.
Proof.
  intros Hp Hk Hb. unfold head_keyword in Hk, Hb.
  unfold declare, with_properties, with_currentChar.
  destruct (mbind keyword_of _) as [[]|]; simpl; rewrite ?Hp; destruct_options;
    try discriminate; try congruence;
    intros [= <- <-]; simpl; auto.
Qed.

Lemma read_lines_before_STARTPROPERTIES (line : string) (rest : list string)
    (kw : keyword) :
  head_keyword line = Some kw -> In kw property_keywords ->
  forall pre st,
    Meta.properties (this_meta st) = None ->
    Forall (fun l => head_keyword l <> Some STARTPROPERTIES /\
                     head_keyword l <> Some BITMAP) pre ->
    fst (read_lines (pre ++ line :: rest) 0 st) = Some TypeError.
Proof.
  intros Hk Hin pre. induction pre as [|l pre IH]; intros st Hp Hpre; simpl.
  - now rewrite (declare_without_properties rest line st kw).
  - inversion_clear Hpre as [|? ? [Hl Hb] Hpre'].
    destruct (declare (pre ++ line :: rest) l st) as [[st' k]|e] eqn:Hd; simpl.
    + destruct (declare_before_STARTPROPERTIES _ _ _ _ _ Hp Hl Hb Hd) as [Hp' ->].
      now apply IH.
    + f_equal. eapply declare_throws; eauto.
Qed.

(** X8: A file in which [FONT_DESCENT], [FONT_ASCENT] or [DEFAULT_CHAR] comes
    on a line before any [STARTPROPERTIES], and no [BITMAP] comes before
    it, is not reported as a font that could not be parsed: [_populate]
    ends with a TypeError. *)
Theorem property_declared_before_STARTPROPERTIES (this : BDF) (path data : string)
    (pre rest : list string) (line : string) (kw : keyword) :
  split_on LF data = pre ++ line :: rest ->
  Forall (fun l => head_keyword l <> Some STARTPROPERTIES /\
                   head_keyword l <> Some BITMAP) pre ->
  head_keyword line = Some kw -> In kw property_keywords ->
  fst (_populate this path (Some data)) = Throw TypeError.
Proof.
  intros Hsplit Hpre Hk Hin.
  assert (Hdata : data <> EmptyString).
  { intros ->. simpl in Hsplit. destruct pre as [|p [|p' pre]]; simpl in Hsplit.
    - injection Hsplit as <- _. discriminate.
    - discriminate.
    - discriminate. }
  rewrite populate_truthy by exact Hdata. unfold populate_pass. rewrite Hsplit.
  pose proof (read_lines_before_STARTPROPERTIES line rest kw Hk Hin pre
                (mkP Meta.empty [] [] None) eq_refl Hpre) as H.
  destruct (read_lines _ _ _) as [e st]. simpl in H. now subst e.
Qed.

Lemma property_declared_before_STARTPROPERTIES_witness :
  fst (_populate new_BDF "font.bdf"
         (Some (unlines ["STARTFONT 2.1"; "FONT_ASCENT 6"; "ENDFONT"])))
    = Throw TypeError.
Proof.
  apply (property_declared_before_STARTPROPERTIES new_BDF "font.bdf" _
           ["STARTFONT 2.1"] ["ENDFONT"] "FONT_ASCENT 6" FONT_ASCENT).
  - reflexivity.
  - constructor; [split; discriminate|constructor].
  - reflexivity.
  - simpl. tauto.
Defined.

(** ** [_populate]: [ENDCHAR] *)

Lemma obj_get_set_other {V : Type} (k k' : pkey) (v : V) (o : list (pkey * V)) :
  k' <> k -> obj_get k' (obj_set k v o) = obj_get k' o.
Proof.
  intros Hne. induction o as [|[k1 v1] o IH]; simpl.
  - now rewrite decide_False.
  - destruct (decide (k = k1)) as [->|Hk]; simpl.
    + now rewrite !decide_False by exact Hne.
    + destruct (decide (k' = k1)); [reflexivity|exact IH].
Qed.

Lemma obj_set_keys {V : Type} (k : pkey) (v : V) (o : list (pkey * V)) :
  map fst (obj_set k v o)
    = match obj_get k o with
      | Some _ => map fst o
      | None => map fst o ++ [k]
      end.
Proof.
  induction o as [|[k1 v1] o IH]; simpl; [reflexivity|].
  destruct (decide (k = k1)) as [->|Hk]; simpl; [reflexivity|].
  rewrite IH. now destruct (obj_get k o).
Qed.

(** X9: [ENDCHAR] closes a section and stores the glyph being read under the
    key of its [code], which is ["undefined"] for a glyph without
    [ENCODING]: the glyph takes the place of a glyph stored under that key
    before, or comes last when there was none; the other glyphs stay as
    they are, and no glyph is being read any more. *)
Theorem endchar_commits (rest : list string) (line : string) (st : pstate) (c : Glyph.t) :
  head_keyword line = Some ENDCHAR -> currentChar st = Some c ->
  exists st',
    declare rest line st = Normal (st', 0%nat) /\
    currentChar st' = None /\
    declarationStack st' = tail (declarationStack st) /\
    obj_get (ToPropertyKey (Glyph.code c)) (this_glyphs st') = Some c /\
    (forall k, k <> ToPropertyKey (Glyph.code c) ->
               obj_get k (this_glyphs st') = obj_get k (this_glyphs st)) /\
    map fst (this_glyphs st')
      = match obj_get (ToPropertyKey (Glyph.code c)) (this_glyphs st) with
        | Some _ => map fst (this_glyphs st)
        | None => map fst (this_glyphs st) ++ [ToPropertyKey (Glyph.code c)]
        end.
Proof.
  intros Hk Hc. unfold head_keyword in Hk. unfold declare. rewrite Hk.
  cbn [pop currentChar]. rewrite Hc. eexists. split; [reflexivity|].
  cbn [currentChar declarationStack this_glyphs set_currentChar set_glyphs].
  split; [reflexivity|]. split; [reflexivity|]. split; [apply obj_get_set|].
  split; [intros k Hne; now apply obj_get_set_other|apply obj_set_keys].
Qed.

Lemma endchar_commits_witness :
  exists st',
    declare [] "ENDCHAR" (mkP Meta.empty [(KNum 65, pixel_glyph)] [STARTCHAR]
                            (Some left_glyph)) = Normal (st', 0%nat) /\
    currentChar st' = None /\
    declarationStack st' = [] /\
    obj_get (KNum 65) (this_glyphs st') = Some left_glyph /\
    (forall k, k <> KNum 65 ->
               obj_get k (this_glyphs st') = obj_get k [(KNum 65, pixel_glyph)]) /\
    map fst (this_glyphs st') = [KNum 65].
Proof.
  exact (endchar_commits [] "ENDCHAR"
           (mkP Meta.empty [(KNum 65, pixel_glyph)] [STARTCHAR] (Some left_glyph))
           left_glyph eq_refl eq_refl).
Defined.

(** ** [_populate]: a font file written out and read again *)




































(** ** [_populate]: what holds of the table of glyphs *)

Lemma In_obj_set {V : Type} (k k' : pkey) (v : V) (o : list (pkey * V)) :
  In k' (map fst (obj_set k v o)) <-> k' = k \/ In k' (map fst o).
Proof.
  induction o as [|[k1 v1] o IH]; simpl; [intuition|].
  destruct (decide (k = k1)) as [->|Hne]; simpl; [intuition|].
  rewrite IH. intuition.
Qed.

Lemma obj_set_NoDup {V : Type} (k : pkey) (v : V) (o : list (pkey * V)) :
  List.NoDup (map fst o) -> List.NoDup (map fst (obj_set k v o)).
Proof.
  induction o as [|[k1 v1] o IH]; simpl; intros Ho.
  - constructor; [intros []|constructor].
  - inversion_clear Ho as [|? ? Hnot Hrest].
    destruct (decide (k = k1)) as [->|Hne]; simpl.
    + now constructor.
    + constructor; [|auto]. rewrite In_obj_set. intros [->|H]; tauto.
Qed.

(** A property of the table that [this.glyphs[currentChar.code] =
    currentChar] keeps holds of [glyphs] all along. *)
Section TableInvariant.

Variable Q : list (pkey * Glyph.t) -> Prop.
Hypothesis Q_empty : Q [].
Hypothesis Q_ENDCHAR :
  forall c o, Q o -> Q (obj_set (ToPropertyKey (Glyph.code c)) c o).

Lemma declare_table (rest : list string) (line : string) (st st' : pstate) (k : nat) :
  declare rest line st = Normal (st', k) -> Q (this_glyphs st) -> Q (this_glyphs st').
Proof.
  unfold declare, with_properties, with_currentChar.
  destruct (mbind keyword_of _) as [[]|]; simpl; destruct_options;
    try (intros [= <- <-]; simpl; auto; fail); try discriminate.
  destruct (decode_bitmap rest t); simpl; [|discriminate].
  intros [= <- <-]. simpl. auto.
Qed.

Lemma read_lines_table (fontLines : list string) :
  forall skip st, Q (this_glyphs st) -> Q (this_glyphs (snd (read_lines fontLines skip st))).
Proof.
  induction fontLines as [|l lines IH]; intros skip st H; simpl; [exact H|].
  destruct skip; [|apply IH; exact H].
  destruct (declare lines l st) as [[st2 k]|x] eqn:Hd; [|exact H].
  apply IH. eapply declare_table; eauto.
Qed.

Lemma populate_table (this : BDF) (path : string) (data : option string)
    (table : list (pkey * Glyph.t)) :
  falsy data = false ->
  glyphs (snd (_populate this path data)) = Some table ->
  Q table.
Proof.
  intros Hf. destruct data as [s|]; [|discriminate].
  assert (Hs : s <> EmptyString) by (intros ->; discriminate).
  rewrite populate_truthy by exact Hs.
  pose proof (read_lines_table (split_on LF s) 0 (mkP Meta.empty [] [] None) Q_empty) as Hinv.
  fold (populate_pass s) in Hinv.
  destruct (populate_pass s) as [e st]. simpl in Hinv.
  destruct e as [e|]; [|destruct (declarationStack st)]; simpl; intros [= <-]; exact Hinv.
Qed.

End TableInvariant.

Lemma populate_keyed (this : BDF) (path : string) (data : option string)
    (table : list (pkey * Glyph.t)) :
  falsy data = false ->
  glyphs (snd (_populate this path data)) = Some table ->
  keyed_by_code table.
Proof.
  apply (populate_table keyed_by_code); [constructor|].
  intros c o Ho. now apply obj_set_keyed.
Qed.

Lemma populate_NoDup (this : BDF) (path : string) (data : option string)
    (table : list (pkey * Glyph.t)) :
  falsy data = false ->
  glyphs (snd (_populate this path data)) = Some table ->
  List.NoDup (map fst table).
Proof.
  apply (populate_table (fun o => List.NoDup (map fst o))); [constructor|].
  intros c o Ho. now apply obj_set_NoDup.
Qed.

(** ** [toString] *)

Lemma foldl_snoc_map {A B : Type} (f : A -> B) (l : list A) :
  forall init, foldl (fun text x => text ++ [f x]) init l = init ++ map f l.
Proof.
  induction l as [|x l IH]; intros init; simpl; [now rewrite app_nil_r|].
  rewrite IH, <- app_assoc. reflexivity.
Qed.

Lemma toString_map (this : BDF) (table : list (pkey * Glyph.t)) :
  glyphs this = Some table ->
  toString this = map (fun k => fromCharCode (key_to_number k)) (Object_keys table).
Proof.
  intros H. unfold toString. rewrite H.
  exact (foldl_snoc_map (fun k => fromCharCode (key_to_number k)) _ []).
Qed.

Lemma length_insert_sorted (z : Z) (l : list Z) :
  length (insert_sorted z l) = S (length l).
Proof.
  induction l as [|y l IH]; simpl; [reflexivity|].
  destruct (z <=? y); simpl; [reflexivity|]. now rewrite IH.
Qed.

Lemma length_sorted (l : list Z) : length (fold_right insert_sorted [] l) = length l.
Proof.
  induction l as [|y l IH]; simpl; [reflexivity|]. now rewrite length_insert_sorted, IH.
Qed.

Lemma length_filter_index (ks : list pkey) :
  (length (filter (fun k => is_array_index k = true) ks)
   + length (filter (fun k => is_array_index k = false) ks))%nat = length ks.
Proof.
  induction ks as [|k ks IH]; [reflexivity|]. rewrite !filter_cons.
  destruct (is_array_index k) eqn:Hk.
  - rewrite decide_True by reflexivity. rewrite decide_False by discriminate. simpl. lia.
  - rewrite decide_False by discriminate. rewrite decide_True by reflexivity. simpl. lia.
Qed.

(** [Object.keys] has one key for each property. *)
Lemma length_Object_keys {V : Type} (o : list (pkey * V)) :
  length (Object_keys o) = length o.
Proof.
  unfold Object_keys. rewrite List.length_app, !List.length_map, length_sorted.
  rewrite List.length_map, length_filter_index. apply List.length_map.
Qed.

(** X11: [toString()] on an instance that has loaded nothing is the empty
    string; after [_populate] has run on a file that is not empty, it has
    one code unit for each glyph, in the order of the keys of [glyphs],
    that is the [char] of the glyph under the key, or the code unit 0 for
    a glyph that has none. *)
Theorem toString_chars (this : BDF) (path : string) (data : option string)
    (table : list (pkey * Glyph.t)) :
  toString new_BDF = [] /\
  (falsy data = false ->
   glyphs (snd (_populate this path data)) = Some table ->
   toString (snd (_populate this path data))
     = map (fun k => default 0 (obj_get k table ≫= Glyph.char)) (Object_keys table) /\
   length (toString (snd (_populate this path data))) = length table).
Proof.
  split; [reflexivity|]. intros Hf Ht.
  rewrite (toString_map _ table Ht). split.
  - apply map_ext_in. intros k Hk.
    apply Object_keys_In, obj_get_In in Hk. destruct Hk as [g Hg]. rewrite Hg. simpl.
    apply obj_get_elem_of in Hg.
    pose proof (populate_keyed this path data table Hf Ht) as Hkeyed.
    pose proof (populate_char_of_code this path data table Hf Ht) as Hchar.
    unfold keyed_by_code in Hkeyed. rewrite Forall_forall in Hkeyed, Hchar.
    specialize (Hkeyed _ Hg). specialize (Hchar _ Hg). simpl in Hkeyed, Hchar.
    rewrite Hchar, Hkeyed. now destruct (Glyph.code g) as [[|z]|].
  - now rewrite List.length_map, length_Object_keys.
Qed.

Lemma toString_chars_witness :
  toString (loaded pixel_font) = [65] /\ length (toString (loaded pixel_font)) = 1%nat.
Proof.
  apply (proj2 (toString_chars new_BDF "font.bdf" (Some pixel_font)
                  [(KNum 65, pixel_glyph)])).
  - reflexivity.
  - vm_compute. reflexivity.
Defined.

Lemma filter_index_all (ks : list pkey) :
  Forall (fun k => is_array_index k = true) ks ->
  filter (fun k => is_array_index k = true) ks = ks /\
  filter (fun k => is_array_index k = false) ks = [].
Proof.
  induction 1 as [|k ks Hk _ [IH1 IH2]]; [split; reflexivity|].
  rewrite !filter_cons, decide_True by exact Hk.
  rewrite decide_False by (rewrite Hk; discriminate). now rewrite IH1, IH2.
Qed.

Lemma insert_sorted_lt (z : Z) (l : list Z) :
  StronglySorted Z.lt l -> ~ In z l -> StronglySorted Z.lt (insert_sorted z l).
Proof.
  induction l as [|y l IH]; simpl; intros Hs Hz.
  - repeat constructor.
  - assert (Hzy : z <> y) by (intros ->; apply Hz; now left).
    assert (Hzl : ~ In z l) by (intros H; apply Hz; now right).
    inversion_clear Hs as [|? ? Hl Hy]. rewrite Forall_forall in Hy.
    destruct (z <=? y) eqn:Hle.
    + apply Z.leb_le in Hle.
      constructor; [constructor; [exact Hl|now apply Forall_forall]|].
      constructor; [lia|]. apply Forall_forall. intros x Hx. specialize (Hy x Hx). lia.
    + apply Z.leb_gt in Hle. constructor; [now apply IH|].
      apply Forall_forall. intros x Hx. apply list_elem_of_In, In_insert_sorted in Hx.
      destruct Hx as [->|Hx]; [lia|]. apply Hy. now apply list_elem_of_In.
Qed.

Lemma sorted_lt (l : list Z) :
  List.NoDup l -> StronglySorted Z.lt (fold_right insert_sorted [] l).
Proof.
  induction 1 as [|z l Hz _ IH]; simpl; [constructor|].
  apply insert_sorted_lt; [exact IH|]. now rewrite In_sorted.
Qed.

Lemma NoDup_map_index (ks : list pkey) :
  (forall k, In k ks -> exists z, k = KNum z) ->
  List.NoDup ks -> List.NoDup (map index_of ks).
Proof.
  intros Hks. induction 1 as [|k ks Hk _ IH]; simpl; [constructor|].
  constructor; [|apply IH; intros k' Hk'; apply Hks; now right].
  rewrite in_map_iff. intros (k' & Heq & Hk').
  destruct (Hks k (or_introl eq_refl)) as (z & ->).
  destruct (Hks k' (or_intror Hk')) as (z' & ->). simpl in Heq. now subst.
Qed.

(** X12: After [_populate] has run on a file that is not empty, when the codes
    of all the glyphs are integers from 0 to 65535: [toString()] lists
    these codes in strictly ascending order, whatever the order of the
    glyphs in the file, each code once. *)
Theorem toString_ascending (this : BDF) (path : string) (data : option string)
    (table : list (pkey * Glyph.t)) :
  falsy data = false ->
  glyphs (snd (_populate this path data)) = Some table ->
  (forall k g, (k, g) ∈ table ->
     exists z, Glyph.code g = Some (Int z) /\ 0 <= z < 65536) ->
  StronglySorted Z.lt (toString (snd (_populate this path data))) /\
  forall z, In z (toString (snd (_populate this path data)))
            <-> exists g, (KNum z, g) ∈ table.
Proof.
  intros Hf Ht Hcodes. rewrite (toString_map _ table Ht).
  pose proof (populate_keyed this path data table Hf Ht) as Hkeyed.
  pose proof (populate_NoDup this path data table Hf Ht) as Hnodup.
  unfold keyed_by_code in Hkeyed. rewrite Forall_forall in Hkeyed.
  assert (Hkeys : forall k, In k (map fst table) ->
                            exists z, k = KNum z /\ 0 <= z < 65536).
  { intros k Hk. apply in_map_iff in Hk. destruct Hk as ([k' g] & <- & Hin).
    apply list_elem_of_In in Hin. destruct (Hcodes _ _ Hin) as (z & Hz & Hrange).
    exists z. split; [|exact Hrange]. rewrite (Hkeyed _ Hin). simpl. now rewrite Hz. }
  destruct (filter_index_all (map fst table)) as [Hall Hnone].
  { apply Forall_forall. intros k Hk. apply list_elem_of_In, Hkeys in Hk.
    destruct Hk as (z & -> & Hz). simpl. apply andb_true_iff.
    rewrite Z.leb_le, Z.ltb_lt. lia. }
  unfold Object_keys. rewrite Hall, Hnone, app_nil_r, List.map_map.
  set (codes := map index_of (map fst table)).
  assert (Hid : map (fun z => fromCharCode (key_to_number (KNum z)))
                    (fold_right insert_sorted [] codes)
                = fold_right insert_sorted [] codes).
  { rewrite <- (map_id (fold_right insert_sorted [] codes)) at 2.
    apply map_ext_in. intros z Hz. rewrite In_sorted in Hz. unfold codes in Hz.
    apply in_map_iff in Hz. destruct Hz as (k & <- & Hk).
    destruct (Hkeys k Hk) as (z & -> & Hz). simpl. apply Z.mod_small. lia. }
  rewrite Hid. split.
  - apply sorted_lt. unfold codes. apply NoDup_map_index; [|exact Hnodup].
    intros k Hk. destruct (Hkeys k Hk) as (z & -> & _). eauto.
  - intros z. rewrite In_sorted. unfold codes. rewrite in_map_iff. split.
    + intros (k & <- & Hk). destruct (Hkeys k Hk) as (z & -> & _). simpl.
      apply in_map_iff in Hk. destruct Hk as ([k' g] & Hk' & Hin). simpl in Hk'. subst k'.
      exists g. now apply list_elem_of_In.
    + intros (g & Hg). exists (KNum z). split; [reflexivity|].
      apply in_map_iff. exists (KNum z, g). split; [reflexivity|]. now apply list_elem_of_In.
Qed.

Lemma toString_ascending_witness :
  StronglySorted Z.lt (toString (loaded unordered_font)) /\
  forall z, In z (toString (loaded unordered_font))
            <-> exists g, (KNum z, g) ∈ default [] (glyphs (loaded unordered_font)).
Proof.
  apply (toString_ascending new_BDF "font.bdf" (Some unordered_font)
           (default [] (glyphs (loaded unordered_font)))).
  - reflexivity.
  - vm_compute. reflexivity.
  - intros k g Hin. vm_compute in Hin. apply list_elem_of_In in Hin. simpl in Hin.
    destruct Hin as [[= <- <-]|[[= <- <-]|[]]]; eexists; (split; [reflexivity|lia]).
Defined.

(** ** [load] and [loadSync] *)

(** X13: [load] never passes an error to its callback: the callback is
    scheduled only after [_populate] has returned, and with no error; when
    the file could not be read, the function handed to [fs.readFile] ends
    on the string that [_populate] throws for missing data, the instance is
    left as it was and the callback is not scheduled. *)
Theorem load_reports_no_error {E : Type} (readFile : string -> option E * option string)
    (this : BDF) (path : string) :
  readFile_outcome (readFile path) ->
  (forall arg, fst (load readFile this path) = Normal arg ->
               arg = None /\ fst (readFile path) = None /\
               fst (_populate this path (snd (readFile path))) = Normal tt) /\
  (is_Some (fst (readFile path)) ->
   load readFile this path
     = (Throw (ThrowString ("Couldn't understand this font: " ++ path)), this)).
Proof.
  unfold load, readFile_outcome. destruct (readFile path) as [err data]. simpl.
  intros Hread. split.
  - intros arg. destruct (_populate this path data) as [[[]|e] this'] eqn:Hp; simpl;
      [|discriminate].
    intros [= <-]. destruct Hread as [[-> _]|[_ ->]]; [auto|].
    rewrite populate_falsy in Hp by reflexivity. discriminate.
  - intros Herr. destruct Hread as [[-> _]|[_ ->]].
    + destruct Herr; discriminate.
    + now rewrite populate_falsy by reflexivity.
Qed.

Lemma load_reports_no_error_witness :
  load (fun _ => (Some "ENOENT", None)) new_BDF "font.bdf"
    = (Throw (ThrowString "Couldn't understand this font: font.bdf"), new_BDF).
Proof.
  refine (proj2 (load_reports_no_error (fun _ => (Some "ENOENT", None)) new_BDF
                   "font.bdf" _) _).
  - right. split; [eexists; reflexivity|reflexivity].
  - eexists. reflexivity.
Defined.

(** X14: [loadSync] on a file that cannot be read lets the error of the file
    system through and leaves the instance as it was; on an empty file it
    throws the string of a font not understood and leaves the instance as
    it was; on any other file it replaces [meta] and [glyphs], whether it
    returns or throws, by objects that owe nothing to the font that the
    instance held before. *)
Theorem loadSync_replaces_the_font {E : Type} (readFileSync : string -> E + string)
    (path : string) :
  (forall this e, readFileSync path = inl e ->
     loadSync readFileSync this path = (inl e, this)) /\
  (forall this, readFileSync path = inr EmptyString ->
     loadSync readFileSync this path
       = (inr (Throw (ThrowString ("Couldn't understand this font: " ++ path))), this)) /\
  (forall data, readFileSync path = inr data -> data <> EmptyString ->
     exists r m g, forall this,
       loadSync readFileSync this path = (inr r, mkBDF (Some m) (Some g))).
Proof.
  split; [|split].
  - intros this e He. unfold loadSync. now rewrite He.
  - intros this He. unfold loadSync. now rewrite He.
  - intros data Hd Hne. unfold loadSync. rewrite Hd.
    destruct (_populate new_BDF path (Some data)) as [r this'] eqn:Hp.
    rewrite populate_truthy in Hp by exact Hne.
    exists r, (this_meta (snd (populate_pass data))),
           (this_glyphs (snd (populate_pass data))).
    intros this. rewrite populate_truthy by exact Hne.
    destruct (populate_pass data) as [[e|] st]; simpl in *.
    + now injection Hp as <- _.
    + destruct (declarationStack st); now injection Hp as <- _.
Qed.

Lemma loadSync_replaces_the_font_witness :
  exists r m g, forall this,
    loadSync (fun _ => inr open_font : unit + string) this "font.bdf"
      = (inr r, mkBDF (Some m) (Some g)).
Proof.
  apply (proj2 (proj2 (loadSync_replaces_the_font
                         (fun _ => inr open_font : unit + string) "font.bdf")) open_font).
  - reflexivity.
  - discriminate.
Defined.

(** ** [writeText]: the canvas returned *)

(** [write_char] keeps the height and the rows. *)
Lemma write_char_canvas (this : BDF) (height baseline kerningBias : num) (charCode : Z)
    (s s' : Bitmap.t * num) :
  write_char this height baseline kerningBias charCode s = Normal s' ->
  Bitmap.height (fst s') = Bitmap.height (fst s) /\
  forall r, is_Some (Bitmap.rows (fst s') !! r) <-> is_Some (Bitmap.rows (fst s) !! r).
Proof.
  unfold write_char. destruct s as [b xpos].
  destruct (resolve_glyph this charCode) as [gd|]; simpl; [|discriminate].
  destruct (gd ≫= _) as [[g box]|]; [|discriminate].
  destruct (num_lt _ _);
    (destruct (extend _ _ b) as [b1|] eqn:He; simpl; [|discriminate];
     destruct (draw _ _ _ _ _) as [b2|] eqn:Hd; simpl; [|discriminate];
     intros [= <-]; simpl; apply extend_frame in He; apply draw_frame in Hd;
     destruct He as (_ & Heh & He); destruct Hd as (_ & Hdh & Hd);
     split; [rewrite Hdh; simpl; exact Heh|intros r; rewrite Hd; simpl; apply He]).
Qed.

Lemma write_chars_canvas (this : BDF) (height baseline kerningBias : num) (text : string) :
  forall s s',
    write_chars this height baseline kerningBias text s = Normal s' ->
    Bitmap.height (fst s') = Bitmap.height (fst s) /\
    forall r, is_Some (Bitmap.rows (fst s') !! r) <-> is_Some (Bitmap.rows (fst s) !! r).
Proof.
  induction text as [|c text IH]; intros s s'; simpl.
  - intros [= <-]. split; [reflexivity|tauto].
  - destruct (write_char _ _ _ _ _ s) as [s1|] eqn:Hc; simpl; [|discriminate].
    intros Hw. apply write_char_canvas in Hc. apply IH in Hw.
    destruct Hc as [Hh1 Hr1], Hw as [Hh2 Hr2]. split; [congruence|].
    intros r. rewrite Hr2. apply Hr1.
Qed.

Lemma new_bitmap_canvas (fbox : BoundingBox.t) :
  canvas_of fbox (new_bitmap (BoundingBox.height fbox)).
Proof.
  destruct (new_bitmap_spec (BoundingBox.height fbox)) as (_ & Hh & Hr).
  split; [exact Hh|]. intros r. rewrite Hr. case_decide; split; eauto; try tauto.
  intros [? ?]. discriminate.
Qed.

Lemma write_pass_canvas (this : BDF) (text : string) (opts : options)
    (_bitmap : option Bitmap.t) (fbox : BoundingBox.t) (b : Bitmap.t) :
  meta this ≫= Meta.boundingBox = Some fbox ->
  (forall b0, _bitmap = Some b0 -> canvas_of fbox b0) ->
  write_pass this text opts _bitmap = Normal b -> canvas_of fbox b.
Proof.
  intros Hbox Hb0. unfold write_pass, font_boundingBox. rewrite Hbox.
  cbn [mbind result_bind].
  destruct (write_chars _ _ _ _ _ _) as [s|] eqn:Hw; simpl; [|discriminate].
  intros [= <-]. apply write_chars_canvas in Hw. simpl in Hw. destruct Hw as [Hh Hr].
  assert (Hstart : canvas_of fbox (match _bitmap with
                                   | Some b0 => b0
                                   | None => new_bitmap (BoundingBox.height fbox)
                                   end)).
  { destruct _bitmap as [b0|]; [now apply Hb0|apply new_bitmap_canvas]. }
  destruct Hstart as [Hh0 Hr0]. split; [congruence|].
  intros r. rewrite Hr. apply Hr0.
Qed.

Lemma writeText_calls_canvas (this : BDF) (text : string) (fbox : BoundingBox.t) :
  meta this ≫= Meta.boundingBox = Some fbox ->
  forall calls opts _bitmap b,
    (forall b0, _bitmap = Some b0 -> canvas_of fbox b0) ->
    fst (writeText_calls calls this text opts _bitmap) = Normal b ->
    canvas_of fbox b.
Proof.
  intros Hbox. induction calls as [|calls IH]; intros opts _bitmap b Hb0;
    cbn [writeText_calls];
    destruct (write_pass this text opts _bitmap) as [b1|] eqn:Hp; try discriminate;
    apply (write_pass_canvas _ _ _ _ fbox _ Hbox Hb0) in Hp;
    destruct (num_lt _ _); simpl; try discriminate; try (now intros [= <-]).
  apply IH. now intros b0 [= <-].
Qed.

(** X15: The bitmap that [writeText] returns, whatever the text and the
    options, has the [height] of the bounding box of the font and a row
    under each of the keys [0 .. height - 1], and under no other key. *)
Theorem writeText_canvas (this : BDF) (text : string) (opts : option options)
    (b : Bitmap.t) :
  fst (writeText this text opts None) = Normal b ->
  exists fbox,
    meta this ≫= Meta.boundingBox = Some fbox /\
    Bitmap.height b = BoundingBox.height fbox /\
    forall r, is_Some (Bitmap.rows b !! r)
              <-> 0 <= r < Z.of_nat (iterations (BoundingBox.height fbox)).
Proof.
  intros Hw. destruct (meta this ≫= Meta.boundingBox) as [fbox|] eqn:Hbox.
  - exists fbox. split; [reflexivity|].
    unfold writeText, writeText_on in Hw.
    eapply (writeText_calls_canvas this text fbox Hbox); [|exact Hw]. discriminate.
  - exfalso. unfold writeText, writeText_on in Hw. revert Hw.
    generalize (iterations (or_zero (textRepeat (default (mkOptions None None) opts)))).
    intros calls. destruct calls; cbn [writeText_calls];
      unfold write_pass, font_boundingBox; rewrite Hbox; discriminate.
Qed.

Lemma writeText_canvas_witness :
  exists fbox,
    meta (loaded font_4x6) ≫= Meta.boundingBox = Some fbox /\
    Bitmap.height (bitmap_of (fst (writeText (loaded font_4x6) "AA" None None)))
      = BoundingBox.height fbox /\
    forall r, is_Some (Bitmap.rows
                         (bitmap_of (fst (writeText (loaded font_4x6) "AA" None None))) !! r)
              <-> 0 <= r < Z.of_nat (iterations (BoundingBox.height fbox)).
Proof.
  apply (writeText_canvas (loaded font_4x6) "AA" None). vm_compute. reflexivity.
Defined.

(** ** [writeText]: the elements of the rows *)

Lemma lor_bit (a b : Z) : is_bit a -> is_bit b -> is_bit (Z.lor a b).
Proof. intros [->| ->] [->| ->]; vm_compute; auto. Qed.

Lemma clear_cell_bits (row column : num) (b b' : Bitmap.t) :
  bits_only b -> clear_cell row column b = Normal b' -> bits_only b'.
Proof.
  intros Hb. unfold clear_cell. destruct row as [|r]; [discriminate|]. simpl.
  destruct (Bitmap.rows b !! r) as [a|] eqn:Ha; [|discriminate].
  intros [= <-] r' c v. rewrite cell_set_row by exact Ha.
  case_decide; [intros [= <-]; now left|apply Hb].
Qed.

Lemma or_cell_bits (row column : num) (v : option Z) (b b' : Bitmap.t) :
  bits_only b -> (forall x, v = Some x -> is_bit x) ->
  or_cell row column v b = Normal b' -> bits_only b'.
Proof.
  intros Hb Hv. unfold or_cell. destruct row as [|r]; [discriminate|]. simpl.
  destruct (Bitmap.rows b !! r) as [a|] eqn:Ha; [|discriminate].
  intros [= <-] r' c x. rewrite cell_set_row by exact Ha.
  case_decide; [|apply Hb]. intros [= <-]. apply lor_bit.
  - destruct (JSArray.get column a) as [old|] eqn:Hold; simpl; [|now left].
    apply (Hb r column old). unfold cell. now rewrite Ha.
  - destruct v as [x|]; simpl; [now apply Hv|now left].
Qed.

Lemma extend_bits (height columnsToAdd : num) (b b' : Bitmap.t) :
  bits_only b -> extend height columnsToAdd b = Normal b' -> bits_only b'.
Proof.
  unfold extend, for_lt. intros Hb. apply (for_from_preserves bits_only); [|exact Hb].
  intros row b1 b2 H1. apply (for_from_preserves bits_only); [|exact H1].
  intros j b3 b4 H3. now apply clear_cell_bits.
Qed.

Lemma draw_bits (g : Glyph.t) (box : BoundingBox.t) (rowStart xpos : num) (b b' : Bitmap.t) :
  Forall (Forall is_bit) (Glyph.bitmap g) ->
  bits_only b -> draw g box rowStart xpos b = Normal b' -> bits_only b'.
Proof.
  unfold draw, for_lt. intros Hg Hb. apply (for_from_preserves bits_only); [|exact Hb].
  intros y b1 b2 H1. apply (for_from_preserves bits_only); [|exact H1].
  intros x b3 b4 H3. unfold glyph_bit.
  destruct (Glyph.bitmap g !! Z.to_nat y) as [grow|] eqn:Hrow; simpl; [|discriminate].
  apply or_cell_bits; [exact H3|]. intros v Hv.
  rewrite Forall_forall in Hg. specialize (Hg grow (list_elem_of_lookup_2 _ _ _ Hrow)).
  rewrite Forall_forall in Hg. apply Hg. eapply list_elem_of_lookup_2; eauto.
Qed.

(** The glyph that stands for a character is a glyph of the font. *)
Lemma resolve_glyph_elem (this : BDF) (charCode : Z) (g : Glyph.t) :
  resolve_glyph this charCode = Normal (Some g) ->
  exists table k, glyphs this = Some table /\ (k, g) ∈ table.
Proof.
  unfold resolve_glyph, glyph_at, get_defaultChar, first_glyph.
  destruct (glyphs this) as [table|]; simpl; [|discriminate].
  intros H. exists table.
  destruct (obj_get (KNum charCode) table) as [g1|] eqn:H1; simpl in H.
  { injection H as <-. eexists. split; [reflexivity|]. eapply obj_get_elem_of; eauto. }
  destruct (meta this) as [m|]; simpl in H; [|discriminate].
  destruct (Meta.properties m) as [p|]; simpl in H; [|discriminate].
  destruct (obj_get (ToPropertyKey (Properties.defaultChar p)) table) as [g2|] eqn:H2;
    simpl in H.
  { injection H as <-. eexists. split; [reflexivity|]. eapply obj_get_elem_of; eauto. }
  destruct (obj_get (KNum (code_of "?")) table) as [g3|] eqn:H3; simpl in H.
  { injection H as <-. eexists. split; [reflexivity|]. eapply obj_get_elem_of; eauto. }
  injection H as H. eexists. split; [reflexivity|]. eapply obj_get_elem_of; eauto.
Qed.

Section Bits.

Variables (this : BDF) (table : list (pkey * Glyph.t)).
Hypothesis Hglyphs : glyphs this = Some table.
Hypothesis Hbits : Forall (fun kv => Forall (Forall is_bit) (Glyph.bitmap (snd kv))) table.

Lemma write_char_bits (height baseline kerningBias : num) (charCode : Z)
    (s s' : Bitmap.t * num) :
  bits_only (fst s) ->
  write_char this height baseline kerningBias charCode s = Normal s' ->
  bits_only (fst s').
Proof.
  intros Hs. unfold write_char. destruct s as [b xpos]. simpl in Hs.
  destruct (resolve_glyph this charCode) as [[g|]|] eqn:Hr; simpl; try discriminate.
  destruct (Glyph.boundingBox g) as [box|]; simpl; [|discriminate].
  apply resolve_glyph_elem in Hr. destruct Hr as (table' & k & Ht & Hin).
  rewrite Hglyphs in Ht. injection Ht as <-.
  rewrite Forall_forall in Hbits. specialize (Hbits _ Hin). simpl in Hbits.
  destruct (num_lt _ _);
    (destruct (extend _ _ b) as [b1|] eqn:He; simpl; [|discriminate];
     destruct (draw _ _ _ _ _) as [b2|] eqn:Hd; simpl; [|discriminate];
     intros [= <-]; simpl; apply extend_bits in He; [|exact Hs];
     eapply draw_bits; [exact Hbits| |exact Hd]; exact He).
Qed.

Lemma write_chars_bits (height baseline kerningBias : num) (text : string) :
  forall s s',
    bits_only (fst s) ->
    write_chars this height baseline kerningBias text s = Normal s' ->
    bits_only (fst s').
Proof.
  induction text as [|c text IH]; intros s s' Hs; simpl.
  - now intros [= <-].
  - destruct (write_char _ _ _ _ _ s) as [s1|] eqn:Hc; simpl; [|discriminate].
    apply IH. eapply write_char_bits; eauto.
Qed.

Lemma new_bitmap_bits (height : num) : bits_only (new_bitmap height).
Proof.
  intros r c v. unfold cell. destruct (new_bitmap_spec height) as (_ & _ & Hr).
  rewrite Hr. case_decide; simpl; [|discriminate].
  unfold JSArray.get. simpl. rewrite lookup_empty. discriminate.
Qed.

Lemma write_pass_bits (text : string) (opts : options) (_bitmap : option Bitmap.t)
    (b : Bitmap.t) :
  (forall b0, _bitmap = Some b0 -> bits_only b0) ->
  write_pass this text opts _bitmap = Normal b -> bits_only b.
Proof.
  intros Hb0. unfold write_pass.
  destruct (font_boundingBox this) as [fbox|]; simpl; [|discriminate].
  destruct (write_chars _ _ _ _ _ _) as [s|] eqn:Hw; simpl; [|discriminate].
  intros [= <-]. eapply write_chars_bits; [|exact Hw]. simpl.
  destruct _bitmap as [b0|]; [now apply Hb0|apply new_bitmap_bits].
Qed.

Lemma writeText_calls_bits (text : string) :
  forall calls opts _bitmap b,
    (forall b0, _bitmap = Some b0 -> bits_only b0) ->
    fst (writeText_calls calls this text opts _bitmap) = Normal b ->
    bits_only b.
Proof.
  induction calls as [|calls IH]; intros opts _bitmap b Hb0;
    cbn [writeText_calls];
    destruct (write_pass this text opts _bitmap) as [b1|] eqn:Hp; try discriminate;
    apply (write_pass_bits _ _ _ _ Hb0) in Hp;
    destruct (num_lt _ _); simpl; try discriminate; try (now intros [= <-]).
  apply IH. now intros b0 [= <-].
Qed.

End Bits.

(** X16: On a font that [_populate] has read from a file that is not empty,
    whatever the file, the text and the options: every element of every
    row of the bitmap that [writeText] returns is 0 or 1. *)
Theorem writeText_bits (this : BDF) (path : string) (data : option string)
    (text : string) (opts : option options) (b : Bitmap.t) (r : Z) (c : num) (v : Z) :
  falsy data = false ->
  fst (writeText (snd (_populate this path data)) text opts None) = Normal b ->
  cell b r c = Some v -> v = 0 \/ v = 1.
Proof.
  intros Hf Hw. set (this' := snd (_populate this path data)) in *.
  destruct (glyphs this') as [table|] eqn:Ht.
  - revert r c v.
    apply (writeText_calls_bits this' table Ht) with (text := text)
      (calls := iterations (or_zero (textRepeat (default (mkOptions None None) opts))))
      (opts := default (mkOptions None None) opts) (_bitmap := None);
      [|discriminate|exact Hw].
    pose proof (populate_whole_bytes this path data table Hf Ht) as Hwb.
    eapply Forall_impl; [exact Hwb|]. intros [k g] Hg. simpl in *.
    eapply Forall_impl; [exact Hg|]. now intros row [_ Hrow].
  - exfalso. unfold this' in Ht. destruct data as [s|]; [|discriminate].
    rewrite populate_truthy in Ht by (intros ->; discriminate).
    destruct (populate_pass s) as [[e|] st]; [discriminate|].
    destruct (declarationStack st); discriminate.
Qed.

Lemma writeText_bits_witness :
  cell (bitmap_of (fst (writeText (loaded font_4x6) "A" None None))) 0 (Int 1) = Some 1 /\
  (1 = 0 \/ 1 = 1).
Proof.
  split; [vm_compute; reflexivity|].
  apply (writeText_bits new_BDF "font.bdf" (Some font_4x6) "A" None
           (bitmap_of (fst (writeText (loaded font_4x6) "A" None None))) 0 (Int 1) 1).
  - reflexivity.
  - vm_compute. reflexivity.
  - vm_compute. reflexivity.
Defined.

(** ** [writeText]: what the kerning bias does not change *)

Lemma same_frame_sym (b1 b2 : Bitmap.t) : same_frame b1 b2 -> same_frame b2 b1.
Proof.
  intros (Hw & Hh & Hr). repeat split; try congruence; intros H; now apply Hr.
Qed.

Lemma rel_outcome_bind {A B A' B' : Type} (R : A -> B -> Prop) (R' : A' -> B' -> Prop)
    (r1 : result A) (r2 : result B) (k1 : A -> result A') (k2 : B -> result B') :
  rel_outcome R r1 r2 ->
  (forall a b, R a b -> rel_outcome R' (k1 a) (k2 b)) ->
  rel_outcome R' (r1 ≫= k1) (r2 ≫= k2).
Proof.
  destruct r1 as [a|e1], r2 as [b|e2]; simpl; intros H Hk; try contradiction; auto.
Qed.

(** Two loops whose bodies keep two states related end alike. *)
Lemma for_from_rel {S1 S2 : Type} (R : S1 -> S2 -> Prop)
    (body1 : Z -> S1 -> result S1) (body2 : Z -> S2 -> result S2) :
  (forall j s1 s2, R s1 s2 -> rel_outcome R (body1 j s1) (body2 j s2)) ->
  forall count i s1 s2,
    R s1 s2 -> rel_outcome R (for_from count i body1 s1) (for_from count i body2 s2).
Proof.
  intros Hbody. induction count as [|count IH]; intros i s1 s2 Hs; simpl; [exact Hs|].
  apply (rel_outcome_bind R R); [now apply Hbody|]. intros a b Hab. now apply IH.
Qed.

Lemma set_row_same_frame (b1 b2 : Bitmap.t) (r : Z) (a1 a2 a1' a2' : JSArray.t) :
  same_frame b1 b2 ->
  Bitmap.rows b1 !! r = Some a1 -> Bitmap.rows b2 !! r = Some a2 ->
  same_frame (Bitmap.set_row r a1' b1) (Bitmap.set_row r a2' b2).
Proof.
  intros H12 H1 H2. eapply same_frame_trans; [|eapply set_row_frame; exact H2].
  eapply same_frame_trans; [|exact H12].
  apply same_frame_sym. eapply set_row_frame; exact H1.
Qed.

Lemma clear_cell_rel (row c1 c2 : num) (b1 b2 : Bitmap.t) :
  same_frame b1 b2 ->
  rel_outcome same_frame (clear_cell row c1 b1) (clear_cell row c2 b2).
Proof.
  intros H12. unfold clear_cell. destruct row as [|r]; [reflexivity|]. simpl.
  destruct H12 as (Hw & Hh & Hr).
  destruct (Bitmap.rows b1 !! r) as [a1|] eqn:H1, (Bitmap.rows b2 !! r) as [a2|] eqn:H2;
    simpl.
  - eapply set_row_same_frame; eauto. repeat split; auto; apply Hr.
  - assert (H : is_Some (Bitmap.rows b2 !! r)) by (apply Hr; eauto).
    rewrite H2 in H. destruct H; discriminate.
  - assert (H : is_Some (Bitmap.rows b1 !! r)) by (apply Hr; eauto).
    rewrite H1 in H. destruct H; discriminate.
  - reflexivity.
Qed.

Lemma or_cell_rel (row c1 c2 : num) (v : option Z) (b1 b2 : Bitmap.t) :
  same_frame b1 b2 ->
  rel_outcome same_frame (or_cell row c1 v b1) (or_cell row c2 v b2).
Proof.
  intros H12. unfold or_cell. destruct row as [|r]; [reflexivity|]. simpl.
  destruct H12 as (Hw & Hh & Hr).
  destruct (Bitmap.rows b1 !! r) as [a1|] eqn:H1, (Bitmap.rows b2 !! r) as [a2|] eqn:H2;
    simpl.
  - eapply set_row_same_frame; eauto. repeat split; auto; apply Hr.
  - assert (H : is_Some (Bitmap.rows b2 !! r)) by (apply Hr; eauto).
    rewrite H2 in H. destruct H; discriminate.
  - assert (H : is_Some (Bitmap.rows b1 !! r)) by (apply Hr; eauto).
    rewrite H1 in H. destruct H; discriminate.
  - reflexivity.
Qed.

Lemma extend_rel (height columnsToAdd : num) (b1 b2 : Bitmap.t) :
  same_frame b1 b2 ->
  rel_outcome same_frame (extend height columnsToAdd b1) (extend height columnsToAdd b2).
Proof.
  intros H12. unfold extend, for_lt. apply for_from_rel; [|exact H12].
  intros row s1 s2 Hs. apply for_from_rel; [|exact Hs].
  intros j t1 t2 Ht. now apply clear_cell_rel.
Qed.

(** Whether [draw] ends or throws does not depend on [xpos]. *)
Lemma draw_rel (g : Glyph.t) (box : BoundingBox.t) (rowStart x1 x2 : num)
    (b1 b2 : Bitmap.t) :
  same_frame b1 b2 ->
  rel_outcome same_frame (draw g box rowStart x1 b1) (draw g box rowStart x2 b2).
Proof.
  intros H12. unfold draw, for_lt. apply for_from_rel; [|exact H12].
  intros y s1 s2 Hs. apply for_from_rel; [|exact Hs].
  intros x t1 t2 Ht. destruct (glyph_bit g y x) as [v|]; simpl; [|reflexivity].
  now apply or_cell_rel.
Qed.

Lemma set_width_same_frame (n : num) (b1 b2 : Bitmap.t) :
  same_frame b1 b2 ->
  same_frame (Bitmap.set_width (num_add (Bitmap.width b1) n) b1)
             (Bitmap.set_width (num_add (Bitmap.width b2) n) b2).
Proof.
  intros (Hw & Hh & Hr). split; [simpl; now rewrite Hw|]. split; [exact Hh|exact Hr].
Qed.

Lemma write_char_rel (this : BDF) (height baseline k1 k2 : num) (charCode : Z)
    (s1 s2 : Bitmap.t * num) :
  same_frame (fst s1) (fst s2) ->
  rel_outcome (fun t1 t2 => same_frame (fst t1) (fst t2))
    (write_char this height baseline k1 charCode s1)
    (write_char this height baseline k2 charCode s2).
Proof.
  destruct s1 as [b1 x1], s2 as [b2 x2]. simpl. intros H12. unfold write_char.
  destruct (resolve_glyph this charCode) as [gd|]; simpl; [|reflexivity].
  destruct (gd ≫= _) as [[g box]|]; [|reflexivity].
  assert (Hw : Bitmap.width b2 = Bitmap.width b1) by apply H12. rewrite Hw.
  destruct (num_lt _ _);
    (eapply (rel_outcome_bind same_frame); [now apply extend_rel|];
     intros a1 a2 Ha;
     eapply (rel_outcome_bind same_frame);
       [apply draw_rel; now apply set_width_same_frame|];
     intros c1 c2 Hc; exact Hc).
Qed.

Lemma write_chars_rel (this : BDF) (height baseline k1 k2 : num) (text : string) :
  forall s1 s2,
    same_frame (fst s1) (fst s2) ->
    rel_outcome (fun t1 t2 => same_frame (fst t1) (fst t2))
      (write_chars this height baseline k1 text s1)
      (write_chars this height baseline k2 text s2).
Proof.
  induction text as [|c text IH]; intros s1 s2 Hs; simpl; [exact Hs|].
  eapply rel_outcome_bind; [now apply write_char_rel|]. intros t1 t2 Ht. now apply IH.
Qed.

Lemma write_pass_rel (this : BDF) (text : string) (o1 o2 : options)
    (b1 b2 : option Bitmap.t) :
  same_start b1 b2 ->
  same_outcome (write_pass this text o1 b1) (write_pass this text o2 b2).
Proof.
  intros Hb. unfold same_outcome, write_pass.
  destruct (font_boundingBox this) as [fbox|]; simpl; [|reflexivity].
  eapply rel_outcome_bind; [apply write_chars_rel|].
  - simpl. destruct b1 as [a1|], b2 as [a2|]; simpl in Hb; try contradiction;
      [exact Hb|apply same_frame_refl].
  - intros t1 t2 Ht. exact Ht.
Qed.

Lemma writeText_calls_rel (this : BDF) (text : string) :
  forall calls o1 o2 b1 b2,
    textRepeat o1 = textRepeat o2 -> same_start b1 b2 ->
    same_outcome (fst (writeText_calls calls this text o1 b1))
                 (fst (writeText_calls calls this text o2 b2)).
Proof.
  induction calls as [|calls IH]; intros o1 o2 b1 b2 Ht Hb; cbn [writeText_calls];
    pose proof (write_pass_rel this text o1 o2 b1 b2 Hb) as Hp;
    unfold same_outcome in *; rewrite Ht;
    destruct (write_pass this text o1 b1) as [a1|e1],
             (write_pass this text o2 b2) as [a2|e2];
    simpl in Hp; try contradiction; try exact Hp;
    destruct (num_lt _ _); simpl; try exact Hp; try reflexivity.
  apply IH; [|exact Hp]. unfold decrement_textRepeat. simpl. now rewrite Ht.
Qed.

(** X17: The kerning bias moves the glyphs and nothing else: with the same
    [textRepeat], two calls of [writeText] that differ in [kerningBias]
    both throw the same exception or both return a bitmap, and the two
    bitmaps have the same [width], the same [height] and rows under the
    same keys. *)
Theorem kerningBias_keeps_the_frame (this : BDF) (text : string)
    (repeats bias1 bias2 : option num) :
  same_outcome (fst (writeText this text (Some (mkOptions repeats bias1)) None))
               (fst (writeText this text (Some (mkOptions repeats bias2)) None)).
Proof.
  unfold writeText, writeText_on. cbn [default from_option id textRepeat].
  now apply writeText_calls_rel.
Qed.

(** ** [writeText]: a font without glyphs *)

Lemma resolve_glyph_empty (this : BDF) (charCode : Z) :
  glyphs this = Some [] ->
  resolve_glyph this charCode = Throw TypeError \/
  resolve_glyph this charCode = Normal None.
Proof.
  intros Ht. unfold resolve_glyph, glyph_at, get_defaultChar, first_glyph.
  rewrite Ht. simpl.
  destruct (meta this) as [m|]; simpl; [|now left].
  destruct (Meta.properties m) as [p|]; simpl; [|now left]. now right.
Qed.

Lemma write_pass_empty (this : BDF) (ch : ascii) (text : string) (opts : options)
    (_bitmap : option Bitmap.t) :
  glyphs this = Some [] ->
  write_pass this (String ch text) opts _bitmap = Throw TypeError.
Proof.
  intros Ht. unfold write_pass.
  destruct (font_boundingBox this) as [fbox|] eqn:Hbox.
  2: { unfold font_boundingBox in Hbox. destruct (meta this ≫= Meta.boundingBox);
       [discriminate|]. now injection Hbox as <-. }
  cbn [mbind result_bind write_chars write_char].
  destruct (resolve_glyph_empty this (code_of ch) Ht) as [-> | ->]; reflexivity.
Qed.

(** X18: [writeText] on an instance that has loaded nothing throws a TypeError,
    whatever the text; and on a font whose table of glyphs is empty it
    throws a TypeError for every text of at least one character. *)
Theorem writeText_without_glyphs :
  (forall text opts _bitmap,
     fst (writeText new_BDF text opts _bitmap) = Throw TypeError) /\
  (forall this ch text opts _bitmap,
     glyphs this = Some [] ->
     fst (writeText this (String ch text) opts _bitmap) = Throw TypeError).
Proof.
  split.
  - intros text opts _bitmap. unfold writeText, writeText_on.
    destruct (iterations _); reflexivity.
  - intros this ch text opts _bitmap Ht. unfold writeText, writeText_on.
    destruct (iterations _); cbn [writeText_calls]; now rewrite write_pass_empty.
Qed.

Lemma writeText_without_glyphs_witness :
  fst (writeText (loaded " ") "A" None None) = Throw TypeError.
Proof.
  apply (proj2 writeText_without_glyphs). reflexivity.
Defined.

(** ** [writeText]: glyphs side by side *)

(** On a font whose glyphs lie each inside its own cell, without kerning
    bias: a character is drawn in the columns that it appends, and leaves
    the columns before them as they were. *)
Section SideBySide.

Variables (this : BDF) (m : Meta.t) (fbox : BoundingBox.t).
Variables (table : list (pkey * Glyph.t)) (H Y : Z).
Hypothesis Hmeta : meta this = Some m.
Hypothesis HboundingBox : Meta.boundingBox m = Some fbox.
Hypothesis Hglyphs : glyphs this = Some table.
Hypothesis Hheight : BoundingBox.height fbox = Int H.
Hypothesis Hyoffset : BoundingBox.y fbox = Int Y.

Lemma write_char_in_cell (ch : ascii) (b : Bitmap.t) (K : Z) :
  in_own_cell fbox table ch ->
  Bitmap.width b = Int K -> 0 <= K ->
  (forall r, 0 <= r < H -> is_Some (Bitmap.rows b !! r)) ->
  exists b',
    write_char this (Int H) (Int (H + Y)) (Int 0) (code_of ch) (b, Int K)
      = Normal (b', Int (K + advance_of table ch)) /\
    0 <= advance_of table ch /\
    Bitmap.width b' = Int (K + advance_of table ch) /\
    (forall r, 0 <= r < H -> is_Some (Bitmap.rows b' !! r)) /\
    forall r c, 0 <= r < H ->
      (0 <= c < K -> cell b' r (Int c) = cell b r (Int c)) /\
      (K <= c < K + advance_of table ch ->
       cell b' r (Int c) = Some (char_pixel fbox table ch r (c - K))).
Proof.
  intros (g & bx & y & w & h & dw & H' & Y' & Hg & Hbox & Hdw & HH & HY & Hbx & Hw
          & Hadv & Htop & Hbot & Hrows) HbK HK Hbrows.
  rewrite Hheight in HH. injection HH as <-. rewrite Hyoffset in HY. injection HY as <-.
  assert (Ha : advance_of table ch = dw).
  { unfold advance_of. rewrite Hg. simpl. now rewrite Hdw. }
  rewrite Ha. set (rs := H + Y - y - h) in *.
  destruct (extend_spec (Int H) dw K b HbK) as (b1 & Hb1 & Hf1 & Hc1).
  { intros r Hr. apply Hbrows. cbn [iterations] in Hr. lia. }
  set (b1' := Bitmap.set_width (num_add (Bitmap.width b1) (Int dw)) b1).
  destruct (draw_spec g (BoundingBox.mk (Int bx) (Int y) (Int w) (Int h)) rs K bx b1')
    as (b2 & Hb2 & Hf2 & Hc2).
  { reflexivity. }
  { intros j Hj. cbn [BoundingBox.height iterations] in Hj. split.
    - cbn [b1' Bitmap.set_width Bitmap.rows]. apply Hf1, Hbrows. unfold rs. lia.
    - apply Hrows. lia. }
  exists b2. split; [|split; [lia|split; [|split]]].
  - unfold write_char.
    rewrite (resolve_glyph_present this table (code_of ch) g Hglyphs Hg).
    cbn [mbind result_bind option_bind]. rewrite Hbox.
    cbn [fmap option_fmap option_map BoundingBox.x BoundingBox.y BoundingBox.width
         BoundingBox.height num_sub num_neg].
    rewrite HbK, Hdw. cbn [ToNumber Math_max num_lt num_add].
    replace (K <? - bx) with false by (symmetry; apply Z.ltb_ge; lia).
    rewrite Z.max_l by lia. rewrite Hb1. cbn [mbind result_bind]. fold b1'.
    fold rs. rewrite Hb2. cbn [mbind result_bind].
    cbn [num_add]. now replace (K + (dw + 0)) with (K + dw) by lia.
  - destruct Hf2 as (-> & _). cbn [b1' Bitmap.set_width Bitmap.width].
    destruct Hf1 as (-> & _). rewrite HbK. reflexivity.
  - intros r Hr. apply Hf2. cbn [b1' Bitmap.set_width Bitmap.rows]. apply Hf1, Hbrows, Hr.
  - intros r c Hr.
    assert (Hcell1 : 0 <= c < K + dw ->
                     cell b1' r (Int c) = if c <? K then cell b r (Int c) else Some 0).
    { intros Hc. unfold cell. cbn [b1' Bitmap.set_width Bitmap.rows].
      fold (cell b1 r (Int c)). rewrite Hc1. destruct (c <? K) eqn:HcK.
      - apply Z.ltb_lt in HcK.
        replace (written 0 K _ _ 0 r (Int c)) with false; [reflexivity|].
        symmetry. apply not_true_is_false. rewrite written_true.
        intros (cc & [= <-] & Hwr). lia.
      - apply Z.ltb_ge in HcK.
        replace (written 0 K _ _ 0 r (Int c)) with true; [reflexivity|].
        symmetry. rewrite written_true. exists c. split; [reflexivity|].
        cbn [iterations]. lia. }
    split; intros Hc; rewrite Hc2, Hcell1 by lia.
    + replace (c <? K) with true by (symmetry; apply Z.ltb_lt; lia).
      replace (written rs (K + bx) _ _ 0 r (Int c)) with false; [reflexivity|].
      symmetry. apply not_true_is_false. rewrite written_true.
      intros (cc & [= <-] & Hwr). lia.
    + replace (c <? K) with false by (symmetry; apply Z.ltb_ge; lia).
      unfold char_pixel, glyph_cell_pixel. rewrite Hg, Hbox. unfold rowStart_of.
      rewrite Hheight, Hyoffset.
      cbn [BoundingBox.x BoundingBox.y BoundingBox.width BoundingBox.height
           num_add num_sub]. fold rs.
      cbn [BoundingBox.width BoundingBox.height iterations default from_option id].
      destruct (in_glyph_box rs bx w h r (c - K)) eqn:Hin.
      * replace (written rs (K + bx) _ _ 0 r (Int c)) with true.
        2: { symmetry. rewrite written_true. exists c. split; [reflexivity|].
             unfold in_glyph_box in Hin.
             rewrite !andb_true_iff, !Z.leb_le, !Z.ltb_lt in Hin. lia. }
        rewrite Z.lor_0_l. unfold glyph_pixel.
        now replace (c - (K + bx)) with (c - K - bx) by lia.
      * replace (written rs (K + bx) _ _ 0 r (Int c)) with false; [reflexivity|].
        symmetry. apply not_true_is_false. rewrite written_true.
        intros (cc & [= <-] & Hwr). apply not_true_iff_false in Hin. apply Hin.
        unfold in_glyph_box. rewrite !andb_true_iff, !Z.leb_le, !Z.ltb_lt. lia.
Qed.

Lemma write_chars_in_cells (text : string) :
  (forall ch, In ch (list_ascii_of_string text) -> in_own_cell fbox table ch) ->
  forall b K,
    Bitmap.width b = Int K -> 0 <= K ->
    (forall r, 0 <= r < H -> is_Some (Bitmap.rows b !! r)) ->
    exists b',
      write_chars this (Int H) (Int (H + Y)) (Int 0) text (b, Int K)
        = Normal (b', Int (K + text_width table text)) /\
      0 <= text_width table text /\
      Bitmap.width b' = Int (K + text_width table text) /\
      forall r c, 0 <= r < H ->
        (0 <= c < K -> cell b' r (Int c) = cell b r (Int c)) /\
        (K <= c < K + text_width table text ->
         cell b' r (Int c) = Some (text_pixel fbox table text r (c - K))).
Proof.
  induction text as [|ch text IH]; intros Hcells b K HbK HK Hbrows.
  - exists b. cbn [write_chars text_width]. rewrite Z.add_0_r.
    split; [reflexivity|]. split; [lia|]. split; [exact HbK|].
    intros r c Hr. split; [reflexivity|lia].
  - destruct (write_char_in_cell ch b K) as (b1 & Hb1 & Ha & Hw1 & Hr1 & Hc1); auto.
    { apply Hcells. now left. }
    destruct (IH (fun c Hc => Hcells c (or_intror Hc)) b1 (K + advance_of table ch))
      as (b2 & Hb2 & Htw & Hw2 & Hc2); auto; [lia|].
    exists b2. cbn [write_chars text_width]. rewrite Hb1. cbn [mbind result_bind].
    rewrite Z.add_assoc. split; [exact Hb2|]. split; [lia|]. split; [exact Hw2|].
    intros r c Hr. destruct (Hc1 r c Hr) as [Hold1 Hnew1].
    destruct (Hc2 r c Hr) as [Hold2 Hnew2]. split.
    + intros Hc. rewrite Hold2 by lia. now apply Hold1.
    + intros Hc. cbn [text_pixel]. destruct (c - K <? advance_of table ch) eqn:Hlt.
      * apply Z.ltb_lt in Hlt. rewrite Hold2 by lia. apply Hnew1. lia.
      * apply Z.ltb_ge in Hlt. rewrite Hnew2 by lia.
        now replace (c - (K + advance_of table ch)) with (c - K - advance_of table ch) by lia.
Qed.

Lemma text_width_nonneg (text : string) :
  (forall ch, In ch (list_ascii_of_string text) -> in_own_cell fbox table ch) ->
  0 <= text_width table text.
Proof.
  induction text as [|ch text IH]; intros Hcells; cbn [text_width]; [lia|].
  assert (0 <= advance_of table ch).
  { destruct (Hcells ch (or_introl eq_refl))
      as (g & bx & y & w & h & dw & H' & Y' & Hg & _ & Hdw & _ & _ & Hbx & Hw & Hadv & _).
    unfold advance_of. rewrite Hg. simpl. rewrite Hdw. lia. }
  assert (0 <= text_width table text) by (apply IH; intros c Hc; apply Hcells; now right).
  lia.
Qed.

(** A character drawn again at [xpos = X], over the columns that show it
    already: these stay as they are, and the columns appended hold
    zeros. *)
Lemma write_char_again (ch : ascii) (b : Bitmap.t) (K X : Z) :
  in_own_cell fbox table ch ->
  Bitmap.width b = Int K -> 0 <= X -> X + advance_of table ch <= K ->
  (forall r, 0 <= r < H -> is_Some (Bitmap.rows b !! r)) ->
  (forall r c, 0 <= r < H -> X <= c < X + advance_of table ch ->
     cell b r (Int c) = Some (char_pixel fbox table ch r (c - X))) ->
  exists b',
    write_char this (Int H) (Int (H + Y)) (Int 0) (code_of ch) (b, Int X)
      = Normal (b', Int (X + advance_of table ch)) /\
    Bitmap.width b' = Int (K + advance_of table ch) /\
    (forall r, 0 <= r < H -> is_Some (Bitmap.rows b' !! r)) /\
    forall r c, 0 <= r < H ->
      (0 <= c < K -> cell b' r (Int c) = cell b r (Int c)) /\
      (K <= c < K + advance_of table ch -> cell b' r (Int c) = Some 0).
Proof.
  intros (g & bx & y & w & h & dw & H' & Y' & Hg & Hbox & Hdw & HH & HY & Hbx & Hw
          & Hadv & Htop & Hbot & Hrows) HbK HX HXK Hbrows Hshown.
  rewrite Hheight in HH. injection HH as <-. rewrite Hyoffset in HY. injection HY as <-.
  assert (Ha : advance_of table ch = dw).
  { unfold advance_of. rewrite Hg. simpl. now rewrite Hdw. }
  rewrite Ha in *. set (rs := H + Y - y - h) in *.
  destruct (extend_spec (Int H) dw K b HbK) as (b1 & Hb1 & Hf1 & Hc1).
  { intros r Hr. apply Hbrows. cbn [iterations] in Hr. lia. }
  set (b1' := Bitmap.set_width (num_add (Bitmap.width b1) (Int dw)) b1).
  destruct (draw_spec g (BoundingBox.mk (Int bx) (Int y) (Int w) (Int h)) rs X bx b1')
    as (b2 & Hb2 & Hf2 & Hc2).
  { reflexivity. }
  { intros j Hj. cbn [BoundingBox.height iterations] in Hj. split.
    - cbn [b1' Bitmap.set_width Bitmap.rows]. apply Hf1, Hbrows. unfold rs. lia.
    - apply Hrows. lia. }
  exists b2. split; [|split; [|split]].
  - unfold write_char.
    rewrite (resolve_glyph_present this table (code_of ch) g Hglyphs Hg).
    cbn [mbind result_bind option_bind]. rewrite Hbox.
    cbn [fmap option_fmap option_map BoundingBox.x BoundingBox.y BoundingBox.width
         BoundingBox.height num_sub num_neg].
    rewrite HbK, Hdw. cbn [ToNumber Math_max num_lt num_add].
    replace (K <? - bx) with false by (symmetry; apply Z.ltb_ge; lia).
    rewrite Z.max_l by lia. rewrite Hb1. cbn [mbind result_bind]. fold b1'.
    fold rs. rewrite Hb2. cbn [mbind result_bind].
    cbn [num_add]. now replace (X + (dw + 0)) with (X + dw) by lia.
  - destruct Hf2 as (-> & _). cbn [b1' Bitmap.set_width Bitmap.width].
    destruct Hf1 as (-> & _). rewrite HbK. reflexivity.
  - intros r Hr. apply Hf2. cbn [b1' Bitmap.set_width Bitmap.rows]. apply Hf1, Hbrows, Hr.
  - intros r c Hr.
    assert (Hcell1 : 0 <= c < K + dw ->
                     cell b1' r (Int c) = if c <? K then cell b r (Int c) else Some 0).
    { intros Hc. unfold cell. cbn [b1' Bitmap.set_width Bitmap.rows].
      fold (cell b1 r (Int c)). rewrite Hc1. destruct (c <? K) eqn:HcK.
      - apply Z.ltb_lt in HcK.
        replace (written 0 K _ _ 0 r (Int c)) with false; [reflexivity|].
        symmetry. apply not_true_is_false. rewrite written_true.
        intros (cc & [= <-] & Hwr). lia.
      - apply Z.ltb_ge in HcK.
        replace (written 0 K _ _ 0 r (Int c)) with true; [reflexivity|].
        symmetry. rewrite written_true. exists c. split; [reflexivity|].
        cbn [iterations]. lia. }
    split; intros Hc; rewrite Hc2, Hcell1 by lia.
    + replace (c <? K) with true by (symmetry; apply Z.ltb_lt; lia).
      cbn [BoundingBox.width BoundingBox.height iterations].
      destruct (written rs (X + bx) _ _ 0 r (Int c)) eqn:Hwr; [|reflexivity].
      apply written_true in Hwr. destruct Hwr as (cc & [= <-] & Hr0 & Hcc & Hrow).
      rewrite (Hshown r c Hr) by lia.
      unfold char_pixel, glyph_cell_pixel. rewrite Hg, Hbox. unfold rowStart_of.
      rewrite Hheight, Hyoffset.
      cbn [BoundingBox.x BoundingBox.y BoundingBox.width BoundingBox.height
           num_add num_sub default from_option id]. fold rs.
      replace (in_glyph_box rs bx w h r (c - X)) with true.
      2: { symmetry. unfold in_glyph_box.
           rewrite !andb_true_iff, !Z.leb_le, !Z.ltb_lt. lia. }
      unfold glyph_pixel. replace (c - (X + bx)) with (c - X - bx) by lia.
      now rewrite Z.lor_diag.
    + replace (c <? K) with false by (symmetry; apply Z.ltb_ge; lia).
      replace (written rs (X + bx) _ _ 0 r (Int c)) with false; [reflexivity|].
      symmetry. apply not_true_is_false. rewrite written_true.
      intros (cc & [= <-] & Hwr). cbn [BoundingBox.width iterations] in Hwr. lia.
Qed.

Lemma write_chars_again (text : string) :
  (forall ch, In ch (list_ascii_of_string text) -> in_own_cell fbox table ch) ->
  forall b K X,
    Bitmap.width b = Int K -> 0 <= X -> X + text_width table text <= K ->
    (forall r, 0 <= r < H -> is_Some (Bitmap.rows b !! r)) ->
    (forall r c, 0 <= r < H -> X <= c < X + text_width table text ->
       cell b r (Int c) = Some (text_pixel fbox table text r (c - X))) ->
    exists b',
      write_chars this (Int H) (Int (H + Y)) (Int 0) text (b, Int X)
        = Normal (b', Int (X + text_width table text)) /\
      Bitmap.width b' = Int (K + text_width table text) /\
      (forall r, 0 <= r < H -> is_Some (Bitmap.rows b' !! r)) /\
      forall r c, 0 <= r < H ->
        (0 <= c < K -> cell b' r (Int c) = cell b r (Int c)) /\
        (K <= c < K + text_width table text -> cell b' r (Int c) = Some 0).
Proof.
  induction text as [|ch text IH]; intros Hcells b K X HbK HX HXK Hbrows Hshown.
  - exists b. cbn [write_chars text_width]. rewrite !Z.add_0_r.
    split; [reflexivity|]. split; [exact HbK|]. split; [exact Hbrows|].
    intros r c Hr. split; [reflexivity|lia].
  - cbn [text_width] in *.
    assert (Htext : forall c, In c (list_ascii_of_string text) -> in_own_cell fbox table c)
      by (intros c Hc; apply Hcells; now right).
    pose proof (text_width_nonneg text Htext) as Htw.
    assert (Hch : in_own_cell fbox table ch) by (apply Hcells; now left).
    assert (Ha : 0 <= advance_of table ch).
    { pose proof (text_width_nonneg (String ch EmptyString)) as Hone.
      cbn [text_width] in Hone. rewrite Z.add_0_r in Hone. apply Hone.
      intros c [<-|[]]. exact Hch. }
    destruct (write_char_again ch b K X Hch HbK HX) as (b1 & Hb1 & Hw1 & Hr1 & Hc1);
      [lia|exact Hbrows| |].
    { intros r c Hr Hc. rewrite (Hshown r c Hr) by lia. cbn [text_pixel].
      now replace (c - X <? advance_of table ch) with true
        by (symmetry; apply Z.ltb_lt; lia). }
    destruct (IH Htext b1 (K + advance_of table ch) (X + advance_of table ch))
      as (b2 & Hb2 & Hw2 & Hr2 & Hc2); [exact Hw1|lia|lia|exact Hr1| |].
    { intros r c Hr Hc. destruct (Hc1 r c Hr) as [Hold1 _]. rewrite Hold1 by lia.
      rewrite (Hshown r c Hr) by lia. cbn [text_pixel].
      replace (c - X <? advance_of table ch) with false
        by (symmetry; apply Z.ltb_ge; lia).
      now replace (c - X - advance_of table ch) with (c - (X + advance_of table ch))
        by lia. }
    exists b2. cbn [write_chars]. rewrite Hb1. cbn [mbind result_bind].
    rewrite !Z.add_assoc. split; [exact Hb2|]. split; [exact Hw2|]. split; [exact Hr2|].
    intros r c Hr. destruct (Hc1 r c Hr) as [Hold1 Hnew1].
    destruct (Hc2 r c Hr) as [Hold2 Hnew2]. split.
    + intros Hc. rewrite Hold2 by lia. now apply Hold1.
    + intros Hc. destruct (decide (c < K + advance_of table ch)) as [Hlt|Hge].
      * rewrite Hold2 by lia. apply Hnew1. lia.
      * apply Hnew2. lia.
Qed.

(** A pass over the text on the bitmap of the passes before: the text is
    drawn over itself and as many columns of zeros as the text is wide are
    appended. *)
Lemma write_pass_again (text : string) (opts : options) (_bitmap : option Bitmap.t)
    (K : Z) :
  (forall ch, In ch (list_ascii_of_string text) -> in_own_cell fbox table ch) ->
  kerningBias opts = None ->
  (_bitmap = None /\ K = 0) \/
  (exists b, _bitmap = Some b /\ text_width table text <= K /\
             shows_text fbox table text H K b) ->
  exists b',
    write_pass this text opts _bitmap = Normal b' /\
    shows_text fbox table text H (K + text_width table text) b'.
Proof.
  intros Hcells Hk Hstart. pose proof (text_width_nonneg text Hcells) as Htw.
  unfold write_pass, font_boundingBox.
  rewrite Hmeta. cbn [mbind option_bind]. rewrite HboundingBox. cbn [mbind result_bind].
  rewrite Hheight, Hyoffset, Hk. cbn [or_zero num_add].
  destruct Hstart as [[-> ->]|(b & -> & HK & HbK & Hbrows & Hbcells)].
  - destruct (new_bitmap_spec (Int H)) as (Hw0 & Hh0 & Hr0).
    destruct (write_chars_in_cells text Hcells (new_bitmap (Int H)) 0 Hw0)
      as (b' & Hb' & _ & Hw' & Hc'); [lia| |].
    { intros r Hr. rewrite Hr0. rewrite decide_True by (cbn [iterations]; lia). eauto. }
    rewrite Hb'. cbn [mbind result_bind fst]. exists b'. split; [reflexivity|].
    split; [exact Hw'|]. split.
    + intros r Hr. apply write_chars_canvas in Hb'. simpl in Hb'. apply Hb'.
      rewrite Hr0. rewrite decide_True by (cbn [iterations]; lia). eauto.
    + intros r c Hr Hc. destruct (Hc' r c Hr) as [_ Hnew]. rewrite Hnew by lia.
      rewrite Z.sub_0_r.
      now replace (c <? text_width table text) with true
        by (symmetry; apply Z.ltb_lt; lia).
  - destruct (write_chars_again text Hcells b K 0 HbK) as (b' & Hb' & Hw' & Hr' & Hc');
      [lia|lia|exact Hbrows| |].
    { intros r c Hr Hc. rewrite (Hbcells r c Hr) by lia. rewrite Z.sub_0_r.
      now replace (c <? text_width table text) with true
        by (symmetry; apply Z.ltb_lt; lia). }
    rewrite Hb'. cbn [mbind result_bind fst]. exists b'. split; [reflexivity|].
    split; [exact Hw'|]. split; [exact Hr'|].
    intros r c Hr Hc. destruct (Hc' r c Hr) as [Hold Hnew].
    destruct (decide (c < K)) as [Hlt|Hge].
    + rewrite Hold by lia. apply Hbcells; [exact Hr|lia].
    + rewrite Hnew by lia.
      now replace (c <? text_width table text) with false
        by (symmetry; apply Z.ltb_ge; lia).
Qed.

Lemma writeText_on_again (text : string) :
  (forall ch, In ch (list_ascii_of_string text) -> in_own_cell fbox table ch) ->
  forall calls n opts _bitmap K,
    calls = Z.to_nat n -> 0 <= n ->
    textRepeat opts = Some (Int n) -> kerningBias opts = None ->
    (_bitmap = None /\ K = 0) \/
    (exists b, _bitmap = Some b /\ text_width table text <= K /\
               shows_text fbox table text H K b) ->
    exists b',
      fst (writeText_on this text opts _bitmap) = Normal b' /\
      shows_text fbox table text H (K + (n + 1) * text_width table text) b'.
Proof.
  intros Hcells. pose proof (text_width_nonneg text Hcells) as Htw.
  induction calls as [|calls IH]; intros n opts _bitmap K Hcalls Hn Ht Hk Hstart;
    rewrite writeText_on_unfold;
    destruct (write_pass_again text opts _bitmap K Hcells Hk Hstart) as (b1 & Hb1 & Hs1);
    rewrite Hb1, Ht; cbn [or_zero num_lt].
  - replace n with 0 in * by lia. simpl. exists b1. split; [reflexivity|].
    now replace (K + (0 + 1) * text_width table text)
      with (K + text_width table text) by lia.
  - replace (0 <? n) with true by (symmetry; apply Z.ltb_lt; lia).
    destruct (IH (n - 1) (decrement_textRepeat opts) (Some b1)
                (K + text_width table text)) as (b2 & Hb2 & Hs2); [lia|lia| | | |].
    + unfold decrement_textRepeat. now rewrite Ht.
    + exact Hk.
    + right. exists b1. split; [reflexivity|]. split; [|exact Hs1].
      destruct Hstart as [[_ ->]|(b & _ & HK & _)]; lia.
    + exists b2. split; [exact Hb2|].
      now replace (K + (n + 1) * text_width table text)
        with (K + text_width table text + (n - 1 + 1) * text_width table text) by lia.
Qed.

End SideBySide.

(** X19: [writeText(text)] sets the glyphs side by side: on a font with a
    bounding box, for a text of which every character has a glyph that
    lies inside its own cell (right of its origin, within its advance and
    on rows of the canvas), the call returns a bitmap whose width is the
    sum of the advances and whose columns are, one character after the
    other, the cell of each glyph: its bits inside its bounding box, 0
    around it. *)
Theorem writeText_side_by_side (this : BDF) (m : Meta.t) (fbox : BoundingBox.t)
    (table : list (pkey * Glyph.t)) (H : Z) (text : string) :
  meta this = Some m -> Meta.boundingBox m = Some fbox ->
  glyphs this = Some table -> BoundingBox.height fbox = Int H ->
  (forall ch, In ch (list_ascii_of_string text) -> in_own_cell fbox table ch) ->
  exists b,
    fst (writeText this text None None) = Normal b /\
    Bitmap.width b = Int (text_width table text) /\
    Bitmap.height b = Int H /\
    forall r c, 0 <= r < H -> 0 <= c < text_width table text ->
      cell b r (Int c) = Some (text_pixel fbox table text r c).
Proof.
  intros Hm Hfbox Ht HH Hcells.
  assert (HY : exists Y, text = EmptyString \/ BoundingBox.y fbox = Int Y).
  { destruct text as [|ch text]; [exists 0; now left|].
    destruct (Hcells ch (or_introl eq_refl))
      as (g & bx & y & w & h & dw & H' & Y' & _ & _ & _ & _ & HY & _).
    exists Y'. now right. }
  destruct HY as [Y HY].
  destruct (new_bitmap_spec (Int H)) as (Hw0 & Hh0 & Hr0).
  assert (Hrows0 : forall r, 0 <= r < H -> is_Some (Bitmap.rows (new_bitmap (Int H)) !! r)).
  { intros r Hr. rewrite Hr0. rewrite decide_True by (cbn [iterations]; lia). eauto. }
  assert (Hpass : exists b,
             write_pass this text (mkOptions None None) None = Normal b /\
             Bitmap.width b = Int (text_width table text) /\
             Bitmap.height b = Int H /\
             forall r c, 0 <= r < H -> 0 <= c < text_width table text ->
               cell b r (Int c) = Some (text_pixel fbox table text r c)).
  { unfold write_pass, font_boundingBox.
    rewrite Hm. cbn [mbind option_bind]. rewrite Hfbox. cbn [mbind result_bind].
    rewrite HH. cbn [kerningBias or_zero].
    destruct HY as [->|HY].
    - exists (new_bitmap (Int H)). cbn [write_chars mbind result_bind fst text_width].
      split; [reflexivity|]. split; [exact Hw0|]. split; [exact Hh0|]. intros r c _ Hc. lia.
    - rewrite HY. cbn [num_add].
      destruct (write_chars_in_cells this fbox table H Y Ht HH HY text Hcells
                  (new_bitmap (Int H)) 0 Hw0 ltac:(lia) Hrows0)
        as (b & Hb & Htw & Hwb & Hcb).
      rewrite Hb. cbn [mbind result_bind fst].
      exists b. split; [reflexivity|]. split; [exact Hwb|]. split.
      + apply write_chars_canvas in Hb. simpl in Hb. destruct Hb as [-> _]. exact Hh0.
      + intros r c Hr Hc. destruct (Hcb r c Hr) as [_ Hnew].
        rewrite Hnew by lia. now rewrite Z.sub_0_r. }
  destruct Hpass as (b & Hb & Hrest). exists b. split; [|exact Hrest].
  unfold writeText, writeText_on. cbn [default from_option id textRepeat or_zero iterations].
  change (Z.to_nat 0) with 0%nat. cbn [writeText_calls]. now rewrite Hb.
Qed.

Lemma writeText_side_by_side_witness :
  exists b,
    fst (writeText (loaded pixel_font) "AA" None None) = Normal b /\
    Bitmap.width b = Int 2 /\ Bitmap.height b = Int 1 /\
    forall r c, 0 <= r < 1 -> 0 <= c < 2 ->
      cell b r (Int c)
        = Some (text_pixel (BoundingBox.mk (Int 0) (Int 0) (Int 1) (Int 1))
                  [(KNum 65, pixel_glyph)] "AA" r c).
Proof.
  apply (writeText_side_by_side (loaded pixel_font)
           (Meta.mk (Some "2.1") (Some "sample") (Some (Size.mk (Int 1) (Int 75) (Int 75)))
              (Some (BoundingBox.mk (Int 0) (Int 0) (Int 1) (Int 1)))
              (Some (Properties.mk None None (Some (Int 65)))) (Some (Int 1)))
           (BoundingBox.mk (Int 0) (Int 0) (Int 1) (Int 1))
           [(KNum 65, pixel_glyph)] 1 "AA").
  - vm_compute. reflexivity.
  - reflexivity.
  - vm_compute. reflexivity.
  - reflexivity.
  - intros ch Hin. simpl in Hin.
    assert (Hch : ch = "A"%char) by (destruct Hin as [<-|[<-|[]]]; reflexivity).
    subst ch. exists pixel_glyph, 0, 0, 1, 1, 1, 1, 0.
    repeat (split; [first [reflexivity|lia]|]).
    intros j Hj. replace j with 0 by lia. eexists. reflexivity.
Defined.

(** X20: With [textRepeat = n] the text is not repeated: on a font whose
    glyphs lie each inside its own cell, the bitmap returned is [n + 1]
    times as wide as the text, shows the text once, in its first columns,
    and holds zeros in all the columns after them. *)
Theorem repeat_appends_blank_columns (this : BDF) (m : Meta.t) (fbox : BoundingBox.t)
    (table : list (pkey * Glyph.t)) (H Y n : Z) (text : string) :
  meta this = Some m -> Meta.boundingBox m = Some fbox ->
  glyphs this = Some table ->
  BoundingBox.height fbox = Int H -> BoundingBox.y fbox = Int Y ->
  (forall ch, In ch (list_ascii_of_string text) -> in_own_cell fbox table ch) ->
  0 <= n ->
  exists b,
    fst (writeText this text (Some (mkOptions (Some (Int n)) None)) None) = Normal b /\
    Bitmap.width b = Int ((n + 1) * text_width table text) /\
    forall r c, 0 <= r < H -> 0 <= c < (n + 1) * text_width table text ->
      cell b r (Int c)
        = Some (if c <? text_width table text then text_pixel fbox table text r c else 0).
Proof.
  intros Hm Hfbox Ht HH HY Hcells Hn. rewrite writeText_Some.
  destruct (writeText_on_again this m fbox table H Y Hm Hfbox Ht HH HY text Hcells
              (Z.to_nat n) n (mkOptions (Some (Int n)) None) None 0)
    as (b & Hb & Hw & _ & Hc); auto.
  exists b. split; [exact Hb|]. split; [exact Hw|exact Hc].
Qed.

Lemma repeat_appends_blank_columns_witness :
  exists b,
    fst (writeText (loaded pixel_font) "AA" (Some (mkOptions (Some (Int 2)) None)) None)
      = Normal b /\
    Bitmap.width b = Int ((2 + 1) * 2) /\
    forall r c, 0 <= r < 1 -> 0 <= c < (2 + 1) * 2 ->
      cell b r (Int c)
        = Some (if c <? 2
                then text_pixel (BoundingBox.mk (Int 0) (Int 0) (Int 1) (Int 1))
                       [(KNum 65, pixel_glyph)] "AA" r c
                else 0).
Proof.
  apply (repeat_appends_blank_columns (loaded pixel_font)
           (Meta.mk (Some "2.1") (Some "sample") (Some (Size.mk (Int 1) (Int 75) (Int 75)))
              (Some (BoundingBox.mk (Int 0) (Int 0) (Int 1) (Int 1)))
              (Some (Properties.mk None None (Some (Int 65)))) (Some (Int 1)))
           (BoundingBox.mk (Int 0) (Int 0) (Int 1) (Int 1))
           [(KNum 65, pixel_glyph)] 1 0 2 "AA").
  - vm_compute. reflexivity.
  - reflexivity.
  - vm_compute. reflexivity.
  - reflexivity.
  - reflexivity.
  - intros ch Hin. simpl in Hin.
    assert (Hch : ch = "A"%char) by (destruct Hin as [<-|[<-|[]]]; reflexivity).
    subst ch. exists pixel_glyph, 0, 0, 1, 1, 1, 1, 0.
    repeat (split; [first [reflexivity|lia]|]).
    intros j Hj. replace j with 0 by lia. eexists. reflexivity.
  - lia.
Defined.

(** ** [writeText]: the last replacement *)

Lemma insert_sorted_le (z : Z) (l : list Z) :
  StronglySorted Z.le l -> StronglySorted Z.le (insert_sorted z l).
Proof.
  induction l as [|y l IH]; simpl; intros Hs.
  - repeat constructor.
  - inversion_clear Hs as [|? ? Hl Hy]. rewrite Forall_forall in Hy.
    destruct (z <=? y) eqn:Hle.
    + apply Z.leb_le in Hle.
      constructor; [constructor; [exact Hl|now apply Forall_forall]|].
      constructor; [lia|]. apply Forall_forall. intros x Hx. specialize (Hy x Hx). lia.
    + apply Z.leb_gt in Hle. constructor; [now apply IH|].
      apply Forall_forall. intros x Hx. apply list_elem_of_In, In_insert_sorted in Hx.
      destruct Hx as [->|Hx]; [lia|]. apply Hy. now apply list_elem_of_In.
Qed.

Lemma sorted_le (l : list Z) : StronglySorted Z.le (fold_right insert_sorted [] l).
Proof. induction l as [|z l IH]; simpl; [constructor|now apply insert_sorted_le]. Qed.

(** The first of the sorted keys is the least. *)
Lemma sorted_first_least (l : list Z) (z : Z) :
  fold_right insert_sorted [] l !! 0%nat = Some z ->
  In z l /\ forall x, In x l -> z <= x.
Proof.
  intros Hz. pose proof (sorted_le l) as Hs.
  destruct (fold_right insert_sorted [] l) as [|z' rest] eqn:Hl; [discriminate|].
  injection Hz as ->. split.
  - apply In_sorted. rewrite Hl. now left.
  - intros x Hx. apply In_sorted in Hx. rewrite Hl in Hx.
    inversion_clear Hs as [|? ? _ Hrest]. destruct Hx as [->|Hx]; [lia|].
    rewrite Forall_forall in Hrest. apply Hrest. now apply list_elem_of_In.
Qed.

(** X21: The glyph that replaces a character when all else fails is not the
    first glyph of the file: on a font whose codes are array indices, with
    a properties object, a character that has no glyph, whose default
    character has none and for which ['?'] has none is drawn with the
    glyph of the least code of the font. *)
Theorem last_replacement_has_least_code (this : BDF) (m : Meta.t) (p : Properties.t)
    (table : list (pkey * Glyph.t)) (charCode : Z) :
  meta this = Some m -> Meta.properties m = Some p -> glyphs this = Some table ->
  table <> [] ->
  (forall k, In k (map fst table) -> exists z, k = KNum z /\ 0 <= z < 4294967295) ->
  obj_get (KNum charCode) table = None ->
  obj_get (ToPropertyKey (Properties.defaultChar p)) table = None ->
  obj_get (KNum (code_of "?")) table = None ->
  exists z g,
    resolve_glyph this charCode = Normal (Some g) /\
    obj_get (KNum z) table = Some g /\
    forall z' g', (KNum z', g') ∈ table -> z <= z'.
Proof.
  intros Hm Hp Ht Hne Hkeys H1 H2 H3.
  rewrite (resolve_glyph_order this m p table charCode Hm Hp Ht), H1, H2, H3.
  destruct (filter_index_all (map fst table)) as [Hall Hnone].
  { apply Forall_forall. intros k Hk. apply list_elem_of_In, Hkeys in Hk.
    destruct Hk as (z & -> & Hz). simpl. apply andb_true_iff.
    rewrite Z.leb_le, Z.ltb_lt. lia. }
  destruct (Object_keys_first table Hne) as [k Hk]. rewrite Hk. cbn [default from_option id].
  unfold Object_keys in Hk. rewrite Hall, Hnone, app_nil_r in Hk.
  set (codes := map index_of (map fst table)) in *.
  destruct (fold_right insert_sorted [] codes !! 0%nat) as [z|] eqn:Hz.
  2: { destruct (fold_right insert_sorted [] codes); discriminate. }
  assert (Hkz : k = KNum z).
  { destruct (fold_right insert_sorted [] codes); [discriminate|].
    simpl in Hk, Hz. congruence. }
  subst k. destruct (sorted_first_least codes z Hz) as [Hin Hleast].
  assert (Hkey : In (KNum z) (map fst table)).
  { unfold codes in Hin. apply in_map_iff in Hin. destruct Hin as (k & Hk' & Hin).
    destruct (Hkeys k Hin) as (z0 & -> & _). simpl in Hk'. now subst z0. }
  destruct (obj_get_In (KNum z) table Hkey) as [g Hg].
  exists z, g. split; [now rewrite Hg|]. split; [exact Hg|].
  intros z' g' Hin'. apply Hleast. unfold codes. apply in_map_iff.
  exists (KNum z'). split; [reflexivity|]. apply in_map_iff.
  exists (KNum z', g'). split; [reflexivity|]. now apply list_elem_of_In.
Qed.

Lemma last_replacement_has_least_code_witness :
  exists z g,
    resolve_glyph (loaded unordered_font) 67 = Normal (Some g) /\
    obj_get (KNum z) (default [] (glyphs (loaded unordered_font))) = Some g /\
    forall z' g', (KNum z', g') ∈ default [] (glyphs (loaded unordered_font)) -> z <= z'.
Proof.
  apply (last_replacement_has_least_code (loaded unordered_font)
           (Meta.mk (Some "2.1") None None
              (Some (BoundingBox.mk (Int 0) (Int 0) (Int 1) (Int 1)))
              (Some Properties.empty) (Some (Int 2)))
           Properties.empty).
  - vm_compute. reflexivity.
  - reflexivity.
  - vm_compute. reflexivity.
  - vm_compute. discriminate.
  - intros k Hk. vm_compute in Hk.
    destruct Hk as [<-|[<-|[]]]; eexists; (split; [reflexivity|lia]).
  - vm_compute. reflexivity.
  - vm_compute. reflexivity.
  - vm_compute. reflexivity.
Defined.
